(** * x3f_extract: the extraction driver of the X3F tools

    A shallow embedding of [src/x3f_extract.c]: the bounded string
    helpers [safecpy] and [safecat], the path synthesis [make_paths],
    the command line loop of [main], the per-file pipeline and the
    exit status.  The decoding library (x3f_io, x3f_dump, ...) and the
    C library calls that touch the file system are collaborators: they
    are operations on an abstract world, and every call the driver
    makes is recorded in a trace. *)

From Stdlib Require Import List ZArith Lia Bool Ascii.
From Stdlib Require String.
Import ListNotations String.StringSyntax.
Delimit Scope string_scope with string.
Open Scope Z_scope.

(** ** C strings *)

Module CString.

(** A [char *] is modelled by the bytes found at the pointer.  A string
    function reads such an image up to its first NUL; an image without
    NUL is read as if a NUL followed its last byte (this is exact for
    the contents of [argv] and of string literals). *)
Definition image := list ascii.

Definition NUL : ascii := Ascii.zero.

Definition is_nul (c : ascii) : bool := Ascii.eqb c NUL.

(** The string an image holds: the bytes before the first NUL. *)
Fixpoint cstr (s : image) : list ascii :=
  match s with
  | [] => []
  | c :: s' => if is_nul c then [] else c :: cstr s'
  end.

(** A string literal of the source. *)
Definition lit (s : String.string) : image := String.list_ascii_of_string s.
Arguments lit s%_string.

Definition strlen (s : image) : Z := Z.of_nat (length (cstr s)).

(** [int] to [size_t] conversion (LP64: [size_t] has 64 bits). *)
Definition size_t_of_int (z : Z) : Z := z mod 2 ^ 64.

Definition INT_MAX : Z := 2 ^ 31 - 1.

Definition strnlen (s : image) (maxlen : Z) : Z := Z.min (strlen s) maxlen.

(** Storing [data] at offset [off] of a buffer.  A store that runs past
    the end of the buffer makes the result longer than the buffer: the
    extra bytes are the memory behind the array that got overwritten. *)
Definition mem_write (buf : image) (off : nat) (data : list ascii) : image :=
  firstn off buf ++ data ++ skipn (off + length data) buf.

Definition strcpy (dst src : image) : image :=
  mem_write dst 0 (cstr src ++ [NUL]).

Definition strcat (dst src : image) : image :=
  mem_write dst (length (cstr dst)) (cstr src ++ [NUL]).

Definition streq (a b : image) : bool :=
  if list_eq_dec ascii_dec (cstr a) (cstr b) then true else false.

(** [strcmp(a, b) == 0] *)
Definition strcmp0 (a b : image) : bool := streq a b.

(** [strncmp(a, b, n) == 0] *)
Definition strncmp0 (a b : image) (n : nat) : bool :=
  if list_eq_dec ascii_dec (firstn n (cstr a)) (firstn n (cstr b))
  then true else false.

(** [strrchr(s, c)] for [c] other than NUL: the offset of the last
    occurrence of [c] in the string, [None] for a NULL result. *)
Fixpoint strrchr_off (s : list ascii) (c : ascii) : option nat :=
  match s with
  | [] => None
  | x :: s' =>
      match strrchr_off s' c with
      | Some k => Some (S k)
      | None => if Ascii.eqb x c then Some O else None
      end
  end.

Definition strrchr (s : image) (c : ascii) : option nat :=
  strrchr_off (cstr s) c.

End CString.

Import CString.

(** ** Bounded copy and concatenation *)

Definition MAXPATH : Z := 1000.
Definition EXTMAX : Z := 10.
Definition MAXOUTPATH : Z := MAXPATH + EXTMAX.
Definition MAXTMPPATH : Z := MAXOUTPATH + EXTMAX.

(** [safecpy] and [safecat] return their [int] result and the
    destination buffer as it is afterwards.  The comparison is made in
    [size_t], as in C. *)
Definition safecpy (dst src : image) (dst_size : Z) : Z * image :=
  if strnlen src (size_t_of_int (dst_size + 1)) >? size_t_of_int dst_size
  then (1, dst)
  else (0, strcpy dst src).

Definition safecat (dst src : image) (dst_size : Z) : Z * image :=
  if strnlen dst (size_t_of_int (dst_size + 1))
     + strnlen src (size_t_of_int (dst_size + 1)) >? size_t_of_int dst_size
  then (1, dst)
  else (0, strcat dst src).

(** ** Path synthesis *)

Definition slash : ascii := "/"%char.

Record paths := mk_paths {
  mp_err : Z;
  mp_tmppath : image;
  mp_outpath : image
}.

(** [make_paths]: [outdir = None] is the NULL pointer.  [pathbuffer] is
    the initial (indeterminate) content of the local array of that
    name; [tmppath] and [outpath] are the caller's arrays.  An array is
    passed on as a source only after a copy into it.  If that copy was
    refused and the array holds no NUL, the C code measures the array
    with a bound larger than the array and reads the memory behind it,
    where the model reads the array as if a NUL followed its last
    byte.  So [mp_err] and the arrays are those of the C code whenever
    [mp_err] is 0 and, in a call that fails, up to the first such
    read; from there on only [mp_err <> 0] is meant, since a copy was
    refused before.  [make_paths_in_bounds] below tells whether there
    is such a read. *)
Definition make_paths (inpath : image) (outdir : option image) (ext : image)
    (pathbuffer tmppath outpath : image) : paths :=
  let err := 0 in
  let '(err, plainoutpath) :=
    match outdir with
    | None => (err, inpath)
    | Some outdir =>
        let ptr := strrchr inpath slash in
        let '(e, pathbuffer) := safecpy pathbuffer outdir MAXPATH in
        let err := err + e in
        let '(e, pathbuffer) := safecat pathbuffer (lit "/") MAXPATH in
        let err := err + e in
        let '(e, pathbuffer) :=
          match ptr with
          | None => safecat pathbuffer inpath MAXPATH
          | Some k => safecat pathbuffer (skipn (S k) inpath) MAXPATH
          end in
        let err := err + e in
        (err, pathbuffer)
    end in
  let '(e, outpath) := safecpy outpath plainoutpath MAXOUTPATH in
  let err := err + e in
  let '(e, outpath) := safecat outpath ext MAXOUTPATH in
  let err := err + e in
  let '(e, tmppath) := safecpy tmppath outpath MAXTMPPATH in
  let err := err + e in
  let '(e, tmppath) := safecat tmppath (lit ".tmp") MAXTMPPATH in
  let err := err + e in
  mk_paths err tmppath outpath.

(** ** Run configuration *)

Inductive raw_file_type_t := RAW | TIFF | DNG | PPMP3 | PPMP6 | HISTOGRAM.

Inductive x3f_color_encoding_t :=
  NONE | SRGB | ARGB | PPRGB | UNPROCESSED | QTOP.

(** The variables of the decoding library that the command line sets.
    They are defined in the library, so their initial values are a
    parameter of the run. *)
Record globals := mk_globals {
  legacy_offset : Z;
  auto_legacy_offset : Z;
  max_printed_matrix_elements : Z
}.

(** The locals of [main] that the switches set.  The [int] flags only
    ever hold 0 or 1 and are kept as booleans. *)
Record config := mk_config {
  extract_jpg : bool;
  extract_meta : bool;
  extract_raw : bool;
  crop : bool;
  denoise : bool;
  file_type : raw_file_type_t;
  color_encoding : x3f_color_encoding_t;
  log_hist : bool;
  wb : option image;
  use_opencl : bool;
  outdir : option image;
  lib : globals
}.

Definition initial_config (g : globals) : config :=
  {| extract_jpg := false; extract_meta := false; extract_raw := true;
     crop := false; denoise := false; file_type := DNG;
     color_encoding := NONE; log_hist := false; wb := None;
     use_opencl := false; outdir := None; lib := g |}.

Definition set_jpg (c : config) : config :=
  {| extract_jpg := true; extract_meta := extract_meta c; extract_raw := false;
     crop := crop c; denoise := denoise c; file_type := file_type c;
     color_encoding := color_encoding c; log_hist := log_hist c; wb := wb c;
     use_opencl := use_opencl c; outdir := outdir c; lib := lib c |}.

Definition set_meta (c : config) : config :=
  {| extract_jpg := extract_jpg c; extract_meta := true; extract_raw := false;
     crop := crop c; denoise := denoise c; file_type := file_type c;
     color_encoding := color_encoding c; log_hist := log_hist c; wb := wb c;
     use_opencl := use_opencl c; outdir := outdir c; lib := lib c |}.

Definition set_raw (t : raw_file_type_t) (c : config) : config :=
  {| extract_jpg := extract_jpg c; extract_meta := extract_meta c;
     extract_raw := true;
     crop := crop c; denoise := denoise c; file_type := t;
     color_encoding := color_encoding c; log_hist := log_hist c; wb := wb c;
     use_opencl := use_opencl c; outdir := outdir c; lib := lib c |}.

Definition set_log_hist (c : config) : config :=
  {| extract_jpg := extract_jpg c; extract_meta := extract_meta c;
     extract_raw := extract_raw c;
     crop := crop c; denoise := denoise c; file_type := file_type c;
     color_encoding := color_encoding c; log_hist := true; wb := wb c;
     use_opencl := use_opencl c; outdir := outdir c; lib := lib c |}.

Definition set_color_encoding (e : x3f_color_encoding_t) (c : config) : config :=
  {| extract_jpg := extract_jpg c; extract_meta := extract_meta c;
     extract_raw := extract_raw c;
     crop := crop c; denoise := denoise c; file_type := file_type c;
     color_encoding := e; log_hist := log_hist c; wb := wb c;
     use_opencl := use_opencl c; outdir := outdir c; lib := lib c |}.

Definition set_outdir (d : image) (c : config) : config :=
  {| extract_jpg := extract_jpg c; extract_meta := extract_meta c;
     extract_raw := extract_raw c;
     crop := crop c; denoise := denoise c; file_type := file_type c;
     color_encoding := color_encoding c; log_hist := log_hist c; wb := wb c;
     use_opencl := use_opencl c; outdir := Some d; lib := lib c |}.

Definition set_crop (c : config) : config :=
  {| extract_jpg := extract_jpg c; extract_meta := extract_meta c;
     extract_raw := extract_raw c;
     crop := true; denoise := denoise c; file_type := file_type c;
     color_encoding := color_encoding c; log_hist := log_hist c; wb := wb c;
     use_opencl := use_opencl c; outdir := outdir c; lib := lib c |}.

Definition set_denoise (c : config) : config :=
  {| extract_jpg := extract_jpg c; extract_meta := extract_meta c;
     extract_raw := extract_raw c;
     crop := crop c; denoise := true; file_type := file_type c;
     color_encoding := color_encoding c; log_hist := log_hist c; wb := wb c;
     use_opencl := use_opencl c; outdir := outdir c; lib := lib c |}.

Definition set_wb (p : image) (c : config) : config :=
  {| extract_jpg := extract_jpg c; extract_meta := extract_meta c;
     extract_raw := extract_raw c;
     crop := crop c; denoise := denoise c; file_type := file_type c;
     color_encoding := color_encoding c; log_hist := log_hist c; wb := Some p;
     use_opencl := use_opencl c; outdir := outdir c; lib := lib c |}.

Definition set_use_opencl (c : config) : config :=
  {| extract_jpg := extract_jpg c; extract_meta := extract_meta c;
     extract_raw := extract_raw c;
     crop := crop c; denoise := denoise c; file_type := file_type c;
     color_encoding := color_encoding c; log_hist := log_hist c; wb := wb c;
     use_opencl := true; outdir := outdir c; lib := lib c |}.

Definition set_lib (g : globals) (c : config) : config :=
  {| extract_jpg := extract_jpg c; extract_meta := extract_meta c;
     extract_raw := extract_raw c;
     crop := crop c; denoise := denoise c; file_type := file_type c;
     color_encoding := color_encoding c; log_hist := log_hist c; wb := wb c;
     use_opencl := use_opencl c; outdir := outdir c; lib := g |}.

(** ** [atoi] *)

Definition isspace (c : ascii) : bool :=
  let n := nat_of_ascii c in
  (Nat.eqb n 32 || (Nat.leb 9 n && Nat.leb n 13))%bool.

Definition digit_of (c : ascii) : option Z :=
  let n := Z.of_nat (nat_of_ascii c) in
  if ((48 <=? n) && (n <=? 57))%bool then Some (n - 48) else None.

Fixpoint skip_space (s : list ascii) : list ascii :=
  match s with
  | c :: s' => if isspace c then skip_space s' else s
  | [] => []
  end.

Fixpoint atoi_digits (s : list ascii) (acc : Z) : Z :=
  match s with
  | c :: s' =>
      match digit_of c with
      | Some d => atoi_digits s' (10 * acc + d)
      | None => acc
      end
  | [] => acc
  end.

(** The number a decimal string denotes: white space, an optional sign
    and the digits that follow. *)
Definition decimal_value (s : list ascii) : Z :=
  match skip_space s with
  | c :: r =>
      if Ascii.eqb c "-" then - atoi_digits r 0
      else if Ascii.eqb c "+" then atoi_digits r 0
      else atoi_digits (c :: r) 0
  | [] => 0
  end.

(** [strtol] keeps a value out of the range of [long] at the nearest
    bound (LP64: [long] has 64 bits). *)
Definition strtol (s : image) : Z :=
  Z.max (- 2 ^ 63) (Z.min (2 ^ 63 - 1) (decimal_value (cstr s))).

(** [long] to [int] conversion: the low 32 bits, in two's complement. *)
Definition int_of_long (z : Z) : Z := (z + 2 ^ 31) mod 2 ^ 32 - 2 ^ 31.

(** [atoi(s)] is [(int) strtol(s, NULL, 10)]: C leaves [atoi] undefined
    for a number out of the range of [int]; this is what the C library
    does with it, so [atoi("99999999999")] is 1215752191. *)
Definition atoi (s : image) : Z := int_of_long (strtol s).

(** ** The switch loop of [main] *)

(** One iteration of [for (i=1; i<argc; i++)] at [arg = argv[i]], with
    [rest = argv[i+1..argc-1]].  [Next cfg took] continues the loop;
    [took] says that [argv[++i]] was read as the value of the switch.
    [Usage] is the call of [usage], which exits; [Break] leaves the loop
    at the first file name. *)
Inductive step :=
  | Next (cfg : config) (took : bool)
  | Usage
  | Break.

(** [(i+1) < argc] *)
Definition has_next (rest : list image) : bool :=
  match rest with [] => false | _ :: _ => true end.

(** [argv[++i]] *)
Definition next_arg (rest : list image) : image := hd [] rest.

Definition parse_step (cfg : config) (arg : image) (rest : list image) : step :=
  if strcmp0 arg (lit "-jpg") then Next (set_jpg cfg) false
  else if strcmp0 arg (lit "-meta") then Next (set_meta cfg) false
  else if strcmp0 arg (lit "-raw") then Next (set_raw RAW cfg) false
  else if strcmp0 arg (lit "-tiff") then Next (set_raw TIFF cfg) false
  else if strcmp0 arg (lit "-dng") then Next (set_raw DNG cfg) false
  else if strcmp0 arg (lit "-ppm-ascii") then Next (set_raw PPMP3 cfg) false
  else if strcmp0 arg (lit "-ppm") then Next (set_raw PPMP6 cfg) false
  else if strcmp0 arg (lit "-histogram") then Next (set_raw HISTOGRAM cfg) false
  else if strcmp0 arg (lit "-loghist")
       then Next (set_log_hist (set_raw HISTOGRAM cfg)) false
  else if (strcmp0 arg (lit "-color") && has_next rest)%bool then
    let encoding := next_arg rest in
    if strcmp0 encoding (lit "sRGB") then Next (set_color_encoding SRGB cfg) true
    else if strcmp0 encoding (lit "AdobeRGB")
         then Next (set_color_encoding ARGB cfg) true
    else if strcmp0 encoding (lit "ProPhotoRGB")
         then Next (set_color_encoding PPRGB cfg) true
    else Usage
  else if (strcmp0 arg (lit "-o") && has_next rest)%bool
       then Next (set_outdir (next_arg rest) cfg) true
  else if strcmp0 arg (lit "-unprocessed")
       then Next (set_color_encoding UNPROCESSED cfg) false
  else if strcmp0 arg (lit "-qtop") then Next (set_color_encoding QTOP cfg) false
  else if strcmp0 arg (lit "-crop") then Next (set_crop cfg) false
  else if strcmp0 arg (lit "-denoise") then Next (set_denoise cfg) false
  else if (strcmp0 arg (lit "-wb") && has_next rest)%bool
       then Next (set_wb (next_arg rest) cfg) true
  else if strcmp0 arg (lit "-ocl") then Next (set_use_opencl cfg) false
  else if (strcmp0 arg (lit "-offset") && has_next rest)%bool
       then Next (set_lib {| legacy_offset := atoi (next_arg rest);
                             auto_legacy_offset := 0;
                             max_printed_matrix_elements :=
                               max_printed_matrix_elements (lib cfg) |} cfg)
                 true
  else if (strcmp0 arg (lit "-matrixmax") && has_next rest)%bool
       then Next (set_lib {| legacy_offset := legacy_offset (lib cfg);
                             auto_legacy_offset := auto_legacy_offset (lib cfg);
                             max_printed_matrix_elements :=
                               atoi (next_arg rest) |} cfg)
                 true
  else if strncmp0 arg (lit "-") 1 then Usage
  else Break.

(** The outcome of the loop: [usage] was called, or the loop ended with
    the configuration and the arguments from [argv[i]] on. *)
Inductive parsed :=
  | Parse_usage
  | Parsed (cfg : config) (files : list image).

Fixpoint parse_loop (cfg : config) (args : list image) : parsed :=
  match args with
  | [] => Parsed cfg []
  | arg :: rest =>
      match parse_step cfg arg rest with
      | Usage => Parse_usage
      | Break => Parsed cfg args
      | Next cfg' false => parse_loop cfg' rest
      | Next cfg' true =>
          match rest with
          | [] => Parsed cfg' []
          | _ :: rest' => parse_loop cfg' rest'
          end
      end
  end.

(** [argv[0]] is the program name; the loop starts at [argv[1]]. *)
Definition parse_args (g : globals) (argv : list image) : parsed :=
  parse_loop (initial_config g) (tl argv).

(** ** Collaborators *)

(** The directory entry handed to [x3f_load_data]. *)
Inductive entry := thumb_jpeg | prop | camf | raw.

(** The dump functions of the library, with the arguments [main] passes
    besides the handle and the file name. *)
Inductive dump_call :=
  | x3f_dump_jpeg
  | x3f_dump_meta_data
  | x3f_dump_raw_data
  | x3f_dump_raw_data_as_tiff (encoding : x3f_color_encoding_t)
      (crop denoise : bool) (wb : option image)
  | x3f_dump_raw_data_as_dng (denoise : bool) (wb : option image)
  | x3f_dump_raw_data_as_ppm (encoding : x3f_color_encoding_t)
      (crop denoise : bool) (wb : option image) (binary : bool)
  | x3f_dump_raw_data_as_histogram (encoding : x3f_color_encoding_t)
      (crop denoise : bool) (wb : option image) (log_hist : bool).

(** What the driver calls, as operations on a world [W].  A handle is
    named by the input file it belongs to.  A boolean result is [true]
    for success: a non-NULL pointer, [X3F_OK], or 0 from [rename].
    [c_stat] gives the return value of [stat] and [S_ISDIR] of the
    mode; [c_stack] gives the indeterminate bytes of the stack that the
    local arrays of [main] and [make_paths] start with. *)
Record collab (W : Type) := mk_collab {
  c_stat : list ascii -> W -> (Z * bool) * W;
  c_set_use_opencl : bool -> W -> W;
  c_fopen : list ascii -> W -> bool * W;
  c_new_from_file : list ascii -> W -> bool * W;
  c_load_data : list ascii -> entry -> W -> bool * W;
  c_load_image_block : list ascii -> W -> bool * W;
  c_dump : list ascii -> dump_call -> list ascii -> W -> bool * W;
  c_rename : list ascii -> list ascii -> W -> bool * W;
  c_delete : list ascii -> bool -> W -> W;
  c_fclose : list ascii -> W -> W;
  c_stack : W -> nat -> ascii
}.

Arguments c_stat {W}.
Arguments c_set_use_opencl {W}.
Arguments c_fopen {W}.
Arguments c_new_from_file {W}.
Arguments c_load_data {W}.
Arguments c_load_image_block {W}.
Arguments c_dump {W}.
Arguments c_rename {W}.
Arguments c_delete {W}.
Arguments c_fclose {W}.
Arguments c_stack {W}.

(** The calls of a run, in order, with their results. *)
Inductive event :=
  | Ev_check_dir (dir : list ascii) (ret : Z)
  | Ev_set_use_opencl (flag : bool)
  | Ev_fopen (infile : list ascii) (ok : bool)
  | Ev_new_from_file (infile : list ascii) (ok : bool)
  | Ev_load_data (infile : list ascii) (e : entry) (ok : bool)
  | Ev_load_image_block (infile : list ascii) (ok : bool)
  | Ev_make_paths (infile ext : list ascii) (err : Z)
  | Ev_dump (infile : list ascii) (d : dump_call) (tmp : list ascii) (ok : bool)
  | Ev_rename (tmp out : list ascii) (ok : bool)
  | Ev_delete (infile : list ascii) (loaded : bool)
  | Ev_fclose (infile : list ascii).

Definition trace := list event.

(** The events after which the source executes [errors++] (directly or
    at [found_error]).  The results of loading the thumbnail, PROP and
    CAMF entries are not tested by [main]. *)
Definition is_failure (e : event) : bool :=
  match e with
  | Ev_fopen _ ok => negb ok
  | Ev_new_from_file _ ok => negb ok
  | Ev_load_data _ raw ok => negb ok
  | Ev_load_image_block _ ok => negb ok
  | Ev_make_paths _ _ err => negb (err =? 0)
  | Ev_dump _ _ _ ok => negb ok
  | Ev_rename _ _ ok => negb ok
  | _ => false
  end.

Definition failures (t : trace) : Z := Z.of_nat (length (filter is_failure t)).

Definition is_path_failure (e : event) : bool :=
  match e with Ev_make_paths _ _ err => negb (err =? 0) | _ => false end.

(** The input files a trace opens, in order. *)
Fixpoint opened (t : trace) : list (list ascii) :=
  match t with
  | Ev_fopen f _ :: t' => f :: opened t'
  | _ :: t' => opened t'
  | [] => []
  end.

(** ** The per-file pipeline *)

(** The body of the file loop either runs to [goto clean_up] or jumps
    to [found_error]. *)
Inductive outcome (A : Type) :=
  | Ok (a : A)
  | Found_error.
Arguments Ok {A}.
Arguments Found_error {A}.

Section Driver.

Context {W : Type} (C : collab W).

(** [check_dir]; [errno] is not modelled. *)
Definition check_dir (Path : image) (w : W) : Z * W :=
  let '((ret, isdir), w') := c_stat C (cstr Path) w in
  if negb (ret =? 0) then (ret, w')
  else if negb isdir then (-1, w')
  else (0, w').

(** The variables of [main] that the file loop changes, and the world.
    [files] and [errors] are [int] in the source; the model does not
    wrap them. *)
Record state := mk_state {
  world : W;
  files : Z;
  errors : Z;
  f_in : bool;        (* f_in != NULL *)
  x3f : bool          (* x3f != NULL *)
}.

Definition M (A : Type) : Type := state -> outcome A * trace * state.

Definition ret {A} (a : A) : M A := fun s => (Ok a, [], s).

Definition bind {A B} (m : M A) (f : A -> M B) : M B :=
  fun s =>
    match m s with
    | (Ok a, t, s') => let '(o, t', s'') := f a s' in (o, t ++ t', s'')
    | (Found_error, t, s') => (Found_error, t, s')
    end.

Notation "x <- m ;; k" := (bind m (fun x => k))
  (at level 61, m at next level, right associativity).
Notation "m ;;; k" := (bind m (fun _ => k))
  (at level 61, right associativity).

Definition with_world (s : state) (w : W) : state :=
  mk_state w (files s) (errors s) (f_in s) (x3f s).

(** A call whose failure is followed by [goto found_error]. *)
Definition call_goto (op : W -> bool * W) (ev : bool -> event) : M unit :=
  fun s =>
    let '(r, w') := op (world s) in
    (if r then Ok tt else Found_error, [ev r], with_world s w').

(** A call whose failure is followed by [errors++]; the result decides
    what comes next. *)
Definition call_count (op : W -> bool * W) (ev : bool -> event) : M bool :=
  fun s =>
    let '(r, w') := op (world s) in
    (Ok r, [ev r],
     mk_state w' (files s) (if r then errors s else errors s + 1)
              (f_in s) (x3f s)).

(** A call whose result [main] does not look at. *)
Definition call_ignore (op : W -> bool * W) (ev : bool -> event) : M unit :=
  fun s =>
    let '(r, w') := op (world s) in (Ok tt, [ev r], with_world s w').

(** [f_in = fopen(infilename, "rb")] and the test of [f_in]. *)
Definition open_infile (infilename : image) : M unit :=
  fun s =>
    let '(r, w') := c_fopen C (cstr infilename) (world s) in
    (if r then Ok tt else Found_error, [Ev_fopen (cstr infilename) r],
     mk_state w' (files s) (errors s) r (x3f s)).

(** [x3f = x3f_new_from_file(f_in)] and the test of [x3f]. *)
Definition new_from_file (infilename : image) : M unit :=
  fun s =>
    let '(r, w') := c_new_from_file C (cstr infilename) (world s) in
    (if r then Ok tt else Found_error, [Ev_new_from_file (cstr infilename) r],
     mk_state w' (files s) (errors s) (f_in s) r).

(** A local array of [n] bytes, with whatever the stack holds. *)
Definition alloca (w : W) (base n : nat) : image :=
  map (c_stack C w) (seq base n).

(** [make_paths(infilename, outdir, ext, tmpfilename, outfilename)] on
    fresh [tmpfilename] and [outfilename] arrays. *)
Definition fresh_paths (cfg : config) (infilename ext : image) (w : W)
    : paths :=
  make_paths infilename (outdir cfg) ext
    (alloca w 0 (Z.to_nat (MAXPATH + 1)))
    (alloca w 2000 (Z.to_nat (MAXTMPPATH + 1)))
    (alloca w 4000 (Z.to_nat (MAXOUTPATH + 1))).

(** [if (make_paths(...)) { ...; goto found_error; }] *)
Definition synth_paths (cfg : config) (infilename ext : image) : M paths :=
  fun s =>
    let p := fresh_paths cfg infilename ext (world s) in
    let ev := Ev_make_paths (cstr infilename) (cstr ext) (mp_err p) in
    if negb (mp_err p =? 0) then (Found_error, [ev], s) else (Ok p, [ev], s).

(** The dump call, the test of its result, and the rename that
    publishes the temporary file; the source has the test and the
    rename once per kind of output. *)
Definition dump_and_publish (infilename : image) (d : dump_call) (p : paths)
    : M unit :=
  r <- call_count (c_dump C (cstr infilename) d (cstr (mp_tmppath p)))
                  (Ev_dump (cstr infilename) d (cstr (mp_tmppath p)));;
  if r
  then _ <- call_count
              (c_rename C (cstr (mp_tmppath p)) (cstr (mp_outpath p)))
              (Ev_rename (cstr (mp_tmppath p)) (cstr (mp_outpath p)));;
       ret tt
  else ret tt.

Definition load_data (infilename : image) (e : entry) : M unit :=
  call_ignore (c_load_data C (cstr infilename) e)
              (Ev_load_data (cstr infilename) e).

(** The load of the RAW entry: undecoded for [-raw], decoded for the
    other kinds. *)
Definition load_raw (cfg : config) (infilename : image) : M unit :=
  match file_type cfg with
  | RAW => call_goto (c_load_image_block C (cstr infilename))
                     (Ev_load_image_block (cstr infilename))
  | _ => call_goto (c_load_data C (cstr infilename) raw)
                   (Ev_load_data (cstr infilename) raw)
  end.

(** The extension and the dump call of each case of
    [switch (file_type)]. *)
Definition raw_ext (t : raw_file_type_t) : image :=
  match t with
  | RAW => lit ".raw"
  | TIFF => lit ".tif"
  | DNG => lit ".dng"
  | PPMP3 | PPMP6 => lit ".ppm"
  | HISTOGRAM => lit ".csv"
  end.

Definition raw_dump (cfg : config) : dump_call :=
  match file_type cfg with
  | RAW => x3f_dump_raw_data
  | TIFF => x3f_dump_raw_data_as_tiff (color_encoding cfg) (crop cfg)
              (denoise cfg) (wb cfg)
  | DNG => x3f_dump_raw_data_as_dng (denoise cfg) (wb cfg)
  | PPMP3 => x3f_dump_raw_data_as_ppm (color_encoding cfg) (crop cfg)
               (denoise cfg) (wb cfg) false
  | PPMP6 => x3f_dump_raw_data_as_ppm (color_encoding cfg) (crop cfg)
               (denoise cfg) (wb cfg) true
  | HISTOGRAM => x3f_dump_raw_data_as_histogram (color_encoding cfg)
                   (crop cfg) (denoise cfg) (wb cfg) (log_hist cfg)
  end.

(** [if (extract_jpg) { ... }] *)
Definition jpg_block (cfg : config) (infilename : image) : M unit :=
  load_data infilename thumb_jpeg;;;
  p <- synth_paths cfg infilename (lit ".jpg");;
  dump_and_publish infilename x3f_dump_jpeg p.

(** [if (extract_meta) { ... }] *)
Definition meta_block (cfg : config) (infilename : image) : M unit :=
  p <- synth_paths cfg infilename (lit ".meta");;
  dump_and_publish infilename x3f_dump_meta_data p.

(** [if (extract_raw) { ... }] *)
Definition raw_block (cfg : config) (infilename : image) : M unit :=
  load_raw cfg infilename;;;
  p <- synth_paths cfg infilename (raw_ext (file_type cfg));;
  dump_and_publish infilename (raw_dump cfg) p.

(** The loop body from [fopen] to [goto clean_up]. *)
Definition extract (cfg : config) (infilename : image) : M unit :=
  open_infile infilename;;;
  new_from_file infilename;;;
  (if extract_jpg cfg then jpg_block cfg infilename else ret tt);;;
  (if (extract_meta cfg || extract_raw cfg)%bool
   then load_data infilename prop;;; load_data infilename camf
   else ret tt);;;
  (if extract_meta cfg then meta_block cfg infilename else ret tt);;;
  (if extract_raw cfg then raw_block cfg infilename else ret tt).

(** [found_error:] and [clean_up:] *)
Definition clean_up (infilename : image) (s : state) : trace * state :=
  let w := c_delete C (cstr infilename) (x3f s) (world s) in
  let t := [Ev_delete (cstr infilename) (x3f s)] in
  if f_in s
  then (t ++ [Ev_fclose (cstr infilename)],
        mk_state (c_fclose C (cstr infilename) w)
                 (files s) (errors s) (f_in s) (x3f s))
  else (t, mk_state w (files s) (errors s) (f_in s) (x3f s)).

(** One iteration of the file loop. *)
Definition process_file (cfg : config) (infilename : image) (s : state)
    : trace * state :=
  let s := mk_state (world s) (files s + 1) (errors s) false false in
  let '(o, t, s) := extract cfg infilename s in
  let s := match o with
           | Found_error =>
               mk_state (world s) (files s) (errors s + 1) (f_in s) (x3f s)
           | Ok _ => s
           end in
  let '(t', s) := clean_up infilename s in
  (t ++ t', s).

(** [for (; i<argc; i++)] *)
Fixpoint run_files (cfg : config) (infiles : list image) (s : state)
    : trace * state :=
  match infiles with
  | [] => ([], s)
  | infilename :: rest =>
      let '(t, s) := process_file cfg infilename s in
      let '(t', s) := run_files cfg rest s in
      (t ++ t', s)
  end.

(** ** [main] *)

(** How the process ends: through [usage], which prints the usage text
    and calls [exit(1)], or by returning from [main]. *)
Inductive result :=
  | Exit_usage (t : trace) (w : W)
  | Exit_return (status : Z) (nfiles nerrors : Z) (t : trace) (w : W).

Definition exit_status (r : result) : Z :=
  match r with
  | Exit_usage _ _ => 1
  | Exit_return status _ _ _ _ => status
  end.

Definition trace_of (r : result) : trace :=
  match r with
  | Exit_usage t _ => t
  | Exit_return _ _ _ t _ => t
  end.

Definition main (argv : list image) (g : globals) (w : W) : result :=
  match parse_args g argv with
  | Parse_usage => Exit_usage [] w
  | Parsed cfg infiles =>
      let '(bad_dir, t0, w) :=
        match outdir cfg with
        | None => (false, [], w)
        | Some d =>
            let '(r, w') := check_dir d w in
            (negb (r =? 0), [Ev_check_dir (cstr d) r], w')
        end in
      if bad_dir then Exit_usage t0 w
      else
        let w := c_set_use_opencl C (use_opencl cfg) w in
        let t1 := [Ev_set_use_opencl (use_opencl cfg)] in
        let '(t, s) := run_files cfg infiles (mk_state w 0 0 false false) in
        if files s =? 0 then Exit_usage (t0 ++ t1 ++ t) (world s)
        else Exit_return (if errors s >? 0 then 1 else 0)
                         (files s) (errors s) (t0 ++ t1 ++ t) (world s)
  end.

End Driver.

(** ** A simulated world *)

(** A world for running the driver on concrete inputs: it keeps the
    list of published files (the targets of the successful renames).
    [missing] are the input files that cannot be opened, [dirs] the
    existing directories, [dump_ok] tells which dump calls succeed;
    every other call succeeds.  The stack holds the letter x. *)
Module Sim.

Definition mem (x : list ascii) (l : list (list ascii)) : bool :=
  existsb (fun y => if list_eq_dec ascii_dec x y then true else false) l.

Definition world := list (list ascii).

Definition collab (missing dirs : list (list ascii))
    (dump_ok : dump_call -> bool) : collab world :=
  {| c_stat := fun d w => (if mem d dirs then (0, true) else (-1, false), w);
     c_set_use_opencl := fun _ w => w;
     c_fopen := fun f w => (negb (mem f missing), w);
     c_new_from_file := fun _ w => (true, w);
     c_load_data := fun _ _ w => (true, w);
     c_load_image_block := fun _ w => (true, w);
     c_dump := fun _ d _ w => (dump_ok d, w);
     c_rename := fun _ out w => (true, w ++ [out]);
     c_delete := fun _ _ w => w;
     c_fclose := fun _ w => w;
     c_stack := fun _ _ => "x"%char |}.

Definition g0 : globals :=
  {| legacy_offset := 0; auto_legacy_offset := 1;
     max_printed_matrix_elements := 100 |}.

Definition all_ok (d : dump_call) : bool := true.

Definition jpeg_fails (d : dump_call) : bool :=
  match d with x3f_dump_jpeg => false | _ => true end.

End Sim.

(** ** What the claims speak of *)

(** [base] is the part of [path] after its last slash, or all of
    [path] when it has none. *)
Definition basename_of (path base : list ascii) : Prop :=
  (~ In slash path /\ base = path) \/
  (exists dir, path = dir ++ slash :: base /\ ~ In slash base).

(** The failures after which the source jumps to [found_error]; the
    other failures (of a dump or of a rename) are counted in place. *)
Definition is_jump (e : event) : bool :=
  match e with
  | Ev_fopen _ ok => negb ok
  | Ev_new_from_file _ ok => negb ok
  | Ev_load_data _ raw ok => negb ok
  | Ev_load_image_block _ ok => negb ok
  | Ev_make_paths _ _ err => negb (err =? 0)
  | _ => false
  end.

Definition is_cleanup (e : event) : bool :=
  match e with
  | Ev_delete _ _ | Ev_fclose _ => true
  | _ => false
  end.

Definition is_check_dir (e : event) : bool :=
  match e with Ev_check_dir _ _ => true | _ => false end.

(** The events before the file loop. *)
Definition is_setup (e : event) : bool :=
  match e with
  | Ev_check_dir _ _ | Ev_set_use_opencl _ => true
  | _ => false
  end.

Definition jump_free (t : trace) : Prop :=
  forallb (fun e => negb (is_jump e)) t = true.

(** One more error is counted at [found_error]. *)
Definition pending {A} (o : outcome A) : Z :=
  match o with
  | Found_error => 1
  | Ok _ => 0
  end.

(** A part of the loop body that jumps to [found_error] does so right
    after the failure that causes the jump, and only then. *)
Definition shape {A} (o : outcome A) (t : trace) : Prop :=
  match o with
  | Ok _ => jump_free t
  | Found_error =>
      exists pre e, t = pre ++ [e] /\ is_jump e = true /\ jump_free pre
  end.

(** What holds of every part of the loop body: the file count is not
    touched, each failure is counted once, and jumps have the shape
    above. *)
Definition inv {W A} (m : @M W A) : Prop :=
  forall s o t s',
    m s = (o, t, s') ->
    files s' = files s
    /\ errors s' + pending o = errors s + failures t
    /\ shape o t.

(** All events of a part of the loop body satisfy [P]. *)
Definition emits {W A} (P : event -> bool) (m : @M W A) : Prop :=
  forall s o t s', m s = (o, t, s') -> forallb P t = true.

(** The events of the loop body after the [fopen]. *)
Definition is_inner (e : event) : bool :=
  match e with
  | Ev_check_dir _ _ | Ev_set_use_opencl _ | Ev_fopen _ _ => false
  | _ => true
  end.

(** The output path without its extension, for an input path with base
    name [base]. *)
Definition plain_path (cfg : config) (infile : image) (base : list ascii)
    : list ascii :=
  match outdir cfg with
  | None => cstr infile
  | Some d => cstr d ++ slash :: base
  end.

(** The paths of an input file stay within the bounds for extensions of
    [extlen] characters. *)
Definition fits (cfg : config) (infile : image) (base : list ascii)
    (extlen : Z) : Prop :=
  match outdir cfg with
  | None => strlen infile + extlen <= MAXOUTPATH
  | Some d =>
      basename_of (cstr infile) base
      /\ strlen d + 1 + Z.of_nat (length base) <= MAXPATH
      /\ strlen d + 1 + Z.of_nat (length base) + extlen <= MAXOUTPATH
  end.

(** Assumptions on the collaborators, uniform in the world: the input
    file can be opened and its header parsed; the RAW entry loads; a
    dump call, or a rename, always has the result [r]. *)
Definition readable {W} (C : collab W) (infile : image) : Prop :=
  (forall w, fst (c_fopen C (cstr infile) w) = true)
  /\ (forall w, fst (c_new_from_file C (cstr infile) w) = true).

Definition raw_loads {W} (C : collab W) (cfg : config) (infile : image)
    : Prop :=
  match file_type cfg with
  | RAW => forall w, fst (c_load_image_block C (cstr infile) w) = true
  | _ => forall w, fst (c_load_data C (cstr infile) raw w) = true
  end.

Definition dumps {W} (C : collab W) (infile : image) (d : dump_call)
    (tmp : list ascii) (r : bool) : Prop :=
  forall w, fst (c_dump C (cstr infile) d tmp w) = r.

Definition renames {W} (C : collab W) (tmp out : list ascii) (r : bool)
    : Prop :=
  forall w, fst (c_rename C tmp out w) = r.

(** The path of the output with extension [ext], and its temporary
    path. *)
Definition out_path (cfg : config) (infile : image) (base : list ascii)
    (ext : image) : list ascii :=
  plain_path cfg infile base ++ ext.

Definition tmp_path (cfg : config) (infile : image) (base : list ascii)
    (ext : image) : list ascii :=
  out_path cfg infile base ext ++ lit ".tmp".

(** The dump call of an output always has the result [r], and the
    rename that follows a successful dump succeeds. *)
Definition output_goes {W} (C : collab W) (cfg : config) (infile : image)
    (base : list ascii) (ext : image) (d : dump_call) (r : bool) : Prop :=
  dumps C infile d (tmp_path cfg infile base ext) r
  /\ (r = true ->
      renames C (tmp_path cfg infile base ext) (out_path cfg infile base ext)
        true).

(** The events of one output whose paths fit: the path synthesis, the
    dump with result [r], and the rename if the dump succeeded. *)
Definition output_events (cfg : config) (infile : image) (base : list ascii)
    (ext : image) (d : dump_call) (r : bool) : trace :=
  Ev_make_paths (cstr infile) ext 0
  :: Ev_dump (cstr infile) d (tmp_path cfg infile base ext) r
  :: (if r
      then [Ev_rename (tmp_path cfg infile base ext)
              (out_path cfg infile base ext) true]
      else []).

(** The state after a part of the loop body that counted [n] errors. *)
Definition after {W} (s s' : @state W) (n : Z) : Prop :=
  files s' = files s /\ errors s' = errors s + n
  /\ f_in s' = f_in s /\ x3f s' = x3f s.

(** The event of a successful load of the RAW entry. *)
Definition raw_loaded (cfg : config) (infile : image) : event :=
  match file_type cfg with
  | RAW => Ev_load_image_block (cstr infile) true
  | _ => Ev_load_data (cstr infile) raw true
  end.

(** The trace of a file that opens, parses and loads its RAW entry and
    whose paths fit, with RAW requested: [rj], [rm] and [rr] are the
    results of the three dump calls, [l1], [l2] and [l3] those of the
    loads that [main] does not test. *)
Definition run_trace (cfg : config) (infile : image) (base : list ascii)
    (rj rm rr l1 l2 l3 : bool) : trace :=
  [Ev_fopen (cstr infile) true; Ev_new_from_file (cstr infile) true]
  ++ (if extract_jpg cfg
      then Ev_load_data (cstr infile) thumb_jpeg l1
           :: output_events cfg infile base (lit ".jpg") x3f_dump_jpeg rj
      else [])
  ++ [Ev_load_data (cstr infile) prop l2; Ev_load_data (cstr infile) camf l3]
  ++ (if extract_meta cfg
      then output_events cfg infile base (lit ".meta") x3f_dump_meta_data rm
      else [])
  ++ raw_loaded cfg infile
  :: output_events cfg infile base (raw_ext (file_type cfg)) (raw_dump cfg) rr
  ++ [Ev_delete (cstr infile) true; Ev_fclose (cstr infile)].

(** The errors an output adds: one if it is requested and its dump
    fails. *)
Definition cost (requested r : bool) : Z :=
  if requested then if r then 0 else 1 else 0.

(** An input file that the default run (no switch: DNG next to the
    input file) processes without failure. *)
Definition processable {W} (C : collab W) (infile : image) : Prop :=
  strlen infile + 4 <= MAXOUTPATH
  /\ readable C infile
  /\ (forall w, fst (c_load_data C (cstr infile) raw w) = true)
  /\ dumps C infile (x3f_dump_raw_data_as_dng false None)
       ((cstr infile ++ lit ".dng") ++ lit ".tmp") true
  /\ renames C ((cstr infile ++ lit ".dng") ++ lit ".tmp")
       (cstr infile ++ lit ".dng") true.

(** The load of the RAW entry, with which the RAW output starts. *)
Definition is_raw_attempt (e : event) : bool :=
  match e with
  | Ev_load_data _ raw _ => true
  | Ev_load_image_block _ _ => true
  | _ => false
  end.

(** "A path that is too long costs only the output it belongs to": if
    the path synthesis of some output of the file fails and the RAW
    output is requested, the RAW output is still attempted. *)
Definition path_failure_is_local {W} (C : collab W) (cfg : config)
    (infile : image) (s : state) : Prop :=
  let t := fst (process_file C cfg infile s) in
  (exists e, In e t /\ is_path_failure e = true) ->
  extract_raw cfg = true ->
  exists e, In e t /\ is_raw_attempt e = true.

(** The run of [x3f_extract -meta -dng d/d/.../d/f.x3] on a path of 1006
    characters (501 directories), in a world where every call
    succeeds. *)
Definition long_name : image := concat (repeat (lit "d/") 501) ++ lit "f.x3".

Definition meta_and_dng : config :=
  set_raw DNG (set_meta (initial_config Sim.g0)).

(** The switches that select what is extracted, and the RAW kinds. *)
Definition extraction_switches : list image :=
  [lit "-jpg"; lit "-meta"; lit "-raw"; lit "-tiff"; lit "-dng";
   lit "-ppm-ascii"; lit "-ppm"; lit "-histogram"; lit "-loghist"].




Definition is_dump (e : event) : bool :=
  match e with Ev_dump _ _ _ _ => true | _ => false end.

(** The switches that take a value, the switches that take none, and
    the names [-color] accepts. *)
Definition value_switches : list image :=
  [lit "-color"; lit "-o"; lit "-wb"; lit "-offset"; lit "-matrixmax"].

Definition plain_switches : list image :=
  extraction_switches
  ++ [lit "-unprocessed"; lit "-qtop"; lit "-crop"; lit "-denoise";
      lit "-ocl"].

Definition color_names : list image :=
  [lit "sRGB"; lit "AdobeRGB"; lit "ProPhotoRGB"].

(** No flag that is on in [cfg] is off in [cfg']. *)
Definition only_turns_on (cfg cfg' : config) : Prop :=
  (extract_jpg cfg = true -> extract_jpg cfg' = true)
  /\ (extract_meta cfg = true -> extract_meta cfg' = true)
  /\ (crop cfg = true -> crop cfg' = true)
  /\ (denoise cfg = true -> denoise cfg' = true)
  /\ (use_opencl cfg = true -> use_opencl cfg' = true)
  /\ (log_hist cfg = true -> log_hist cfg' = true).

(** A part of the loop body leaves the two handles of the file as they
    are. *)
Definition keeps_handles {W A} (m : @M W A) : Prop :=
  forall s o t s', m s = (o, t, s') -> f_in s' = f_in s /\ x3f s' = x3f s.

(** The events between the parsing of the header and the clean-up. *)
Definition is_work (e : event) : bool :=
  match e with
  | Ev_load_data _ _ _ | Ev_load_image_block _ _ | Ev_make_paths _ _ _
  | Ev_dump _ _ _ _ | Ev_rename _ _ _ => true
  | _ => false
  end.

(** All traces of a part of the loop body satisfy [Q]. *)
Definition traces {W A} (Q : trace -> Prop) (m : @M W A) : Prop :=
  forall s o t s', m s = (o, t, s') -> Q t.

(** Every rename of the trace renames [out ++ ".tmp"] to [out] and
    comes right after a successful dump to that temporary path. *)
Definition publishes_only_dumped (t : trace) : Prop :=
  forall pre tmp out r post,
    t = pre ++ Ev_rename tmp out r :: post ->
    tmp = out ++ lit ".tmp"
    /\ exists pre' f d, pre = pre' ++ [Ev_dump f d tmp true].

Definition is_rename (e : event) : bool :=
  match e with Ev_rename _ _ _ => true | _ => false end.

(** The loads, path syntheses and dumps that the configuration asks
    for. *)
Definition wanted (cfg : config) (e : event) : Prop :=
  match e with
  | Ev_load_data _ thumb_jpeg _ => extract_jpg cfg = true
  | Ev_load_data _ raw _ => extract_raw cfg = true /\ file_type cfg <> RAW
  | Ev_load_data _ _ _ => extract_meta cfg = true \/ extract_raw cfg = true
  | Ev_load_image_block _ _ => extract_raw cfg = true /\ file_type cfg = RAW
  | Ev_make_paths _ ext _ =>
      (extract_jpg cfg = true /\ ext = lit ".jpg")
      \/ (extract_meta cfg = true /\ ext = lit ".meta")
      \/ (extract_raw cfg = true /\ ext = raw_ext (file_type cfg))
  | Ev_dump _ d _ _ =>
      (extract_jpg cfg = true /\ d = x3f_dump_jpeg)
      \/ (extract_meta cfg = true /\ d = x3f_dump_meta_data)
      \/ (extract_raw cfg = true /\ d = raw_dump cfg)
  | _ => True
  end.

(** The error counter never goes down; a part of the loop body that
    ends normally has added at most [a] to it, and one that jumps to
    [found_error] has added less than [b]. *)
Definition costs {W A} (a b : Z) (m : @M W A) : Prop :=
  forall s o t s',
    m s = (o, t, s') ->
    errors s <= errors s'
    /\ match o with
       | Ok _ => errors s' <= errors s + a
       | Found_error => errors s' + 1 <= errors s + b
       end.

(** How many kinds of output the configuration asks for. *)
Definition requested (cfg : config) : Z :=
  Z.b2z (extract_jpg cfg) + Z.b2z (extract_meta cfg)
  + Z.b2z (extract_raw cfg).

(** ** The reads of [make_paths]

    [strnlen(a, maxlen)] looks at the bytes of [a] up to its first NUL
    and at no more than [maxlen] of them.  On an array it stays inside
    the array when the array holds a NUL or has at least [maxlen]
    bytes. *)
Definition reads_within (a : image) (maxlen : Z) : bool :=
  ((strlen a <? Z.of_nat (length a)) || (maxlen <=? Z.of_nat (length a)))%bool.

(** [make_paths] once more, keeping for each length test made on one of
    the arrays [pathbuffer], [outpath] and [tmppath] whether it stays
    inside the array: the destination of each [safecat] is measured
    with the bound of its own size, [pathbuffer] is measured with
    [MAXOUTPATH + 1] as the source of the copy into [outpath], and
    [outpath] with [MAXTMPPATH + 1] as the source of the copy into
    [tmppath].  [inpath], [outdir], [ext] and the literals are
    strings.  As long as the result is [true] the arrays hold what
    [make_paths] gives for them; from the first read that leaves its
    array on, the C code depends on the memory behind the array. *)
Definition make_paths_in_bounds (inpath : image) (outdir : option image)
    (ext : image) (pathbuffer tmppath outpath : image) : bool :=
  let '(ok, plainoutpath) :=
    match outdir with
    | None => (true, inpath)
    | Some outdir =>
        let ptr := strrchr inpath slash in
        let '(_, pathbuffer) := safecpy pathbuffer outdir MAXPATH in
        let ok := reads_within pathbuffer (MAXPATH + 1) in
        let '(_, pathbuffer) := safecat pathbuffer (lit "/") MAXPATH in
        let ok := (ok && reads_within pathbuffer (MAXPATH + 1))%bool in
        let '(_, pathbuffer) :=
          match ptr with
          | None => safecat pathbuffer inpath MAXPATH
          | Some k => safecat pathbuffer (skipn (S k) inpath) MAXPATH
          end in
        ((ok && reads_within pathbuffer (MAXOUTPATH + 1))%bool, pathbuffer)
    end in
  let '(_, outpath) := safecpy outpath plainoutpath MAXOUTPATH in
  let ok := (ok && reads_within outpath (MAXOUTPATH + 1))%bool in
  let '(_, outpath) := safecat outpath ext MAXOUTPATH in
  let ok := (ok && reads_within outpath (MAXTMPPATH + 1))%bool in
  let '(_, tmppath) := safecpy tmppath outpath MAXTMPPATH in
  (ok && reads_within tmppath (MAXTMPPATH + 1))%bool.

(** * Properties *)

(** ** Strings *)

Lemma cstr_nul_free (s : image) : Forall (fun c => is_nul c = false) (cstr s).
Proof.
  induction s as [|c s IH]; simpl; [constructor|].
  destruct (is_nul c) eqn:E; constructor; assumption.
Qed.

Lemma cstr_app (a b : list ascii) :
  Forall (fun c => is_nul c = false) a -> cstr (a ++ b) = a ++ cstr b.
Proof.
  induction 1 as [|c a Hc _ IH]; simpl; [reflexivity|].
  rewrite Hc, IH. reflexivity.
Qed.

Lemma cstr_cstr_app (s b : image) : cstr (cstr s ++ b) = cstr s ++ cstr b.
Proof. apply cstr_app, cstr_nul_free. Qed.

Lemma firstn_cstr (s : image) : firstn (length (cstr s)) s = cstr s.
Proof.
  induction s as [|c s IH]; simpl; [reflexivity|].
  destruct (is_nul c); simpl; [reflexivity|]. now rewrite IH.
Qed.

Lemma cstr_skipn (k : nat) (s : image) :
  (k <= length (cstr s))%nat -> cstr (skipn k s) = skipn k (cstr s).
Proof.
  revert s. induction k as [|k IH]; intros s Hk; [reflexivity|].
  destruct s as [|c s]; simpl in *; [reflexivity|].
  destruct (is_nul c); simpl in *; [lia|]. apply IH. lia.
Qed.

Lemma strlen_nonneg (s : image) : 0 <= strlen s.
Proof. unfold strlen. lia. Qed.

Lemma mem_write_length (b : image) (off : nat) (data : list ascii) :
  (off + length data <= length b)%nat ->
  length (mem_write b off data) = length b.
Proof.
  intros H. unfold mem_write.
  rewrite !length_app, length_firstn, length_skipn. lia.
Qed.

Lemma strcpy_cstr (dst src : image) : cstr (strcpy dst src) = cstr src.
Proof.
  unfold strcpy, mem_write. simpl firstn. simpl app at 1.
  rewrite <- app_assoc, cstr_cstr_app. simpl. apply app_nil_r.
Qed.

Lemma strcpy_length (dst src : image) :
  (length (cstr src) < length dst)%nat ->
  length (strcpy dst src) = length dst.
Proof.
  intros H. apply mem_write_length. rewrite length_app. simpl. lia.
Qed.

Lemma strcat_cstr (dst src : image) :
  cstr (strcat dst src) = cstr dst ++ cstr src.
Proof.
  unfold strcat, mem_write.
  rewrite firstn_cstr, <- app_assoc, !cstr_cstr_app. simpl.
  now rewrite app_nil_r.
Qed.

Lemma strcat_length (dst src : image) :
  (length (cstr dst) + length (cstr src) < length dst)%nat ->
  length (strcat dst src) = length dst.
Proof.
  intros H. apply mem_write_length. rewrite length_app. simpl. lia.
Qed.

Lemma size_t_of_int_small (z : Z) :
  0 <= z <= INT_MAX -> size_t_of_int z = z.
Proof.
  intros H. unfold size_t_of_int. apply Z.mod_small.
  unfold INT_MAX in H. lia.
Qed.

(** ** [safecpy] and [safecat] *)

Lemma safecpy_fits (dst src : image) (n : Z) :
  0 <= n < INT_MAX -> strlen src <= n ->
  safecpy dst src n = (0, strcpy dst src).
Proof.
  intros Hn Hl. unfold safecpy, strnlen.
  rewrite !size_t_of_int_small by lia.
  destruct (Z.gtb_spec (Z.min (strlen src) (n + 1)) n); [lia|reflexivity].
Qed.

Lemma safecpy_too_long (dst src : image) (n : Z) :
  0 <= n < INT_MAX -> n < strlen src ->
  safecpy dst src n = (1, dst).
Proof.
  intros Hn Hl. unfold safecpy, strnlen.
  rewrite !size_t_of_int_small by lia.
  destruct (Z.gtb_spec (Z.min (strlen src) (n + 1)) n); [reflexivity|lia].
Qed.

Lemma safecat_fits (dst src : image) (n : Z) :
  0 <= n < INT_MAX -> strlen dst + strlen src <= n ->
  safecat dst src n = (0, strcat dst src).
Proof.
  intros Hn Hl. unfold safecat, strnlen.
  pose proof (strlen_nonneg dst). pose proof (strlen_nonneg src).
  rewrite !size_t_of_int_small by lia.
  destruct (Z.gtb_spec (Z.min (strlen dst) (n + 1)
                        + Z.min (strlen src) (n + 1)) n); [lia|reflexivity].
Qed.

Lemma safecat_too_long (dst src : image) (n : Z) :
  0 <= n < INT_MAX -> n < strlen dst + strlen src ->
  safecat dst src n = (1, dst).
Proof.
  intros Hn Hl. unfold safecat, strnlen.
  pose proof (strlen_nonneg dst). pose proof (strlen_nonneg src).
  rewrite !size_t_of_int_small by lia.
  destruct (Z.gtb_spec (Z.min (strlen dst) (n + 1)
                        + Z.min (strlen src) (n + 1)) n); [reflexivity|lia].
Qed.

Lemma strlen_strcpy (dst src : image) : strlen (strcpy dst src) = strlen src.
Proof. unfold strlen. now rewrite strcpy_cstr. Qed.

Lemma strlen_strcat (dst src : image) :
  strlen (strcat dst src) = strlen dst + strlen src.
Proof. unfold strlen. rewrite strcat_cstr, length_app. lia. Qed.

(** C3: a source as long as the capacity is copied whole, a longer one
    is refused and the destination keeps its bytes. *)
Theorem safecpy_at_capacity (dst src : image) (dst_size : Z) :
  0 <= dst_size < INT_MAX ->
  Z.of_nat (length dst) = dst_size + 1 ->
  (strlen src = dst_size ->
     exists dst', safecpy dst src dst_size = (0, dst')
               /\ cstr dst' = cstr src
               /\ length dst' = length dst)
  /\ (dst_size + 1 <= strlen src -> safecpy dst src dst_size = (1, dst)).
Proof.
  intros Hn Hcap. split.
  - intros Hl. exists (strcpy dst src). split; [|split].
    + apply safecpy_fits; lia.
    + apply strcpy_cstr.
    + apply strcpy_length. unfold strlen in Hl. lia.
  - intros Hl. apply safecpy_too_long; lia.
Qed.

Lemma safecpy_at_capacity_witness :
  (0 <= 3 < INT_MAX
   /\ Z.of_nat (length (repeat "x"%char 4)) = 3 + 1
   /\ strlen (lit "abc") = 3
   /\ exists dst', safecpy (repeat "x"%char 4) (lit "abc") 3 = (0, dst')
                /\ cstr dst' = cstr (lit "abc")
                /\ length dst' = length (repeat "x"%char 4))
  /\ (3 + 1 <= strlen (lit "abcd")
      /\ safecpy (repeat "x"%char 4) (lit "abcd") 3 = (1, repeat "x"%char 4)).
Proof.
  assert (Hn : 0 <= 3 < INT_MAX) by (unfold INT_MAX; lia).
  assert (Hc : Z.of_nat (length (repeat "x"%char 4)) = 3 + 1) by reflexivity.
  assert (H3 : strlen (lit "abc") = 3) by reflexivity.
  assert (H4 : 3 + 1 <= strlen (lit "abcd")) by (vm_compute; discriminate).
  split.
  - split; [exact Hn|]. split; [exact Hc|]. split; [exact H3|].
    exact (proj1 (safecpy_at_capacity (repeat "x"%char 4) (lit "abc") 3 Hn Hc)
                 H3).
  - split; [exact H4|].
    exact (proj2 (safecpy_at_capacity (repeat "x"%char 4) (lit "abcd") 3 Hn Hc)
                 H4).
Defined.

(** C9: [safecat] (and [safecpy]) on a buffer of [dst_size + 1] bytes
    either refuse and leave the buffer as it is, or succeed with a
    string of at most [dst_size] characters, the buffer keeping its
    size: no byte behind it is written. *)
Theorem safecat_within_buffer (dst src : image) (dst_size : Z) :
  0 <= dst_size < INT_MAX ->
  Z.of_nat (length dst) = dst_size + 1 ->
  (safecat dst src dst_size = (1, dst)
   \/ exists dst', safecat dst src dst_size = (0, dst')
                /\ length dst' = length dst
                /\ cstr dst' = cstr dst ++ cstr src
                /\ strlen dst' = strlen dst + strlen src
                /\ strlen dst' <= dst_size)
  /\ (safecpy dst src dst_size = (1, dst)
      \/ exists dst', safecpy dst src dst_size = (0, dst')
                   /\ length dst' = length dst
                   /\ cstr dst' = cstr src
                   /\ strlen dst' <= dst_size).
Proof.
  intros Hn Hcap. split.
  - destruct (Z_lt_le_dec dst_size (strlen dst + strlen src)) as [Hl|Hl].
    + left. apply safecat_too_long; assumption.
    + right. exists (strcat dst src). repeat split.
      * apply safecat_fits; assumption.
      * apply strcat_length. unfold strlen in Hl. lia.
      * apply strcat_cstr.
      * apply strlen_strcat.
      * rewrite strlen_strcat. assumption.
  - destruct (Z_lt_le_dec dst_size (strlen src)) as [Hl|Hl].
    + left. apply safecpy_too_long; assumption.
    + right. exists (strcpy dst src). repeat split.
      * apply safecpy_fits; assumption.
      * apply strcpy_length. unfold strlen in Hl. lia.
      * apply strcpy_cstr.
      * rewrite strlen_strcpy. assumption.
Qed.

Lemma safecat_within_buffer_witness :
  0 <= 3 < INT_MAX
  /\ Z.of_nat (length (lit "ab" ++ [NUL; "x"%char])) = 3 + 1
  /\ (safecat (lit "ab" ++ [NUL; "x"%char]) (lit "c") 3
        = (1, lit "ab" ++ [NUL; "x"%char])
      \/ exists dst',
           safecat (lit "ab" ++ [NUL; "x"%char]) (lit "c") 3 = (0, dst')
           /\ length dst' = length (lit "ab" ++ [NUL; "x"%char])
           /\ cstr dst' = cstr (lit "ab" ++ [NUL; "x"%char]) ++ cstr (lit "c")
           /\ strlen dst' = strlen (lit "ab" ++ [NUL; "x"%char])
                            + strlen (lit "c")
           /\ strlen dst' <= 3).
Proof.
  assert (Hn : 0 <= 3 < INT_MAX) by (unfold INT_MAX; lia).
  assert (Hc : Z.of_nat (length (lit "ab" ++ [NUL; "x"%char])) = 3 + 1)
    by reflexivity.
  split; [exact Hn|]. split; [exact Hc|].
  exact (proj1 (safecat_within_buffer (lit "ab" ++ [NUL; "x"%char]) (lit "c")
                  3 Hn Hc)).
Defined.

(** ** [make_paths] *)

Lemma strrchr_off_none (s : list ascii) (c : ascii) :
  ~ In c s -> strrchr_off s c = None.
Proof.
  induction s as [|x s IH]; simpl; intros H; [reflexivity|].
  rewrite IH by tauto.
  destruct (Ascii.eqb_spec x c); [tauto|reflexivity].
Qed.

Lemma strrchr_off_last (dir base : list ascii) (c : ascii) :
  ~ In c base -> strrchr_off (dir ++ c :: base) c = Some (length dir).
Proof.
  intros H. induction dir as [|x dir IH]; simpl.
  - rewrite strrchr_off_none by assumption. now rewrite Ascii.eqb_refl.
  - now rewrite IH.
Qed.

(** The string that [make_paths] appends to the directory is the base
    name of the input path. *)
Lemma basename_src (inpath : image) (base : list ascii) :
  basename_of (cstr inpath) base ->
  cstr match strrchr inpath slash with
       | None => inpath
       | Some k => skipn (S k) inpath
       end = base.
Proof.
  unfold strrchr. intros [[Hno ->]|[dir [E Hno]]].
  - now rewrite strrchr_off_none.
  - rewrite E, strrchr_off_last by assumption.
    rewrite cstr_skipn by (rewrite E, length_app; simpl; lia).
    rewrite E.
    replace (S (length dir)) with (length (dir ++ [slash]))
      by (rewrite length_app; simpl; lia).
    replace (dir ++ slash :: base) with ((dir ++ [slash]) ++ base)
      by (now rewrite <- app_assoc).
    now rewrite skipn_app, skipn_all, Nat.sub_diag.
Qed.

Lemma max_bounds :
  0 <= MAXPATH < INT_MAX /\ 0 <= MAXOUTPATH < INT_MAX
  /\ 0 <= MAXTMPPATH < INT_MAX.
Proof. unfold MAXTMPPATH, MAXOUTPATH, MAXPATH, EXTMAX, INT_MAX. lia. Qed.

(** The last four steps of [make_paths], from the plain output path. *)
Lemma make_paths_tail (err0 : Z) (plain ext tmppath outpath : image) :
  strlen plain + strlen ext <= MAXOUTPATH ->
  exists tmp' out',
    (let '(e, outpath) := safecpy outpath plain MAXOUTPATH in
     let err := err0 + e in
     let '(e, outpath) := safecat outpath ext MAXOUTPATH in
     let err := err + e in
     let '(e, tmppath) := safecpy tmppath outpath MAXTMPPATH in
     let err := err + e in
     let '(e, tmppath) := safecat tmppath (lit ".tmp") MAXTMPPATH in
     let err := err + e in
     mk_paths err tmppath outpath) = mk_paths err0 tmp' out'
    /\ cstr out' = cstr plain ++ cstr ext
    /\ cstr tmp' = cstr out' ++ lit ".tmp".
Proof.
  intros H. destruct max_bounds as (H1 & H2 & H3).
  pose proof (strlen_nonneg plain). pose proof (strlen_nonneg ext).
  assert (E4 : strlen (lit ".tmp") = 4) by reflexivity.
  assert (HT : MAXTMPPATH = MAXOUTPATH + 10) by reflexivity.
  rewrite (safecpy_fits outpath plain) by lia.
  rewrite safecat_fits by (try rewrite strlen_strcpy; lia).
  rewrite safecpy_fits by (try rewrite strlen_strcat, strlen_strcpy; lia).
  rewrite safecat_fits
    by (try rewrite strlen_strcpy, strlen_strcat, strlen_strcpy; lia).
  cbv beta zeta iota.
  replace (err0 + 0 + 0 + 0 + 0) with err0 by lia.
  eexists _, _. split; [reflexivity|]. split.
  - now rewrite strcat_cstr, strcpy_cstr.
  - now rewrite strcat_cstr, strcpy_cstr.
Qed.

Lemma make_paths_no_outdir (inpath ext pathbuffer tmppath outpath : image) :
  strlen inpath + strlen ext <= MAXOUTPATH ->
  exists tmp' out',
    make_paths inpath None ext pathbuffer tmppath outpath = mk_paths 0 tmp' out'
    /\ cstr out' = cstr inpath ++ cstr ext
    /\ cstr tmp' = cstr out' ++ lit ".tmp".
Proof.
  intros H. unfold make_paths. now apply make_paths_tail.
Qed.

Lemma make_paths_outdir (inpath dir ext pathbuffer tmppath outpath : image)
    (base : list ascii) :
  basename_of (cstr inpath) base ->
  strlen dir + 1 + Z.of_nat (length base) <= MAXPATH ->
  strlen dir + 1 + Z.of_nat (length base) + strlen ext <= MAXOUTPATH ->
  exists tmp' out',
    make_paths inpath (Some dir) ext pathbuffer tmppath outpath
      = mk_paths 0 tmp' out'
    /\ cstr out' = cstr dir ++ slash :: base ++ cstr ext
    /\ cstr tmp' = cstr out' ++ lit ".tmp".
Proof.
  intros Hb Hp Ho. destruct max_bounds as (H1 & H2 & H3).
  pose proof (strlen_nonneg dir).
  assert (E1 : strlen (lit "/") = 1) by reflexivity.
  pose proof (basename_src inpath base Hb) as Hsrc.
  unfold make_paths.
  destruct (strrchr inpath slash) as [k|];
    [set (src := skipn (S k) inpath) in * | set (src := inpath) in * ].
  all: assert (Es : strlen src = Z.of_nat (length base))
    by (unfold strlen; now rewrite Hsrc).
  all: clearbody src.
  all: rewrite (safecpy_fits pathbuffer dir) by lia.
  all: rewrite safecat_fits by (try rewrite strlen_strcpy; lia).
  all: rewrite safecat_fits by (try rewrite strlen_strcat, strlen_strcpy; lia).
  all: set (plain := strcat _ src).
  all: assert (Ep : cstr plain = cstr dir ++ slash :: base)
    by (subst plain;
        rewrite !strcat_cstr, strcpy_cstr, Hsrc, <- app_assoc; reflexivity).
  all: destruct (make_paths_tail (0 + 0 + 0 + 0) plain ext tmppath outpath)
    as (tmp' & out' & E & Eo & Et);
    [unfold strlen at 1; rewrite Ep, length_app; simpl length;
     unfold strlen in *; lia|].
  all: exists tmp', out'; split; [exact E|]; split; [|exact Et].
  all: rewrite Eo, Ep, <- app_assoc; reflexivity.
Qed.

Lemma no_slash_c_x3f : ~ In slash (lit "c.x3f").
Proof.
  simpl. intros H.
  repeat (destruct H as [H|H]; [discriminate H|]). exact H.
Qed.

(** C2: whatever the arrays hold at first, within the bounds the output
    path is the input path (without output directory) or the directory,
    a slash and the base name of the input path (with one), followed by
    the extension, and the temporary path is the output path followed
    by ".tmp". *)
Theorem make_paths_spec (inpath ext pathbuffer tmppath outpath : image) :
  (strlen inpath + strlen ext <= MAXOUTPATH ->
   let p := make_paths inpath None ext pathbuffer tmppath outpath in
   mp_err p = 0
   /\ cstr (mp_outpath p) = cstr inpath ++ cstr ext
   /\ cstr (mp_tmppath p) = cstr (mp_outpath p) ++ lit ".tmp")
  /\ (forall (dir : image) (base : list ascii),
        basename_of (cstr inpath) base ->
        strlen dir + 1 + Z.of_nat (length base) <= MAXPATH ->
        strlen dir + 1 + Z.of_nat (length base) + strlen ext <= MAXOUTPATH ->
        let p := make_paths inpath (Some dir) ext pathbuffer tmppath outpath in
        mp_err p = 0
        /\ cstr (mp_outpath p) = cstr dir ++ slash :: base ++ cstr ext
        /\ cstr (mp_tmppath p) = cstr (mp_outpath p) ++ lit ".tmp")
  /\ (let p := make_paths (lit "a/b/c.x3f") (Some (lit "/tmp/out")) (lit ".dng")
                 pathbuffer tmppath outpath in
      mp_err p = 0
      /\ cstr (mp_outpath p) = lit "/tmp/out/c.x3f.dng"
      /\ cstr (mp_tmppath p) = lit "/tmp/out/c.x3f.dng.tmp").
Proof.
  split; [|split].
  - intros H.
    destruct (make_paths_no_outdir inpath ext pathbuffer tmppath outpath H)
      as (tmp' & out' & -> & Eo & Et).
    simpl. auto.
  - intros dir base Hb Hp Ho.
    destruct (make_paths_outdir inpath dir ext pathbuffer tmppath outpath
                base Hb Hp Ho) as (tmp' & out' & -> & Eo & Et).
    simpl. auto.
  - destruct (make_paths_outdir (lit "a/b/c.x3f") (lit "/tmp/out") (lit ".dng")
                pathbuffer tmppath outpath (lit "c.x3f"))
      as (tmp' & out' & -> & Eo & Et).
    + right. exists (lit "a/b"). split; [reflexivity|apply no_slash_c_x3f].
    + vm_compute. discriminate.
    + vm_compute. discriminate.
    + simpl. rewrite Et, Eo. repeat split; reflexivity.
Qed.

Lemma make_paths_spec_witness :
  (strlen (lit "dir/img.x3f") + strlen (lit ".tif") <= MAXOUTPATH
   /\ cstr (mp_outpath (make_paths (lit "dir/img.x3f") None (lit ".tif")
                          (repeat "x"%char 1001) (repeat "x"%char 1021)
                          (repeat "x"%char 1011)))
      = lit "dir/img.x3f.tif")
  /\ (basename_of (cstr (lit "dir/img.x3f")) (lit "img.x3f")
      /\ strlen (lit "out") + 1 + 7 <= MAXPATH
      /\ strlen (lit "out") + 1 + 7 + strlen (lit ".tif") <= MAXOUTPATH
      /\ cstr (mp_outpath (make_paths (lit "dir/img.x3f") (Some (lit "out"))
                             (lit ".tif")
                             (repeat "x"%char 1001) (repeat "x"%char 1021)
                             (repeat "x"%char 1011)))
         = lit "out/img.x3f.tif"
      /\ cstr (mp_tmppath (make_paths (lit "dir/img.x3f") (Some (lit "out"))
                             (lit ".tif")
                             (repeat "x"%char 1001) (repeat "x"%char 1021)
                             (repeat "x"%char 1011)))
         = lit "out/img.x3f.tif.tmp").
Proof.
  assert (Hb : basename_of (cstr (lit "dir/img.x3f")) (lit "img.x3f")).
  { right. exists (lit "dir"). split; [reflexivity|].
    simpl. intros H.
    repeat (destruct H as [H|H]; [discriminate H|]). exact H. }
  assert (H1 : strlen (lit "dir/img.x3f") + strlen (lit ".tif") <= MAXOUTPATH)
    by (vm_compute; discriminate).
  assert (H2 : strlen (lit "out") + 1 + 7 <= MAXPATH)
    by (vm_compute; discriminate).
  assert (H3 : strlen (lit "out") + 1 + 7 + strlen (lit ".tif") <= MAXOUTPATH)
    by (vm_compute; discriminate).
  destruct (make_paths_spec (lit "dir/img.x3f") (lit ".tif")
              (repeat "x"%char 1001) (repeat "x"%char 1021)
              (repeat "x"%char 1011)) as (Hn & Hd & _).
  split.
  - split; [exact H1|]. destruct (Hn H1) as (_ & -> & _). reflexivity.
  - split; [exact Hb|]. split; [exact H2|]. split; [exact H3|].
    destruct (Hd (lit "out") (lit "img.x3f") Hb H2 H3) as (_ & Eo & Et).
    rewrite Et, Eo. split; reflexivity.
Defined.

(** ** The loop body *)

Lemma failures_app (t t' : trace) : failures (t ++ t') = failures t + failures t'.
Proof. unfold failures. rewrite filter_app, length_app. lia. Qed.

Lemma failures_nonneg (t : trace) : 0 <= failures t.
Proof. unfold failures. lia. Qed.

Lemma jump_free_app (t t' : trace) :
  jump_free t -> jump_free t' -> jump_free (t ++ t').
Proof.
  unfold jump_free. intros H H'. rewrite forallb_app, H, H'. reflexivity.
Qed.

Section LoopBody.

Context {W : Type} (C : collab W).

Lemma inv_ret {A} (a : A) : inv (ret (W:=W) a).
Proof.
  intros s o t s' E. injection E as <- <- <-. simpl.
  repeat split; solve [reflexivity | unfold failures; simpl; lia].
Qed.

Lemma inv_bind {A B} (m : M A) (f : A -> M B) :
  inv m -> (forall a, inv (f a)) -> inv (W:=W) (bind m f).
Proof.
  intros Hm Hf s o t s' E. unfold bind in E.
  destruct (m s) as [[o1 t1] s1] eqn:E1.
  destruct (Hm _ _ _ _ E1) as (F1 & C1 & S1).
  destruct o1 as [a|].
  - destruct (f a s1) as [[o2 t2] s2] eqn:E2.
    destruct (Hf a _ _ _ _ E2) as (F2 & C2 & S2).
    injection E as <- <- <-. simpl in C1, S1.
    split; [congruence|]. split; [rewrite failures_app; lia|].
    destruct o2 as [b|]; simpl in *.
    + now apply jump_free_app.
    + destruct S2 as (pre & e & -> & He & Hp).
      exists (t1 ++ pre), e. rewrite app_assoc.
      split; [reflexivity|]. split; [assumption|]. now apply jump_free_app.
  - injection E as <- <- <-. auto.
Qed.

Lemma inv_call_goto (op : W -> bool * W) (ev : bool -> event) :
  (forall r, is_failure (ev r) = negb r) ->
  (forall r, is_jump (ev r) = negb r) ->
  inv (call_goto op ev).
Proof.
  intros Hf Hj s o t s' E. unfold call_goto in E.
  destruct (op (world s)) as [r w']. injection E as <- <- <-.
  split; [reflexivity|]. unfold failures. simpl. rewrite Hf.
  destruct r; simpl.
  - split; [lia|]. unfold jump_free. simpl. now rewrite Hj.
  - split; [lia|]. exists [], (ev false). rewrite Hj. now split.
Qed.

Lemma inv_call_count (op : W -> bool * W) (ev : bool -> event) :
  (forall r, is_failure (ev r) = negb r) ->
  (forall r, is_jump (ev r) = false) ->
  inv (call_count op ev).
Proof.
  intros Hf Hj s o t s' E. unfold call_count in E.
  destruct (op (world s)) as [r w']. injection E as <- <- <-.
  split; [reflexivity|]. unfold failures, shape, jump_free. simpl.
  rewrite Hf, Hj. destruct r; simpl; split; (lia || reflexivity).
Qed.

Lemma inv_call_ignore (op : W -> bool * W) (ev : bool -> event) :
  (forall r, is_failure (ev r) = false) ->
  (forall r, is_jump (ev r) = false) ->
  inv (call_ignore op ev).
Proof.
  intros Hf Hj s o t s' E. unfold call_ignore in E.
  destruct (op (world s)) as [r w']. injection E as <- <- <-.
  split; [reflexivity|]. unfold failures, shape, jump_free. simpl.
  rewrite Hf, Hj. simpl. split; (lia || reflexivity).
Qed.

Lemma inv_open_infile (f : image) : inv (open_infile C f).
Proof.
  intros s o t s' E. unfold open_infile in E.
  destruct (c_fopen C (cstr f) (world s)) as [r w'].
  injection E as <- <- <-.
  split; [reflexivity|]. unfold failures, jump_free.
  destruct r; simpl; (split; [lia|]); [reflexivity|].
  exists [], (Ev_fopen (cstr f) false). now split.
Qed.

Lemma inv_new_from_file (f : image) : inv (new_from_file C f).
Proof.
  intros s o t s' E. unfold new_from_file in E.
  destruct (c_new_from_file C (cstr f) (world s)) as [r w'].
  injection E as <- <- <-.
  split; [reflexivity|]. unfold failures, jump_free.
  destruct r; simpl; (split; [lia|]); [reflexivity|].
  exists [], (Ev_new_from_file (cstr f) false). now split.
Qed.

Lemma inv_synth_paths (cfg : config) (f ext : image) :
  inv (synth_paths C cfg f ext).
Proof.
  intros s o t s' E. unfold synth_paths in E.
  set (p := fresh_paths _ _ _ _ _) in E.
  destruct (mp_err p =? 0) eqn:Ep; simpl in E; injection E as <- <- <-.
  - split; [reflexivity|]. unfold failures, shape, jump_free. simpl.
    rewrite Ep. simpl. split; [lia|reflexivity].
  - split; [reflexivity|]. unfold failures. simpl. rewrite Ep. simpl.
    split; [lia|].
    exists [], (Ev_make_paths (cstr f) (cstr ext) (mp_err p)).
    simpl. rewrite Ep. now split.
Qed.

Lemma inv_load_data (f : image) (e : entry) :
  e <> raw -> inv (load_data C f e).
Proof.
  intros He. apply inv_call_ignore; intros r; destruct e; simpl;
    try reflexivity; congruence.
Qed.

Lemma inv_load_raw (cfg : config) (f : image) : inv (load_raw C cfg f).
Proof.
  unfold load_raw.
  destruct (file_type cfg); apply inv_call_goto; intros r; reflexivity.
Qed.

Lemma inv_dump_and_publish (f : image) (d : dump_call) (p : paths) :
  inv (dump_and_publish C f d p).
Proof.
  unfold dump_and_publish. apply inv_bind.
  - apply inv_call_count; intros r; reflexivity.
  - intros [|]; [|apply inv_ret].
    apply inv_bind; [|intros; apply inv_ret].
    apply inv_call_count; intros r; reflexivity.
Qed.

Lemma inv_if {A} (b : bool) (m m' : M A) :
  inv m -> inv m' -> inv (W:=W) (if b then m else m').
Proof. destruct b; auto. Qed.

Lemma inv_extract (cfg : config) (f : image) : inv (extract C cfg f).
Proof.
  unfold extract, jpg_block, meta_block, raw_block.
  repeat first
    [ apply inv_dump_and_publish
    | apply inv_open_infile
    | apply inv_new_from_file
    | apply inv_synth_paths
    | apply inv_load_raw
    | apply inv_load_data; discriminate
    | apply inv_ret
    | apply inv_if
    | apply inv_bind; [|intros] ].
Qed.

Lemma bind_elim {A B} (m : M A) (k : A -> M B) s o t s' :
  bind (W:=W) m k s = (o, t, s') ->
  (exists a t1 s1 t2,
      m s = (Ok a, t1, s1) /\ k a s1 = (o, t2, s') /\ t = t1 ++ t2)
  \/ (m s = (Found_error, t, s') /\ o = Found_error).
Proof.
  unfold bind. intros E. destruct (m s) as [[[a|] t1] s1].
  - destruct (k a s1) as [[o2 t2] s2] eqn:E2. injection E as <- <- <-.
    left. now exists a, t1, s1, t2.
  - injection E as <- <- <-. now right.
Qed.

Lemma emits_ret {A} P (a : A) : emits P (ret (W:=W) a).
Proof. intros s o t s' E. injection E as <- <- <-. reflexivity. Qed.

Lemma emits_bind {A B} P (m : M A) (f : A -> M B) :
  emits P m -> (forall a, emits P (f a)) -> emits (W:=W) P (bind m f).
Proof.
  intros Hm Hf s o t s' E.
  destruct (bind_elim _ _ _ _ _ _ E)
    as [(a & t1 & s1 & t2 & E1 & E2 & ->)|[E1 _]].
  - rewrite forallb_app, (Hm _ _ _ _ E1), (Hf _ _ _ _ _ E2). reflexivity.
  - exact (Hm _ _ _ _ E1).
Qed.

Lemma emits_if {A} P (b : bool) (m m' : M A) :
  emits P m -> emits P m' -> emits (W:=W) P (if b then m else m').
Proof. destruct b; auto. Qed.

Lemma emits_call_goto P (op : W -> bool * W) (ev : bool -> event) :
  (forall r, P (ev r) = true) -> emits P (call_goto op ev).
Proof.
  intros H s o t s' E. unfold call_goto in E.
  destruct (op (world s)) as [r w']. injection E as <- <- <-.
  simpl. now rewrite H.
Qed.

Lemma emits_call_count P (op : W -> bool * W) (ev : bool -> event) :
  (forall r, P (ev r) = true) -> emits P (call_count op ev).
Proof.
  intros H s o t s' E. unfold call_count in E.
  destruct (op (world s)) as [r w']. injection E as <- <- <-.
  simpl. now rewrite H.
Qed.

Lemma emits_call_ignore P (op : W -> bool * W) (ev : bool -> event) :
  (forall r, P (ev r) = true) -> emits P (call_ignore op ev).
Proof.
  intros H s o t s' E. unfold call_ignore in E.
  destruct (op (world s)) as [r w']. injection E as <- <- <-.
  simpl. now rewrite H.
Qed.

Lemma emits_new_from_file P (f : image) :
  (forall r, P (Ev_new_from_file (cstr f) r) = true) ->
  emits P (new_from_file C f).
Proof.
  intros H s o t s' E. unfold new_from_file in E.
  destruct (c_new_from_file C (cstr f) (world s)) as [r w'].
  injection E as <- <- <-. simpl. now rewrite H.
Qed.

Lemma emits_synth_paths P (cfg : config) (f ext : image) :
  (forall err, P (Ev_make_paths (cstr f) (cstr ext) err) = true) ->
  emits P (synth_paths C cfg f ext).
Proof.
  intros H s o t s' E. unfold synth_paths in E.
  destruct (negb _) in E; injection E as <- <- <-; simpl; now rewrite H.
Qed.

End LoopBody.

(** Proves [emits P m] for a part [m] of the loop body when [P] decides
    by computation on each event [m] can produce. *)
Ltac emits_tac :=
  repeat first
    [ apply emits_ret
    | apply emits_if
    | apply emits_new_from_file; intros; reflexivity
    | apply emits_synth_paths; intros; reflexivity
    | apply emits_call_goto; intros; reflexivity
    | apply emits_call_count; intros; reflexivity
    | apply emits_call_ignore; intros; reflexivity
    | match goal with
      | |- emits _ (load_raw _ ?cfg _) =>
          unfold load_raw; destruct (file_type cfg)
      end
    | apply emits_bind; [|intros] ].

(** ** One file, and the file loop *)

Lemma opened_app (t t' : trace) : opened (t ++ t') = opened t ++ opened t'.
Proof.
  induction t as [|e t IH]; [reflexivity|].
  destruct e; simpl; rewrite IH; reflexivity.
Qed.

Lemma opened_inner (t : trace) : forallb is_inner t = true -> opened t = [].
Proof.
  induction t as [|e t IH]; [reflexivity|]. simpl.
  intros H. apply andb_prop in H as [He Ht].
  destruct e; simpl in *; try discriminate; auto.
Qed.

Lemma failures_cleanup (t : trace) :
  forallb is_cleanup t = true -> failures t = 0.
Proof.
  induction t as [|e t IH]; [reflexivity|]. simpl.
  intros H. apply andb_prop in H as [He Ht].
  unfold failures in *. destruct e; simpl in *; try discriminate; auto.
Qed.

Section FileLoop.

Context {W : Type} (C : collab W).

Lemma clean_up_events (f : image) (s : state) :
  forallb is_cleanup (fst (clean_up C f s)) = true
  /\ files (snd (clean_up C f s)) = files s
  /\ errors (snd (clean_up C f s)) = errors s.
Proof. unfold clean_up. destruct (f_in s); simpl; auto. Qed.

(** The events of the loop body: the [fopen], then inner events. *)
Lemma extract_events (cfg : config) (f : image) s o t s' :
  extract C cfg f s = (o, t, s') ->
  exists r t', t = Ev_fopen (cstr f) r :: t' /\ forallb is_inner t' = true.
Proof.
  unfold extract. intros E.
  apply bind_elim in E as [(a & t1 & s1 & t2 & E1 & E2 & ->)|[E1 _]].
  - unfold open_infile in E1.
    destruct (c_fopen C (cstr f) (world s)) as [r w'].
    injection E1 as _ <- _. exists r, t2. split; [reflexivity|].
    revert E2.
    match goal with
    | |- ?m s1 = _ -> _ => assert (Hm : emits is_inner m)
    end.
    { unfold jpg_block, meta_block, raw_block, dump_and_publish, load_data.
      emits_tac. }
    intros E2. exact (Hm _ _ _ _ E2).
  - unfold open_infile in E1.
    destruct (c_fopen C (cstr f) (world s)) as [r w'].
    injection E1 as _ <- _. exists r, []. split; reflexivity.
Qed.

(** The loop body followed by the clean-up. *)
Lemma process_file_split (cfg : config) (f : image) s t s' :
  process_file C cfg f s = (t, s') ->
  exists o tb sb tc,
    extract C cfg f (mk_state (world s) (files s + 1) (errors s) false false)
      = (o, tb, sb)
    /\ t = tb ++ tc
    /\ forallb is_cleanup tc = true
    /\ files s' = files s + 1
    /\ errors s' = errors s + failures tb
    /\ shape o tb.
Proof.
  unfold process_file. intros E.
  destruct (extract C cfg f _) as [[o tb] sb] eqn:Eb.
  destruct (inv_extract C cfg f _ _ _ _ Eb) as (Hf & Hc & Hs).
  simpl in Hf, Hc.
  match type of E with
  | (let '(t', s0) := clean_up C f ?s1 in _) = _ =>
      pose proof (clean_up_events f s1) as (Hcl & Hcf & Hce);
      destruct (clean_up C f s1) as [tc sc]
  end.
  injection E as <- <-. exists o, tb, sb, tc. simpl in *.
  repeat split; try assumption; try reflexivity.
  - destruct o; simpl in *; lia.
  - destruct o; simpl in *; lia.
Qed.

Lemma process_file_facts (cfg : config) (f : image) s t s' :
  process_file C cfg f s = (t, s') ->
  files s' = files s + 1
  /\ errors s' = errors s + failures t
  /\ opened t = [cstr f]
  /\ forallb (fun e => negb (is_setup e)) t = true.
Proof.
  intros E.
  destruct (process_file_split _ _ _ _ _ E)
    as (o & tb & sb & tc & Eb & -> & Hcl & Hf & He & Hs).
  destruct (extract_events _ _ _ _ _ _ Eb) as (r & t' & -> & Hin).
  split; [assumption|]. split; [|split].
  - rewrite failures_app, (failures_cleanup tc Hcl). lia.
  - rewrite opened_app. simpl. rewrite (opened_inner t' Hin).
    rewrite opened_inner; [reflexivity|].
    rewrite forallb_forall in *. intros e He'. specialize (Hcl e He').
    destruct e; simpl in *; try discriminate; reflexivity.
  - rewrite forallb_app. simpl.
    apply andb_true_intro. split.
    + rewrite forallb_forall in *. intros e He'. specialize (Hin e He').
      destruct e; simpl in *; try discriminate; reflexivity.
    + rewrite forallb_forall in *. intros e He'. specialize (Hcl e He').
      destruct e; simpl in *; try discriminate; reflexivity.
Qed.

Lemma run_files_facts (cfg : config) (infiles : list image) s t s' :
  run_files C cfg infiles s = (t, s') ->
  files s' = files s + Z.of_nat (length infiles)
  /\ errors s' = errors s + failures t
  /\ opened t = map cstr infiles
  /\ forallb (fun e => negb (is_setup e)) t = true.
Proof.
  revert s t s'. induction infiles as [|f rest IH]; intros s t s' E.
  - injection E as <- <-. simpl. unfold failures. simpl.
    repeat split; try reflexivity; lia.
  - simpl in E.
    destruct (process_file C cfg f s) as [t1 s1] eqn:E1.
    destruct (run_files C cfg rest s1) as [t2 s2] eqn:E2.
    injection E as <- <-.
    destruct (process_file_facts _ _ _ _ _ E1) as (F1 & C1 & O1 & P1).
    destruct (IH _ _ _ E2) as (F2 & C2 & O2 & P2).
    rewrite failures_app, opened_app, forallb_app, O1, O2, P1, P2.
    simpl length. repeat split; try reflexivity; lia.
Qed.

End FileLoop.

(** ** Running the loop body under assumptions on the collaborators *)

Section Execution.

Context {W : Type} (C : collab W).

Lemma bind_ok {A B} (m : M A) (k : A -> M B) s a t1 s1 o t2 s2 :
  m s = (Ok a, t1, s1) -> k a s1 = (o, t2, s2) ->
  bind (W:=W) m k s = (o, t1 ++ t2, s2).
Proof. intros E1 E2. unfold bind. now rewrite E1, E2. Qed.

Lemma bind_jump {A B} (m : M A) (k : A -> M B) s t1 s1 :
  m s = (Found_error, t1, s1) ->
  bind (W:=W) m k s = (Found_error, t1, s1).
Proof. intros E1. unfold bind. now rewrite E1. Qed.

Lemma open_ok (f : image) (s : state) :
  readable C f ->
  exists s',
    open_infile C f s = (Ok tt, [Ev_fopen (cstr f) true], s')
    /\ files s' = files s /\ errors s' = errors s
    /\ f_in s' = true /\ x3f s' = x3f s.
Proof.
  intros [Ho _]. unfold open_infile.
  pose proof (Ho (world s)) as H1.
  destruct (c_fopen C (cstr f) (world s)) as [r w1]. simpl in H1. subst r.
  eexists. split; [reflexivity|]. repeat split.
Qed.

Lemma new_ok (f : image) (s : state) :
  readable C f ->
  exists s',
    new_from_file C f s = (Ok tt, [Ev_new_from_file (cstr f) true], s')
    /\ files s' = files s /\ errors s' = errors s
    /\ f_in s' = f_in s /\ x3f s' = true.
Proof.
  intros [_ Hn]. unfold new_from_file.
  pose proof (Hn (world s)) as H2.
  destruct (c_new_from_file C (cstr f) (world s)) as [r w2].
  simpl in H2. subst r.
  eexists. split; [reflexivity|]. repeat split.
Qed.

Lemma open_fails (f : image) (s : state) :
  (forall w, fst (c_fopen C (cstr f) w) = false) ->
  exists s',
    open_infile C f s = (Found_error, [Ev_fopen (cstr f) false], s')
    /\ files s' = files s /\ errors s' = errors s
    /\ f_in s' = false /\ x3f s' = x3f s.
Proof.
  intros Ho. unfold open_infile.
  pose proof (Ho (world s)) as H1.
  destruct (c_fopen C (cstr f) (world s)) as [r w1]. simpl in H1. subst r.
  eexists. split; [reflexivity|]. repeat split.
Qed.

Lemma load_data_runs (f : image) (e : entry) (s : state) :
  exists r s',
    load_data C f e s = (Ok tt, [Ev_load_data (cstr f) e r], s')
    /\ after s s' 0.
Proof.
  unfold load_data, call_ignore.
  destruct (c_load_data C (cstr f) e (world s)) as [r w1].
  exists r. eexists. split; [reflexivity|].
  unfold after. simpl. repeat split. lia.
Qed.

Lemma load_raw_ok (cfg : config) (f : image) (s : state) :
  raw_loads C cfg f ->
  exists s',
    load_raw C cfg f s = (Ok tt, [raw_loaded cfg f], s') /\ after s s' 0.
Proof.
  unfold raw_loads, load_raw, raw_loaded, call_goto. intros H.
  destruct (file_type cfg);
    match goal with
    | |- context [let '(_, _) := ?op in _] =>
        pose proof (H (world s)) as H1; destruct op as [r w1];
        simpl in H1; subst r
    end;
    eexists; (split; [reflexivity|]);
    unfold after; simpl; repeat split; lia.
Qed.

Lemma fresh_paths_spec (cfg : config) (f ext : image) (base : list ascii)
    (w : W) :
  fits cfg f base (strlen ext) ->
  mp_err (fresh_paths C cfg f ext w) = 0
  /\ cstr (mp_outpath (fresh_paths C cfg f ext w))
     = plain_path cfg f base ++ cstr ext
  /\ cstr (mp_tmppath (fresh_paths C cfg f ext w))
     = (plain_path cfg f base ++ cstr ext) ++ lit ".tmp".
Proof.
  unfold fits, plain_path, fresh_paths. destruct (outdir cfg) as [d|].
  - intros (Hb & Hp & Ho).
    destruct (make_paths_outdir f d ext
                (alloca C w 0 (Z.to_nat (MAXPATH + 1)))
                (alloca C w 2000 (Z.to_nat (MAXTMPPATH + 1)))
                (alloca C w 4000 (Z.to_nat (MAXOUTPATH + 1))) base Hb Hp Ho)
      as (tmp' & out' & -> & Eo & Et).
    simpl. rewrite Et, Eo, <- app_assoc. repeat split; reflexivity.
  - intros Ho.
    destruct (make_paths_no_outdir f ext
                (alloca C w 0 (Z.to_nat (MAXPATH + 1)))
                (alloca C w 2000 (Z.to_nat (MAXTMPPATH + 1)))
                (alloca C w 4000 (Z.to_nat (MAXOUTPATH + 1))) Ho)
      as (tmp' & out' & -> & Eo & Et).
    simpl. rewrite Et, Eo. repeat split; reflexivity.
Qed.

(** A block from [make_paths] on: the paths fit, the dump has the
    result [r], and the rename succeeds if it is reached. *)
Lemma synth_dump_publish (cfg : config) (f ext : image) (base : list ascii)
    (d : dump_call) (r : bool) (s : state) :
  cstr ext = ext ->
  fits cfg f base (strlen ext) ->
  output_goes C cfg f base ext d r ->
  exists s',
    bind (synth_paths C cfg f ext) (fun p => dump_and_publish C f d p) s
      = (Ok tt, output_events cfg f base ext d r, s')
    /\ after s s' (if r then 0 else 1).
Proof.
  intros Hext Hfit [Hd Hr].
  destruct (fresh_paths_spec cfg f ext base (world s) Hfit) as (Ee & Eo & Et).
  rewrite Hext in Eo, Et.
  unfold output_events, tmp_path, out_path in *.
  set (out := plain_path cfg f base ++ ext) in *.
  set (tmp := out ++ lit ".tmp") in *.
  unfold bind at 1, synth_paths. cbv zeta. rewrite Ee. simpl negb. cbv iota.
  unfold dump_and_publish, bind, call_count. rewrite Eo, Et, Hext.
  pose proof (Hd (world s)) as H1.
  destruct (c_dump C (cstr f) d tmp (world s)) as [r1 w1].
  simpl in H1. subst r1. destruct r.
  - cbn [world files errors f_in x3f].
    pose proof (Hr eq_refl w1) as H2.
    destruct (c_rename C tmp out w1) as [r2 w2]. simpl in H2. subst r2.
    eexists. split; [reflexivity|]. unfold after. simpl. repeat split. lia.
  - eexists. split; [reflexivity|]. unfold after. simpl. repeat split.
Qed.

Lemma raw_ext_spec (t : raw_file_type_t) :
  strlen (raw_ext t) = 4 /\ cstr (raw_ext t) = raw_ext t
  /\ raw_ext t <> lit ".jpg" /\ raw_ext t <> lit ".meta".
Proof. destruct t; repeat split; discriminate. Qed.

Lemma clean_up_opened (f : image) (s : state) :
  f_in s = true ->
  clean_up C f s
  = ([Ev_delete (cstr f) (x3f s); Ev_fclose (cstr f)],
     mk_state (c_fclose C (cstr f) (c_delete C (cstr f) (x3f s) (world s)))
              (files s) (errors s) (f_in s) (x3f s)).
Proof. intros H. unfold clean_up. rewrite H. reflexivity. Qed.

(** The three optional parts of the loop body. *)
Lemma jpg_part (cfg : config) (f : image) (base : list ascii) (rj : bool)
    (s : state) :
  fits cfg f base 4 ->
  (extract_jpg cfg = true ->
   output_goes C cfg f base (lit ".jpg") x3f_dump_jpeg rj) ->
  exists l1 s',
    (if extract_jpg cfg then jpg_block C cfg f else ret tt) s
    = (Ok tt,
       if extract_jpg cfg
       then Ev_load_data (cstr f) thumb_jpeg l1
            :: output_events cfg f base (lit ".jpg") x3f_dump_jpeg rj
       else [], s')
    /\ after s s' (cost (extract_jpg cfg) rj).
Proof.
  intros Hfit Hj. unfold cost. destruct (extract_jpg cfg).
  - destruct (load_data_runs f thumb_jpeg s) as (l1 & s1 & E1 & A1).
    destruct (synth_dump_publish cfg f (lit ".jpg") base x3f_dump_jpeg rj s1
                eq_refl Hfit (Hj eq_refl)) as (s2 & E2 & A2).
    exists l1, s2. split.
    + unfold jpg_block. exact (bind_ok _ _ _ _ _ _ _ _ _ E1 E2).
    + unfold after in *. intuition congruence || lia.
  - exists false, s. split; [reflexivity|]. unfold after. intuition lia.
Qed.

Lemma meta_part (cfg : config) (f : image) (base : list ascii) (rm : bool)
    (s : state) :
  (extract_meta cfg = true ->
   fits cfg f base 5
   /\ output_goes C cfg f base (lit ".meta") x3f_dump_meta_data rm) ->
  exists s',
    (if extract_meta cfg then meta_block C cfg f else ret tt) s
    = (Ok tt,
       if extract_meta cfg
       then output_events cfg f base (lit ".meta") x3f_dump_meta_data rm
       else [], s')
    /\ after s s' (cost (extract_meta cfg) rm).
Proof.
  intros Hm. unfold cost. destruct (extract_meta cfg).
  - destruct (Hm eq_refl) as [Hfit Hgo].
    destruct (synth_dump_publish cfg f (lit ".meta") base x3f_dump_meta_data
                rm s eq_refl Hfit Hgo) as (s2 & E2 & A2).
    exists s2. split; [exact E2|exact A2].
  - exists s. split; [reflexivity|]. unfold after. intuition lia.
Qed.

Lemma raw_part (cfg : config) (f : image) (base : list ascii) (rr : bool)
    (s : state) :
  fits cfg f base 4 -> raw_loads C cfg f ->
  output_goes C cfg f base (raw_ext (file_type cfg)) (raw_dump cfg) rr ->
  exists s',
    raw_block C cfg f s
    = (Ok tt,
       raw_loaded cfg f
       :: output_events cfg f base (raw_ext (file_type cfg)) (raw_dump cfg) rr,
       s')
    /\ after s s' (cost true rr).
Proof.
  intros Hfit Hload Hgo.
  destruct (raw_ext_spec (file_type cfg)) as (El & Ec & _).
  destruct (load_raw_ok cfg f s Hload) as (s1 & E1 & A1).
  rewrite <- El in Hfit.
  destruct (synth_dump_publish cfg f (raw_ext (file_type cfg)) base
              (raw_dump cfg) rr s1 Ec Hfit Hgo) as (s2 & E2 & A2).
  exists s2. split.
  - unfold raw_block. exact (bind_ok _ _ _ _ _ _ _ _ _ E1 E2).
  - unfold after, cost in *. intuition congruence || lia.
Qed.

(** One file whose header, RAW entry and paths are fine, with the given
    results of the dump calls. *)
Lemma process_file_run (cfg : config) (f : image) (base : list ascii)
    (rj rm rr : bool) (s : state) :
  extract_raw cfg = true ->
  fits cfg f base 4 -> readable C f -> raw_loads C cfg f ->
  (extract_jpg cfg = true ->
   output_goes C cfg f base (lit ".jpg") x3f_dump_jpeg rj) ->
  (extract_meta cfg = true ->
   fits cfg f base 5
   /\ output_goes C cfg f base (lit ".meta") x3f_dump_meta_data rm) ->
  output_goes C cfg f base (raw_ext (file_type cfg)) (raw_dump cfg) rr ->
  exists l1 l2 l3 s',
    process_file C cfg f s = (run_trace cfg f base rj rm rr l1 l2 l3, s')
    /\ files s' = files s + 1
    /\ errors s' = errors s + cost (extract_jpg cfg) rj
                   + cost (extract_meta cfg) rm + cost true rr.
Proof.
  intros Hr Hfit Hread Hload Hj Hm Hraw.
  unfold process_file.
  set (s0 := mk_state (world s) (files s + 1) (errors s) false false).
  destruct (open_ok f s0 Hread) as (s1 & E1 & F1 & R1 & I1 & X1).
  destruct (new_ok f s1 Hread) as (s2 & E2 & F2 & R2 & I2 & X2).
  destruct (jpg_part cfg f base rj s2 Hfit Hj) as (l1 & s3 & E3 & A3).
  destruct (load_data_runs f prop s3) as (l2 & s4 & E4 & A4).
  destruct (load_data_runs f camf s4) as (l3 & s5 & E5 & A5).
  destruct (meta_part cfg f base rm s5 Hm) as (s6 & E6 & A6).
  destruct (raw_part cfg f base rr s6 Hfit Hload Hraw) as (s7 & E7 & A7).
  assert (E : extract C cfg f s0
              = (Ok tt,
                 [Ev_fopen (cstr f) true] ++ [Ev_new_from_file (cstr f) true]
                 ++ (if extract_jpg cfg
                     then Ev_load_data (cstr f) thumb_jpeg l1
                          :: output_events cfg f base (lit ".jpg")
                               x3f_dump_jpeg rj
                     else [])
                 ++ ([Ev_load_data (cstr f) prop l2]
                     ++ [Ev_load_data (cstr f) camf l3])
                 ++ (if extract_meta cfg
                     then output_events cfg f base (lit ".meta")
                            x3f_dump_meta_data rm
                     else [])
                 ++ raw_loaded cfg f
                 :: output_events cfg f base (raw_ext (file_type cfg))
                      (raw_dump cfg) rr, s7)).
  { unfold extract. rewrite Hr, orb_true_r.
    eapply bind_ok; [exact E1|]. eapply bind_ok; [exact E2|].
    eapply bind_ok; [exact E3|].
    eapply bind_ok; [eapply bind_ok; [exact E4|exact E5]|].
    eapply bind_ok; [exact E6|]. exact E7. }
  rewrite E. unfold after in *. subst s0. cbn [files errors f_in x3f] in *.
  repeat match goal with H : _ /\ _ |- _ => destruct H end.
  rewrite clean_up_opened by congruence.
  replace (x3f s7) with true by congruence.
  exists l1, l2, l3. eexists. split.
  - f_equal. unfold run_trace. cbn [app]. rewrite <- !app_assoc.
    cbn [app]. rewrite <- ?app_comm_cons, <- ?app_assoc. reflexivity.
  - cbn [files errors]. split; lia.
Qed.

(** ** The events of such a file *)

Lemma raw_loaded_other (cfg : config) (f : image) :
  is_dump (raw_loaded cfg f) = false
  /\ forall a b c, raw_loaded cfg f <> Ev_rename a b c.
Proof.
  unfold raw_loaded. destruct (file_type cfg); split; try reflexivity;
    intros; discriminate.
Qed.

Lemma out_path_inj (cfg : config) (f : image) (base : list ascii)
    (ext ext' : image) :
  out_path cfg f base ext = out_path cfg f base ext' -> ext = ext'.
Proof. unfold out_path. apply app_inv_head. Qed.

(** The renames of the trace are those of the outputs whose dump
    succeeded. *)
Lemma run_trace_renames (cfg : config) (f : image) (base : list ascii)
    (rj rm rr l1 l2 l3 : bool) (ext : image) :
  In (Ev_rename (tmp_path cfg f base ext) (out_path cfg f base ext) true)
     (run_trace cfg f base rj rm rr l1 l2 l3)
  <-> (extract_jpg cfg = true /\ rj = true /\ ext = lit ".jpg")
      \/ (extract_meta cfg = true /\ rm = true /\ ext = lit ".meta")
      \/ (rr = true /\ ext = raw_ext (file_type cfg)).
Proof.
  destruct (raw_loaded_other cfg f) as [_ Hl].
  unfold run_trace, output_events.
  generalize dependent (raw_loaded cfg f). intros e Hl.
  rewrite !in_app_iff. cbn [In]. rewrite !in_app_iff.
  split.
  - intros H.
    repeat match goal with
           | H : _ \/ _ |- _ => destruct H as [H|H]
           | H : False |- _ => contradiction H
           | H : In _ (_ :: _) |- _ => cbn [In] in H
           | H : In _ [] |- _ => contradiction H
           | H : In _ (if ?b then _ else _) |- _ =>
               destruct b eqn:?; cbn [In] in H
           | H : e = Ev_rename _ _ _ |- _ => contradiction (Hl _ _ _ H)
           | H : Ev_rename _ _ _ = Ev_rename _ _ _ |- _ =>
               injection H as _ H; apply out_path_inj in H; subst ext
           | H : _ = Ev_rename _ _ _ |- _ => discriminate H
           end; auto 10.
  - intros [(Hj & -> & ->)|[(Hm & -> & ->)|(-> & ->)]].
    + rewrite Hj. cbn [In]. auto 10.
    + rewrite Hm. cbn [In]. auto 20.
    + cbn [In]. auto 20.
Qed.

Lemma run_trace_dumps (cfg : config) (f : image) (base : list ascii)
    (rj rm rr l1 l2 l3 : bool) :
  (extract_jpg cfg = true ->
   In (Ev_dump (cstr f) x3f_dump_jpeg (tmp_path cfg f base (lit ".jpg")) rj)
      (run_trace cfg f base rj rm rr l1 l2 l3))
  /\ In (Ev_dump (cstr f) (raw_dump cfg)
           (tmp_path cfg f base (raw_ext (file_type cfg))) rr)
        (run_trace cfg f base rj rm rr l1 l2 l3).
Proof.
  unfold run_trace, output_events. rewrite !in_app_iff. cbn [In].
  rewrite !in_app_iff. split.
  - intros ->. cbn [In]. auto 10.
  - cbn [In]. auto 20.
Qed.

Lemma process_file_missing (cfg : config) (f : image) (s : state) :
  (forall w, fst (c_fopen C (cstr f) w) = false) ->
  exists s',
    process_file C cfg f s
      = ([Ev_fopen (cstr f) false; Ev_delete (cstr f) false], s')
    /\ files s' = files s + 1 /\ errors s' = errors s + 1.
Proof.
  intros Ho. unfold process_file.
  set (s0 := mk_state (world s) (files s + 1) (errors s) false false).
  destruct (open_fails f s0 Ho) as (s1 & E1 & F1 & R1 & I1 & X1).
  unfold extract. rewrite (bind_jump _ _ _ _ _ E1).
  unfold clean_up. cbn [f_in x3f world files errors].
  rewrite I1, X1. eexists. split; [reflexivity|].
  cbn [files errors]. subst s0. simpl in *. split; lia.
Qed.

End Execution.

(** ** The switch loop *)

Ltac head_if :=
  match goal with
  | |- (if ?b then _ else _) <> _ => destruct b
  | |- (if ?b then _ else _) = _ -> _ => destruct b eqn:?
  end.

(** An argument that starts with a dash never ends the loop. *)
Lemma parse_step_dash (cfg : config) (a : image) (rest : list image) :
  strncmp0 a (lit "-") 1 = true -> parse_step cfg a rest <> Break.
Proof.
  intros H. unfold parse_step. rewrite H.
  repeat (cbv zeta; head_if); discriminate.
Qed.

Lemma parse_loop_all_dash (n : nat) :
  forall (args : list image) (cfg : config),
    (length args <= n)%nat ->
    (forall a, In a args -> strncmp0 a (lit "-") 1 = true) ->
    parse_loop cfg args = Parse_usage
    \/ exists cfg', parse_loop cfg args = Parsed cfg' [].
Proof.
  induction n as [|n IH]; intros args cfg Hn Hd.
  - destruct args; [|simpl in Hn; lia]. right. now exists cfg.
  - destruct args as [|a rest]; [right; now exists cfg|].
    simpl. pose proof (parse_step_dash cfg a rest (Hd a (or_introl eq_refl))).
    destruct (parse_step cfg a rest) as [cfg' [|]| |];
      [| |now left|contradiction].
    + destruct rest as [|v rest']; [right; now exists cfg'|].
      apply IH; [simpl in Hn; lia|]. intros b Hb. apply Hd. simpl. auto.
    + apply IH; [simpl in Hn; lia|]. intros b Hb. apply Hd. simpl. auto.
Qed.

(** ** [main] *)

Lemma failures_positive (t : trace) :
  failures t > 0 <-> exists e, In e t /\ is_failure e = true.
Proof.
  unfold failures. split.
  - intros H. destruct (filter is_failure t) as [|e l] eqn:E;
      [simpl in H; lia|].
    exists e. apply filter_In. rewrite E. now left.
  - intros (e & Hi & He).
    assert (In e (filter is_failure t)) by (apply filter_In; auto).
    destruct (filter is_failure t); [contradiction|simpl; lia].
Qed.

Lemma failures_setup (t : trace) :
  forallb is_setup t = true -> failures t = 0.
Proof.
  induction t as [|e t IH]; [reflexivity|]. simpl.
  intros H. apply andb_prop in H as [He Ht].
  unfold failures in *. destruct e; simpl in *; try discriminate; auto.
Qed.

Section Main.

Context {W : Type} (C : collab W).

(** What a return from [main] tells. *)
Lemma main_returns (argv : list image) (g : globals) (w : W)
    status nfiles nerrors t w' :
  main C argv g w = Exit_return status nfiles nerrors t w' ->
  exists cfg infiles t0 w0 tr s,
    parse_args g argv = Parsed cfg infiles
    /\ run_files C cfg infiles (mk_state w0 0 0 false false) = (tr, s)
    /\ t = t0 ++ tr
    /\ forallb is_setup t0 = true
    /\ nfiles = files s /\ nerrors = errors s /\ w' = world s
    /\ nfiles <> 0
    /\ status = (if nerrors >? 0 then 1 else 0).
Proof.
  unfold main. intros E.
  destruct (parse_args g argv) as [|cfg infiles]; [discriminate|].
  destruct (outdir cfg) as [d|].
  - destruct (check_dir C d w) as [r w1].
    destruct (r =? 0); simpl in E; [|discriminate].
    destruct (run_files C cfg infiles _) as [tr s] eqn:Er.
    destruct (files s =? 0) eqn:Ef; [discriminate|].
    injection E as <- <- <- <- <-.
    exists cfg, infiles,
      [Ev_check_dir (cstr d) r; Ev_set_use_opencl (use_opencl cfg)],
      (c_set_use_opencl C (use_opencl cfg) w1), tr, s.
    repeat split; try reflexivity; try exact Er.
    intros H. rewrite H in Ef. discriminate.
  - simpl in E.
    destruct (run_files C cfg infiles _) as [tr s] eqn:Er.
    destruct (files s =? 0) eqn:Ef; [discriminate|].
    injection E as <- <- <- <- <-.
    exists cfg, infiles, [Ev_set_use_opencl (use_opencl cfg)],
      (c_set_use_opencl C (use_opencl cfg) w), tr, s.
    repeat split; try reflexivity; try exact Er.
    intros H. rewrite H in Ef. discriminate.
Qed.

(** C1: a run that returns from [main] has exit status 0 when no error
    was counted and 1 otherwise; the error count is the number of
    failed calls in the trace, so the status is 1 exactly when some
    call failed. *)
Theorem exit_status_spec (argv : list image) (g : globals) (w : W)
    status nfiles nerrors t w' :
  main C argv g w = Exit_return status nfiles nerrors t w' ->
  nerrors = failures t
  /\ 0 <= nerrors
  /\ (nerrors = 0 -> status = 0)
  /\ (nerrors > 0 -> status = 1)
  /\ (status = 1 <-> exists e, In e t /\ is_failure e = true).
Proof.
  intros E.
  destruct (main_returns _ _ _ _ _ _ _ _ E)
    as (cfg & infiles & t0 & w0 & tr & s & _ & Er & -> & Ht0 & _ & -> & _
        & _ & ->).
  destruct (run_files_facts C _ _ _ _ _ Er) as (_ & He & _).
  simpl in He.
  assert (Hn : errors s = failures (t0 ++ tr))
    by (rewrite failures_app, (failures_setup t0 Ht0); lia).
  pose proof (failures_nonneg (t0 ++ tr)).
  split; [assumption|]. split; [lia|].
  rewrite <- failures_positive, <- Hn.
  destruct (Z.gtb_spec (errors s) 0); repeat split; intros; lia.
Qed.

(** C7: when the switch loop leaves no file name (in particular when
    every argument starts with a dash), the run ends in [usage] with
    exit status 1, and nothing but the set-up calls was made: no file
    was opened. *)
Theorem no_input_file_is_usage (argv : list image) (g : globals) (w : W) :
  (forall a, In a (tl argv) -> strncmp0 a (lit "-") 1 = true)
  \/ (exists cfg, parse_args g argv = Parsed cfg []) ->
  exists t w',
    main C argv g w = Exit_usage t w'
    /\ exit_status (main C argv g w) = 1
    /\ forallb is_setup t = true
    /\ opened t = [].
Proof.
  intros H.
  assert (Hp : parse_args g argv = Parse_usage
               \/ exists cfg, parse_args g argv = Parsed cfg []).
  { destruct H as [H|H]; [|now right].
    apply (parse_loop_all_dash (length (tl argv))); auto. }
  unfold main. destruct Hp as [->|[cfg ->]].
  - exists [], w. repeat split.
  - destruct (outdir cfg) as [d|].
    + destruct (check_dir C d w) as [r w1].
      destruct (r =? 0); simpl; eexists _, _; repeat split.
    + simpl. eexists _, _. repeat split.
Qed.

(** [check_dir] fails exactly when [stat] fails or the path is not a
    directory. *)
Lemma check_dir_fails (d : image) (w : W) :
  fst (check_dir C d w) <> 0
  <-> fst (fst (c_stat C (cstr d) w)) <> 0
      \/ snd (fst (c_stat C (cstr d) w)) = false.
Proof.
  unfold check_dir. destruct (c_stat C (cstr d) w) as [[ret isdir] w1].
  simpl. destruct (Z.eqb_spec ret 0) as [->|Hr]; simpl.
  - destruct isdir; simpl; split.
    + intros H. now contradiction H.
    + intros [H|H]; [now contradiction H|discriminate].
    + auto.
    + intros _. discriminate.
  - tauto.
Qed.

(** C8: an output directory is checked once, as the first call of the
    run; if [stat] fails on it or it is not a directory the run ends
    in [usage] with exit status 1 and no other call is made. *)
Theorem outdir_checked_first (argv : list image) (g : globals) (w : W)
    (cfg : config) (infiles : list image) (d : image) :
  parse_args g argv = Parsed cfg infiles ->
  outdir cfg = Some d ->
  exists t',
    trace_of (main C argv g w)
      = Ev_check_dir (cstr d) (fst (check_dir C d w)) :: t'
    /\ forallb (fun e => negb (is_check_dir e)) t' = true
    /\ (fst (fst (c_stat C (cstr d) w)) <> 0
        \/ snd (fst (c_stat C (cstr d) w)) = false ->
        t' = []
        /\ exit_status (main C argv g w) = 1
        /\ main C argv g w
           = Exit_usage [Ev_check_dir (cstr d) (fst (check_dir C d w))]
                        (snd (check_dir C d w))).
Proof.
  intros Hp Ho. pose proof (check_dir_fails d w) as Hc.
  unfold main. rewrite Hp, Ho.
  destruct (check_dir C d w) as [r w1]. simpl fst in *. simpl snd in *.
  destruct (Z.eqb_spec r 0) as [->|Hr]; simpl.
  - destruct (run_files C cfg infiles _) as [tr s] eqn:Er.
    destruct (run_files_facts C _ _ _ _ _ Er) as (_ & _ & _ & Hs).
    assert (Hn : forallb (fun e => negb (is_check_dir e)) tr = true).
    { rewrite forallb_forall in *. intros e He. specialize (Hs e He).
      destruct e; simpl in *; try discriminate; reflexivity. }
    exists (Ev_set_use_opencl (use_opencl cfg) :: tr).
    destruct (files s =? 0); simpl; (split; [reflexivity|]);
      (split; [exact Hn|]); intros Hbad; apply Hc in Hbad;
      now contradiction Hbad.
  - exists []. repeat split.
Qed.

End Main.

(** ** Outputs of one file, files of one run *)

Lemma strcmp0_dash (a : image) (l : String.string) :
  strncmp0 a (lit "-") 1 = false ->
  strcmp0 a (lit (String.String "-" l)) = false.
Proof.
  unfold strncmp0, strcmp0, streq. intros H.
  destruct (list_eq_dec ascii_dec (cstr a) (cstr (lit (String.String "-" l))))
    as [E|E]; [|reflexivity].
  rewrite E in H. simpl in H.
  destruct (list_eq_dec ascii_dec ["-"%char] ["-"%char]); congruence.
Qed.

(** An argument that does not start with a dash ends the switch loop. *)
Lemma parse_step_break (cfg : config) (a : image) (rest : list image) :
  strncmp0 a (lit "-") 1 = false -> parse_step cfg a rest = Break.
Proof.
  intros H. unfold parse_step.
  rewrite !strcmp0_dash by assumption. rewrite H. reflexivity.
Qed.

Section Batch.

Context {W : Type} (C : collab W).

(** C5: with preview and RAW both requested for a file that loads and
    whose paths fit, each of the two outputs is dumped, and published
    exactly when its own dump succeeded, whatever the result of the
    other dump (and of the metadata dump, if that output is requested
    too and its path fits); one error is counted per failed dump. *)
Theorem preview_and_raw_independent (cfg : config) (f : image)
    (base : list ascii) (rj rm rr : bool) (s : state) :
  extract_jpg cfg = true -> extract_raw cfg = true ->
  fits cfg f base 4 -> readable C f -> raw_loads C cfg f ->
  output_goes C cfg f base (lit ".jpg") x3f_dump_jpeg rj ->
  (extract_meta cfg = true ->
   fits cfg f base 5
   /\ output_goes C cfg f base (lit ".meta") x3f_dump_meta_data rm) ->
  output_goes C cfg f base (raw_ext (file_type cfg)) (raw_dump cfg) rr ->
  exists t s',
    process_file C cfg f s = (t, s')
    /\ errors s' = errors s + cost true rj + cost (extract_meta cfg) rm
                   + cost true rr
    /\ In (Ev_dump (cstr f) x3f_dump_jpeg
             (tmp_path cfg f base (lit ".jpg")) rj) t
    /\ (In (Ev_rename (tmp_path cfg f base (lit ".jpg"))
              (out_path cfg f base (lit ".jpg")) true) t
        <-> rj = true)
    /\ In (Ev_dump (cstr f) (raw_dump cfg)
             (tmp_path cfg f base (raw_ext (file_type cfg))) rr) t
    /\ (In (Ev_rename (tmp_path cfg f base (raw_ext (file_type cfg)))
              (out_path cfg f base (raw_ext (file_type cfg))) true) t
        <-> rr = true).
Proof.
  intros Hj Hr Hfit Hread Hload Hgj Hgm Hgr.
  destruct (process_file_run C cfg f base rj rm rr s Hr Hfit Hread Hload
              (fun _ => Hgj) Hgm Hgr)
    as (l1 & l2 & l3 & s' & E & _ & He).
  destruct (raw_ext_spec (file_type cfg)) as (_ & _ & Hnj & Hnm).
  destruct (run_trace_dumps cfg f base rj rm rr l1 l2 l3) as [Hdj Hdr].
  rewrite Hj in He.
  eexists _, s'. split; [exact E|]. split; [exact He|].
  split; [exact (Hdj Hj)|]. split; [|split; [exact Hdr|]].
  - rewrite run_trace_renames. split.
    + intros [(_ & H & _)|[(_ & _ & H)|(_ & H)]];
        [exact H|discriminate H|now contradiction Hnj].
    + intros ->. left. auto.
  - rewrite run_trace_renames. split.
    + intros [(_ & _ & H)|[(_ & _ & H)|(H & _)]];
        [now contradiction Hnj|now contradiction Hnm|exact H].
    + intros ->. right. right. auto.
Qed.

Lemma run_files_app (cfg : config) (pre post : list image) (s : state) :
  run_files C cfg (pre ++ post) s
  = let '(t1, s1) := run_files C cfg pre s in
    let '(t2, s2) := run_files C cfg post s1 in
    (t1 ++ t2, s2).
Proof.
  revert s. induction pre as [|f pre IH]; intros s; simpl.
  - now destruct (run_files C cfg post s).
  - destruct (process_file C cfg f s) as [t0 s0]. rewrite IH.
    destruct (run_files C cfg pre s0) as [t1 s1].
    destruct (run_files C cfg post s1) as [t2 s2].
    now rewrite app_assoc.
Qed.

(** C6: whatever happened to the files before it, each file of the list
    is opened and counted once and adds its failures to the error
    count, and the files after it are processed from the state it
    leaves.  With three files of which the second cannot be opened and
    the others are fine, the run counts 3 files and 1 error, exits
    with status 1, and publishes the outputs of the first and third
    file. *)
Theorem batch_continues :
  (forall (cfg : config) (pre : list image) (f : image) (post : list image)
          (s : state) (t : trace) (s' : state),
      run_files C cfg (pre ++ f :: post) s = (t, s') ->
      files s' = files s + Z.of_nat (length (pre ++ f :: post))
      /\ opened t = map cstr (pre ++ f :: post)
      /\ errors s' = errors s + failures t
      /\ exists t1 s1 tf s2 t2,
           run_files C cfg pre s = (t1, s1)
           /\ process_file C cfg f s1 = (tf, s2)
           /\ run_files C cfg post s2 = (t2, s')
           /\ t = t1 ++ tf ++ t2
           /\ files s2 = files s1 + 1
           /\ opened tf = [cstr f]
           /\ errors s2 = errors s1 + failures tf
           /\ ((exists e, In e tf /\ is_failure e = true) ->
               errors s1 + 1 <= errors s2)
           /\ errors s <= errors s1 /\ errors s2 <= errors s')
  /\ (forall (prog f1 f2 f3 : image) (g : globals) (w : W),
        strncmp0 f1 (lit "-") 1 = false ->
        processable C f1 ->
        (forall w, fst (c_fopen C (cstr f2) w) = false) ->
        processable C f3 ->
        exists t w',
          main C [prog; f1; f2; f3] g w = Exit_return 1 3 1 t w'
          /\ opened t = [cstr f1; cstr f2; cstr f3]
          /\ In (Ev_fopen (cstr f2) false) t
          /\ In (Ev_rename ((cstr f1 ++ lit ".dng") ++ lit ".tmp")
                   (cstr f1 ++ lit ".dng") true) t
          /\ In (Ev_rename ((cstr f3 ++ lit ".dng") ++ lit ".tmp")
                   (cstr f3 ++ lit ".dng") true) t).
Proof.
  split.
  - intros cfg pre f post s t s' E.
    destruct (run_files_facts C _ _ _ _ _ E) as (Hf & He & Ho & _).
    split; [exact Hf|]. split; [exact Ho|]. split; [exact He|].
    rewrite run_files_app in E. simpl in E.
    destruct (run_files C cfg pre s) as [t1 s1] eqn:E1.
    destruct (process_file C cfg f s1) as [tf s2] eqn:E2.
    destruct (run_files C cfg post s2) as [t2 s3] eqn:E3.
    injection E as <- <-.
    destruct (run_files_facts C _ _ _ _ _ E1) as (_ & He1 & _).
    destruct (process_file_facts C _ _ _ _ _ E2) as (Hf2 & He2 & Ho2 & _).
    destruct (run_files_facts C _ _ _ _ _ E3) as (_ & He3 & _).
    pose proof (failures_nonneg t1). pose proof (failures_nonneg t2).
    exists t1, s1, tf, s2, t2. repeat split; try assumption; try lia.
    intros Hfail. apply failures_positive in Hfail. lia.
  - intros prog f1 f2 f3 g w Hd (Hl1 & Hr1 & Hw1 & Hd1 & Hn1) H2
           (Hl3 & Hr3 & Hw3 & Hd3 & Hn3).
    unfold main, parse_args. simpl tl. simpl parse_loop.
    rewrite parse_step_break by assumption. simpl outdir. cbv iota beta zeta.
    simpl negb. cbv iota.
    set (cfg := initial_config g).
    set (s0 := mk_state _ 0 0 false false).
    assert (Hnj : extract_jpg cfg = true ->
                  forall f, output_goes C cfg f (cstr f) (lit ".jpg")
                              x3f_dump_jpeg true) by discriminate.
    assert (Hnm : extract_meta cfg = true ->
                  forall f, fits cfg f (cstr f) 5
                            /\ output_goes C cfg f (cstr f) (lit ".meta")
                                 x3f_dump_meta_data true) by discriminate.
    destruct (process_file_run C cfg f1 (cstr f1) true true true s0
                eq_refl Hl1 Hr1 Hw1 (fun H => Hnj H f1) (fun H => Hnm H f1)
                (conj Hd1 (fun _ => Hn1)))
      as (a1 & b1 & c1 & s1 & E1 & F1 & R1).
    destruct (process_file_missing C cfg f2 s1 H2) as (s2 & E2 & F2 & R2).
    destruct (process_file_run C cfg f3 (cstr f3) true true true s2
                eq_refl Hl3 Hr3 Hw3 (fun H => Hnj H f3) (fun H => Hnm H f3)
                (conj Hd3 (fun _ => Hn3)))
      as (a3 & b3 & c3 & s3 & E3 & F3 & R3).
    simpl run_files. rewrite E1, E2, E3.
    destruct (process_file_facts C _ _ _ _ _ E1) as (_ & _ & O1 & _).
    destruct (process_file_facts C _ _ _ _ _ E3) as (_ & _ & O3 & _).
    pose proof (proj2 (run_trace_renames cfg f1 (cstr f1) true true true
                         a1 b1 c1 (lit ".dng"))
                  (or_intror (or_intror (conj eq_refl eq_refl)))) as P1.
    pose proof (proj2 (run_trace_renames cfg f3 (cstr f3) true true true
                         a3 b3 c3 (lit ".dng"))
                  (or_intror (or_intror (conj eq_refl eq_refl)))) as P3.
    change (tmp_path cfg f1 (cstr f1) (lit ".dng"))
      with ((cstr f1 ++ lit ".dng") ++ lit ".tmp") in P1.
    change (out_path cfg f1 (cstr f1) (lit ".dng"))
      with (cstr f1 ++ lit ".dng") in P1.
    change (tmp_path cfg f3 (cstr f3) (lit ".dng"))
      with ((cstr f3 ++ lit ".dng") ++ lit ".tmp") in P3.
    change (out_path cfg f3 (cstr f3) (lit ".dng"))
      with (cstr f3 ++ lit ".dng") in P3.
    subst s0. unfold cost in R1, R3.
    cbn [files errors extract_jpg extract_meta cfg initial_config]
      in F1, R1, F2, R2, F3, R3.
    assert (Ef : files s3 = 3) by lia. assert (Ee : errors s3 = 1) by lia.
    rewrite Ef, Ee.
    generalize dependent (run_trace cfg f1 (cstr f1) true true true a1 b1 c1).
    generalize dependent (run_trace cfg f3 (cstr f3) true true true a3 b3 c3).
    intros t3 _ O3 P3 t1 _ O1 P1.
    change (3 =? 0) with false. change (1 >? 0) with true. cbv iota.
    eexists _, _. split; [reflexivity|].
    cbn [app opened In]. rewrite !opened_app, O1. cbn [opened].
    rewrite !opened_app, O3. rewrite !in_app_iff. cbn [In].
    repeat split.
    + right. right. left. reflexivity.
    + right. left. exact P1.
    + right. right. right. right. rewrite app_nil_r. exact P3.
Qed.

End Batch.

(** ** A path that is too long *)

Lemma split_before_cleanup (tb tc pre post : trace) (e : event) :
  tb ++ tc = pre ++ e :: post ->
  forallb is_cleanup tc = true -> is_cleanup e = false ->
  exists post1, tb = pre ++ e :: post1 /\ post = post1 ++ tc.
Proof.
  revert pre. induction tb as [|x tb IH]; intros pre E Hc He.
  - simpl in E. rewrite forallb_forall in Hc.
    rewrite (Hc e) in He; [discriminate|]. rewrite E. apply in_elt.
  - destruct pre as [|y pre]; simpl in E; injection E as -> E.
    + exists tb. now split.
    + destruct (IH pre E Hc He) as (post1 & -> & ->). now exists post1.
Qed.

Lemma jump_is_last (pre' pre post1 : trace) (e' e : event) :
  pre' ++ [e'] = pre ++ e :: post1 ->
  jump_free pre' -> is_jump e = true ->
  post1 = [] /\ pre = pre'.
Proof.
  revert pre. induction pre' as [|x p IH]; intros pre E Hj He.
  - destruct pre as [|y q]; simpl in E.
    + injection E as _ <-. now split.
    + injection E as _ E. now destruct q.
  - destruct pre as [|y q]; simpl in E; injection E as -> E.
    + unfold jump_free in Hj. simpl in Hj. rewrite He in Hj. discriminate.
    + unfold jump_free in Hj. simpl in Hj. apply andb_prop in Hj as [_ Hj].
      destruct (IH q E Hj He) as [-> ->]. now split.
Qed.

Lemma jump_free_no_jump (t : trace) (e : event) :
  jump_free t -> In e t -> is_jump e = false.
Proof.
  unfold jump_free. rewrite forallb_forall. intros H Hi.
  specialize (H e Hi). now destruct (is_jump e).
Qed.

Section PathTooLong.

Context {W : Type} (C : collab W).

(** C4, as the code has it: a failed path synthesis is counted as one
    error and ends the work on the file; after it only the clean-up
    calls are made, and the run goes on with the next file. *)
Theorem path_failure_abandons_file (cfg : config) (f : image)
    (s : state) (t : trace) (s' : state) (pre post : trace) (e : event) :
  process_file C cfg f s = (t, s') ->
  t = pre ++ e :: post ->
  is_path_failure e = true ->
  forallb is_cleanup post = true
  /\ errors s' = errors s + failures pre + 1
  /\ forall rest,
       run_files C cfg (f :: rest) s
       = (t ++ fst (run_files C cfg rest s'), snd (run_files C cfg rest s')).
Proof.
  intros E Et He.
  assert (Hj : is_jump e = true) by (destruct e; try discriminate; exact He).
  assert (Hf : is_failure e = true) by (destruct e; try discriminate; exact He).
  assert (Hc : is_cleanup e = false) by (destruct e; try discriminate; reflexivity).
  destruct (process_file_split C _ _ _ _ _ E)
    as (o & tb & sb & tc & Eb & Etb & Hcl & Hfi & Her & Hs).
  rewrite Etb in Et.
  destruct (split_before_cleanup _ _ _ _ _ Et Hcl Hc) as (post1 & -> & ->).
  destruct o as [a|]; simpl in Hs.
  - rewrite (jump_free_no_jump _ e Hs) in Hj; [discriminate|]. apply in_elt.
  - destruct Hs as (pre' & e' & E' & _ & Hp').
    symmetry in E'.
    destruct (jump_is_last _ _ _ _ _ E' Hp' Hj) as [-> ->].
    split; [exact Hcl|]. split.
    + rewrite Her, failures_app. unfold failures at 2. simpl.
      rewrite Hf. simpl. lia.
    + intros rest. simpl. rewrite E.
      now destruct (run_files C cfg rest s').
Qed.

End PathTooLong.

(** The long path is too long for ".meta" only. *)
Lemma long_name_fits :
  strlen long_name = 1006
  /\ strlen long_name + strlen (lit ".dng") <= MAXOUTPATH
  /\ MAXOUTPATH < strlen long_name + strlen (lit ".meta").
Proof. vm_compute. repeat split; discriminate. Qed.

(** C4, as the claim has it, fails: the name is too long for ".meta" but
    not for ".dng", and the RAW output is not attempted. *)
Lemma path_failure_is_not_local :
  ~ path_failure_is_local (Sim.collab [] [] Sim.all_ok) meta_and_dng
      long_name (mk_state [] 0 0 false false).
Proof.
  unfold path_failure_is_local. intros H.
  assert (E : fst (process_file (Sim.collab [] [] Sim.all_ok) meta_and_dng
                     long_name (mk_state [] 0 0 false false))
              = [Ev_fopen long_name true; Ev_new_from_file long_name true;
                 Ev_load_data long_name prop true;
                 Ev_load_data long_name camf true;
                 Ev_make_paths long_name (lit ".meta") 1;
                 Ev_delete long_name true; Ev_fclose long_name])
    by (vm_compute; reflexivity).
  rewrite E in H.
  destruct H as (e & Hi & He).
  - exists (Ev_make_paths long_name (lit ".meta") 1). split; [|reflexivity].
    simpl. tauto.
  - reflexivity.
  - simpl in Hi.
    repeat (destruct Hi as [<-|Hi]; [discriminate He|]). exact Hi.
Qed.

(** ** Which outputs the switches select *)



Section Selection.

Context {W : Type} (C : collab W).



End Selection.


(** ** Concrete runs in the simulated world *)

Lemma exit_status_spec_witness :
  exists t w',
    main (Sim.collab [lit "b.x3f"] [] Sim.all_ok)
         [lit "x3f_extract"; lit "a.x3f"; lit "b.x3f"; lit "c.x3f"]
         Sim.g0 []
    = Exit_return 1 3 1 t w'
    /\ w' = [lit "a.x3f.dng"; lit "c.x3f.dng"]
    /\ 1 = failures t
    /\ ((1 : Z) = 1 <-> exists e, In e t /\ is_failure e = true).
Proof.
  pose (r := main (Sim.collab [lit "b.x3f"] [] Sim.all_ok)
               [lit "x3f_extract"; lit "a.x3f"; lit "b.x3f"; lit "c.x3f"]
               Sim.g0 []).
  assert (E : main (Sim.collab [lit "b.x3f"] [] Sim.all_ok)
                [lit "x3f_extract"; lit "a.x3f"; lit "b.x3f"; lit "c.x3f"]
                Sim.g0 [] = r) by reflexivity.
  vm_compute in r. subst r.
  destruct (exit_status_spec _ _ _ _ _ _ _ _ _ E) as (Hn & _ & _ & _ & Hs).
  eexists _, _. split; [exact E|]. split; [reflexivity|].
  split; [exact Hn|exact Hs].
Defined.

Lemma no_input_file_is_usage_witness :
  (forall a, In a (tl [lit "x3f_extract"; lit "-jpg"; lit "-crop"]) ->
             strncmp0 a (lit "-") 1 = true)
  /\ exists t w',
       main (Sim.collab [] [] Sim.all_ok)
            [lit "x3f_extract"; lit "-jpg"; lit "-crop"] Sim.g0 []
       = Exit_usage t w'
       /\ exit_status (main (Sim.collab [] [] Sim.all_ok)
                         [lit "x3f_extract"; lit "-jpg"; lit "-crop"]
                         Sim.g0 []) = 1
       /\ forallb is_setup t = true
       /\ opened t = [].
Proof.
  assert (H : forall a, In a (tl [lit "x3f_extract"; lit "-jpg"; lit "-crop"])
                        -> strncmp0 a (lit "-") 1 = true).
  { simpl. intros a [<-|[<-|[]]]; reflexivity. }
  split; [exact H|].
  exact (no_input_file_is_usage (Sim.collab [] [] Sim.all_ok)
           [lit "x3f_extract"; lit "-jpg"; lit "-crop"] Sim.g0 []
           (or_introl H)).
Defined.

Lemma outdir_checked_first_witness :
  parse_args Sim.g0 [lit "x3f_extract"; lit "-o"; lit "nodir"; lit "a.x3f"]
  = Parsed (set_outdir (lit "nodir") (initial_config Sim.g0)) [lit "a.x3f"]
  /\ fst (fst (c_stat (Sim.collab [] [] Sim.all_ok) (cstr (lit "nodir")) []))
     <> 0
  /\ main (Sim.collab [] [] Sim.all_ok)
       [lit "x3f_extract"; lit "-o"; lit "nodir"; lit "a.x3f"] Sim.g0 []
     = Exit_usage [Ev_check_dir (lit "nodir") (-1)] [].
Proof.
  assert (Hp : parse_args Sim.g0
                 [lit "x3f_extract"; lit "-o"; lit "nodir"; lit "a.x3f"]
               = Parsed (set_outdir (lit "nodir") (initial_config Sim.g0))
                   [lit "a.x3f"]) by reflexivity.
  assert (Hs : fst (fst (c_stat (Sim.collab [] [] Sim.all_ok)
                           (cstr (lit "nodir")) [])) <> 0)
    by (vm_compute; discriminate).
  split; [exact Hp|]. split; [exact Hs|].
  destruct (outdir_checked_first (Sim.collab [] [] Sim.all_ok) _ Sim.g0 []
              _ _ (lit "nodir") Hp eq_refl) as (t' & _ & _ & Hbad).
  destruct (Hbad (or_introl Hs)) as (_ & _ & ->). reflexivity.
Defined.

Lemma path_failure_abandons_file_witness :
  process_file (Sim.collab [] [] Sim.all_ok) meta_and_dng long_name
    (mk_state [] 0 0 false false)
  = ([Ev_fopen long_name true; Ev_new_from_file long_name true;
      Ev_load_data long_name prop true; Ev_load_data long_name camf true]
     ++ Ev_make_paths long_name (lit ".meta") 1
     :: [Ev_delete long_name true; Ev_fclose long_name],
     mk_state [] 1 1 true true)
  /\ is_path_failure (Ev_make_paths long_name (lit ".meta") 1) = true
  /\ forallb is_cleanup [Ev_delete long_name true; Ev_fclose long_name] = true
  /\ errors (mk_state ([] : Sim.world) 1 1 true true)
     = 0 + failures [Ev_fopen long_name true; Ev_new_from_file long_name true;
                     Ev_load_data long_name prop true;
                     Ev_load_data long_name camf true] + 1.
Proof.
  assert (E : process_file (Sim.collab [] [] Sim.all_ok) meta_and_dng
                long_name (mk_state [] 0 0 false false)
              = ([Ev_fopen long_name true; Ev_new_from_file long_name true;
                  Ev_load_data long_name prop true;
                  Ev_load_data long_name camf true]
                 ++ Ev_make_paths long_name (lit ".meta") 1
                 :: [Ev_delete long_name true; Ev_fclose long_name],
                 mk_state [] 1 1 true true))
    by (vm_compute; reflexivity).
  split; [exact E|]. split; [reflexivity|].
  destruct (path_failure_abandons_file (Sim.collab [] [] Sim.all_ok)
              meta_and_dng long_name _ _ _ _ _ _ E eq_refl eq_refl)
    as (Hc & He & _).
  split; [exact Hc|exact He].
Defined.

Lemma preview_and_raw_independent_witness :
  exists t s',
    process_file (Sim.collab [] [] Sim.jpeg_fails)
      (set_raw TIFF (set_meta (set_jpg (initial_config Sim.g0))))
      (lit "a/b.x3f") (mk_state [] 0 0 false false) = (t, s')
    /\ errors s' = 0 + 1 + 0 + 0
    /\ In (Ev_dump (lit "a/b.x3f") x3f_dump_jpeg (lit "a/b.x3f.jpg.tmp") false)
          t
    /\ In (Ev_rename (lit "a/b.x3f.tif.tmp") (lit "a/b.x3f.tif") true) t.
Proof.
  destruct (preview_and_raw_independent (Sim.collab [] [] Sim.jpeg_fails)
              (set_raw TIFF (set_meta (set_jpg (initial_config Sim.g0))))
              (lit "a/b.x3f") [] false true true
              (mk_state [] 0 0 false false))
    as (t & s' & E & He & Hjd & _ & _ & Hrp).
  - reflexivity.
  - reflexivity.
  - vm_compute. discriminate.
  - split; intros w; reflexivity.
  - intros w. reflexivity.
  - split; [intros w; reflexivity|discriminate].
  - intros _. split; [vm_compute; discriminate|].
    split; [intros w; reflexivity|intros _ w; reflexivity].
  - split; [intros w; reflexivity|intros _ w; reflexivity].
  - exists t, s'. split; [exact E|]. split; [exact He|].
    split; [exact Hjd|]. apply Hrp. reflexivity.
Defined.

Lemma batch_continues_witness :
  strncmp0 (lit "a.x3f") (lit "-") 1 = false
  /\ processable (Sim.collab [lit "b.x3f"] [] Sim.all_ok) (lit "a.x3f")
  /\ (forall w, fst (c_fopen (Sim.collab [lit "b.x3f"] [] Sim.all_ok)
                       (cstr (lit "b.x3f")) w) = false)
  /\ processable (Sim.collab [lit "b.x3f"] [] Sim.all_ok) (lit "c.x3f")
  /\ exists t w',
       main (Sim.collab [lit "b.x3f"] [] Sim.all_ok)
            [lit "x3f_extract"; lit "a.x3f"; lit "b.x3f"; lit "c.x3f"]
            Sim.g0 [] = Exit_return 1 3 1 t w'
       /\ In (Ev_rename (lit "a.x3f.dng.tmp") (lit "a.x3f.dng") true) t
       /\ In (Ev_rename (lit "c.x3f.dng.tmp") (lit "c.x3f.dng") true) t.
Proof.
  assert (Ha : processable (Sim.collab [lit "b.x3f"] [] Sim.all_ok)
                 (lit "a.x3f")).
  { split; [vm_compute; discriminate|].
    repeat split; intros w; reflexivity. }
  assert (Hc : processable (Sim.collab [lit "b.x3f"] [] Sim.all_ok)
                 (lit "c.x3f")).
  { split; [vm_compute; discriminate|].
    repeat split; intros w; reflexivity. }
  assert (Hb : forall w, fst (c_fopen (Sim.collab [lit "b.x3f"] [] Sim.all_ok)
                                (cstr (lit "b.x3f")) w) = false)
    by (intros w; reflexivity).
  split; [reflexivity|]. split; [exact Ha|]. split; [exact Hb|].
  split; [exact Hc|].
  destruct (proj2 (batch_continues (Sim.collab [lit "b.x3f"] [] Sim.all_ok))
              (lit "x3f_extract") (lit "a.x3f") (lit "b.x3f") (lit "c.x3f")
              Sim.g0 [] eq_refl Ha Hb Hc)
    as (t & w' & E & _ & _ & H1 & H3).
  exists t, w'. split; [exact E|]. split; [exact H1|exact H3].
Defined.


(** * Further properties of the code *)

(** ** When the bounded copies accept *)

Lemma safecpy_cases (dst src : image) (n : Z) :
  0 <= n < INT_MAX ->
  (strlen src <= n /\ safecpy dst src n = (0, strcpy dst src))
  \/ (n < strlen src /\ safecpy dst src n = (1, dst)).
Proof.
  intros Hn. destruct (Z_lt_le_dec n (strlen src)) as [H|H].
  - right. split; [exact H|]. now apply safecpy_too_long.
  - left. split; [exact H|]. now apply safecpy_fits.
Qed.

Lemma safecat_cases (dst src : image) (n : Z) :
  0 <= n < INT_MAX ->
  (strlen dst + strlen src <= n /\ safecat dst src n = (0, strcat dst src))
  \/ (n < strlen dst + strlen src /\ safecat dst src n = (1, dst)).
Proof.
  intros Hn. destruct (Z_lt_le_dec n (strlen dst + strlen src)) as [H|H].
  - right. split; [exact H|]. now apply safecat_too_long.
  - left. split; [exact H|]. now apply safecat_fits.
Qed.

Lemma safecpy_keeps_length (dst src : image) (n : Z) :
  0 <= n < INT_MAX -> Z.of_nat (length dst) = n + 1 ->
  length (snd (safecpy dst src n)) = length dst.
Proof.
  intros Hn Hc. destruct (safecpy_cases dst src n Hn) as [[H ->]|[H ->]];
    [|reflexivity].
  apply strcpy_length. unfold strlen in H. lia.
Qed.

Lemma safecat_keeps_length (dst src : image) (n : Z) :
  0 <= n < INT_MAX -> Z.of_nat (length dst) = n + 1 ->
  length (snd (safecat dst src n)) = length dst.
Proof.
  intros Hn Hc. destruct (safecat_cases dst src n Hn) as [[H ->]|[H ->]];
    [|reflexivity].
  apply strcat_length. unfold strlen in H. lia.
Qed.

(** X1: [safecpy] accepts exactly the sources of at most [dst_size]
    characters, whatever the destination holds; it returns 0 or 1, a
    refusal leaves the destination as it is, and after a success the
    destination holds the source. *)
Theorem safecpy_accepts_iff (dst src : image) (dst_size : Z) :
  0 <= dst_size < INT_MAX ->
  (fst (safecpy dst src dst_size) = 0 <-> strlen src <= dst_size)
  /\ (fst (safecpy dst src dst_size) = 1 <-> dst_size < strlen src)
  /\ (fst (safecpy dst src dst_size) = 1 ->
      snd (safecpy dst src dst_size) = dst)
  /\ (fst (safecpy dst src dst_size) = 0 ->
      cstr (snd (safecpy dst src dst_size)) = cstr src).
Proof.
  intros Hn.
  destruct (safecpy_cases dst src dst_size Hn) as [[H ->]|[H ->]]; simpl;
    repeat split; intros; try lia; try discriminate; try reflexivity.
  apply strcpy_cstr.
Qed.

Lemma safecpy_accepts_iff_witness :
  0 <= 3 < INT_MAX
  /\ (fst (safecpy (repeat "x"%char 4) (lit "abcd") 3) = 1
      <-> 3 < strlen (lit "abcd")).
Proof.
  assert (Hn : 0 <= 3 < INT_MAX) by (unfold INT_MAX; lia).
  split; [exact Hn|].
  exact (proj1 (proj2 (safecpy_accepts_iff (repeat "x"%char 4) (lit "abcd")
                         3 Hn))).
Defined.

(** X2: [safecat] accepts exactly when the two strings together have at
    most [dst_size] characters; in particular it refuses every source
    when the destination array of [dst_size + 1] bytes holds no NUL (an
    array that was never written). *)
Theorem safecat_accepts_iff (dst src : image) (dst_size : Z) :
  0 <= dst_size < INT_MAX ->
  (fst (safecat dst src dst_size) = 0
   <-> strlen dst + strlen src <= dst_size)
  /\ (fst (safecat dst src dst_size) = 1
      <-> dst_size < strlen dst + strlen src)
  /\ (fst (safecat dst src dst_size) = 1 ->
      snd (safecat dst src dst_size) = dst)
  /\ (fst (safecat dst src dst_size) = 0 ->
      cstr (snd (safecat dst src dst_size)) = cstr dst ++ cstr src)
  /\ (Z.of_nat (length dst) = dst_size + 1 ->
      cstr dst = dst ->
      safecat dst src dst_size = (1, dst)).
Proof.
  intros Hn. split; [|split; [|split; [|split]]].
  - destruct (safecat_cases dst src dst_size Hn) as [[H ->]|[H ->]]; simpl;
      split; intros; try lia; try discriminate; reflexivity.
  - destruct (safecat_cases dst src dst_size Hn) as [[H ->]|[H ->]]; simpl;
      split; intros; try lia; try discriminate; reflexivity.
  - destruct (safecat_cases dst src dst_size Hn) as [[H ->]|[H ->]]; simpl;
      intros; try discriminate; reflexivity.
  - destruct (safecat_cases dst src dst_size Hn) as [[H ->]|[H ->]]; simpl;
      intros; try discriminate. apply strcat_cstr.
  - intros Hc Hu. apply safecat_too_long; [exact Hn|].
    pose proof (strlen_nonneg src). unfold strlen at 1. rewrite Hu. lia.
Qed.

Lemma safecat_accepts_iff_witness :
  0 <= 3 < INT_MAX
  /\ Z.of_nat (length (repeat "x"%char 4)) = 3 + 1
  /\ cstr (repeat "x"%char 4) = repeat "x"%char 4
  /\ safecat (repeat "x"%char 4) (lit "") 3 = (1, repeat "x"%char 4).
Proof.
  assert (Hn : 0 <= 3 < INT_MAX) by (unfold INT_MAX; lia).
  assert (Hc : Z.of_nat (length (repeat "x"%char 4)) = 3 + 1) by reflexivity.
  assert (Hu : cstr (repeat "x"%char 4) = repeat "x"%char 4) by reflexivity.
  split; [exact Hn|]. split; [exact Hc|]. split; [exact Hu|].
  exact (proj2 (proj2 (proj2 (proj2
           (safecat_accepts_iff (repeat "x"%char 4) (lit "") 3 Hn)))) Hc Hu).
Defined.

(** X3: A copy followed by a concatenation into an array of [n + 1]
    bytes, as [make_paths] chains them.  The two results add up to 0
    exactly when both strings fit together, and the array then holds
    both.  When only the first fits, the array holds the first alone.
    When the copy is refused, the concatenation still runs, on what
    the array held before: it appends to that old content when the two
    fit, and leaves the array untouched otherwise; the sum is then at
    least 1, which is all that tells the caller not to use the array.
    In no case is a string cut or a byte written behind the array. *)
Theorem copy_then_cat_never_truncates (dst a b : image) (n : Z) :
  0 <= n < INT_MAX ->
  Z.of_nat (length dst) = n + 1 ->
  let r1 := safecpy dst a n in
  let r2 := safecat (snd r1) b n in
  (strlen a + strlen b <= n ->
   fst r1 + fst r2 = 0 /\ cstr (snd r2) = cstr a ++ cstr b)
  /\ (strlen a <= n < strlen a + strlen b ->
      fst r1 = 0 /\ fst r2 = 1 /\ cstr (snd r2) = cstr a)
  /\ (n < strlen a ->
      fst r1 = 1 /\ snd r1 = dst
      /\ (strlen dst + strlen b <= n ->
          fst r2 = 0 /\ cstr (snd r2) = cstr dst ++ cstr b)
      /\ (n < strlen dst + strlen b -> fst r2 = 1 /\ snd r2 = dst))
  /\ (fst r1 + fst r2 = 0 <-> strlen a + strlen b <= n)
  /\ length (snd r2) = length dst.
Proof.
  intros Hn Hlen r1 r2. subst r1 r2.
  pose proof (strlen_nonneg a). pose proof (strlen_nonneg b).
  assert (Hkeep : length (snd (safecat (snd (safecpy dst a n)) b n))
                  = length dst).
  { pose proof (safecpy_keeps_length dst a n Hn Hlen) as L1.
    rewrite (safecat_keeps_length _ b n Hn); [exact L1|].
    rewrite L1. exact Hlen. }
  repeat match goal with |- _ /\ _ => split end; try exact Hkeep;
    clear Hkeep;
    destruct (safecpy_cases dst a n Hn) as [[H1 E1]|[H1 E1]]; rewrite E1;
    cbn [fst snd].
  all: try (pose proof (strlen_strcpy dst a) as Hl;
            destruct (safecat_cases (strcpy dst a) b n Hn)
              as [[H2 E2]|[H2 E2]];
            rewrite E2; cbn [fst snd]; rewrite Hl in H2;
            rewrite ?strcat_cstr, ?strcpy_cstr;
            repeat split; intros; try lia; reflexivity).
  all: pose proof (strlen_nonneg dst) as Hd;
    destruct (safecat_cases dst b n Hn) as [[H2 E2]|[H2 E2]];
    rewrite E2; cbn [fst snd]; rewrite ?strcat_cstr;
    repeat split; intros; try lia; reflexivity.
Qed.

Lemma copy_then_cat_never_truncates_witness :
  0 <= 5 < INT_MAX
  /\ Z.of_nat (length (NUL :: repeat "x"%char 5)) = 5 + 1
  /\ 5 < strlen (lit "abcdefgh")
  /\ strlen (NUL :: repeat "x"%char 5) + strlen (lit "de") <= 5
  /\ fst (safecpy (NUL :: repeat "x"%char 5) (lit "abcdefgh") 5) = 1
  /\ fst (safecat (snd (safecpy (NUL :: repeat "x"%char 5)
                          (lit "abcdefgh") 5))
            (lit "de") 5) = 0
  /\ cstr (snd (safecat (snd (safecpy (NUL :: repeat "x"%char 5)
                                (lit "abcdefgh") 5))
                  (lit "de") 5))
     = cstr (NUL :: repeat "x"%char 5) ++ cstr (lit "de").
Proof.
  assert (Hn : 0 <= 5 < INT_MAX) by (unfold INT_MAX; lia).
  assert (Hlen : Z.of_nat (length (NUL :: repeat "x"%char 5)) = 5 + 1)
    by reflexivity.
  assert (Ha : 5 < strlen (lit "abcdefgh")) by reflexivity.
  assert (Hd : strlen (NUL :: repeat "x"%char 5) + strlen (lit "de") <= 5)
    by (vm_compute; discriminate).
  split; [exact Hn|]. split; [exact Hlen|]. split; [exact Ha|].
  split; [exact Hd|].
  destruct (copy_then_cat_never_truncates (NUL :: repeat "x"%char 5)
              (lit "abcdefgh") (lit "de") 5 Hn Hlen)
    as (_ & _ & H3 & _).
  destruct (H3 Ha) as (E1 & _ & Hfit & _).
  destruct (Hfit Hd) as [E2 E3].
  split; [exact E1|]. split; [exact E2|exact E3].
Defined.

(** X4: The test of [safecpy] is made in [size_t]: with a negative
    [dst_size] it accepts every source, and a source that does not fit
    the array is then written past its end. *)
Theorem safecpy_negative_size (dst src : image) (dst_size : Z) :
  - 2 ^ 31 <= dst_size < 0 ->
  strlen src < 2 ^ 63 ->
  safecpy dst src dst_size = (0, strcpy dst src)
  /\ ((length dst <= length (cstr src))%nat ->
      (length dst < length (strcpy dst src))%nat).
Proof.
  intros Hn Hs. pose proof (strlen_nonneg src). split.
  - unfold safecpy, strnlen, size_t_of_int.
    assert (E1 : dst_size mod 2 ^ 64 = 2 ^ 64 + dst_size).
    { symmetry. apply (Z.mod_unique _ _ (-1)); lia. }
    rewrite E1.
    destruct (Z.eq_dec dst_size (-1)) as [->|Hne].
    + change ((-1 + 1) mod 2 ^ 64) with 0.
      destruct (Z.gtb_spec (Z.min (strlen src) 0) (2 ^ 64 + -1));
        [lia|reflexivity].
    + assert (E2 : (dst_size + 1) mod 2 ^ 64 = 2 ^ 64 + (dst_size + 1)).
      { symmetry. apply (Z.mod_unique _ _ (-1)); lia. }
      rewrite E2.
      destruct (Z.gtb_spec (Z.min (strlen src) (2 ^ 64 + (dst_size + 1)))
                  (2 ^ 64 + dst_size)); [lia|reflexivity].
  - intros Hl. unfold strcpy, mem_write. simpl firstn.
    rewrite !length_app, length_skipn. simpl. lia.
Qed.

Lemma safecpy_negative_size_witness :
  - 2 ^ 31 <= -1 < 0
  /\ strlen (lit "abcdef") < 2 ^ 63
  /\ safecpy (repeat "x"%char 4) (lit "abcdef") (-1)
     = (0, strcpy (repeat "x"%char 4) (lit "abcdef"))
  /\ (length (repeat "x"%char 4)
      < length (strcpy (repeat "x"%char 4) (lit "abcdef")))%nat.
Proof.
  assert (Hn : - 2 ^ 31 <= -1 < 0) by lia.
  assert (Hs : strlen (lit "abcdef") < 2 ^ 63) by (vm_compute; reflexivity).
  destruct (safecpy_negative_size (repeat "x"%char 4) (lit "abcdef") (-1)
              Hn Hs) as [E Ho].
  split; [exact Hn|]. split; [exact Hs|]. split; [exact E|].
  apply Ho. vm_compute. lia.
Defined.

(** ** When the path synthesis succeeds *)

Lemma safecpy_range (dst src : image) (n : Z) :
  0 <= n < INT_MAX -> 0 <= fst (safecpy dst src n) <= 1.
Proof.
  intros Hn. destruct (safecpy_cases dst src n Hn) as [[_ ->]|[_ ->]];
    simpl; lia.
Qed.

Lemma safecat_range (dst src : image) (n : Z) :
  0 <= n < INT_MAX -> 0 <= fst (safecat dst src n) <= 1.
Proof.
  intros Hn. destruct (safecat_cases dst src n Hn) as [[_ ->]|[_ ->]];
    simpl; lia.
Qed.

(** Names the results of the remaining calls of [make_paths], keeping
    only that each returns 0 or 1. *)
Ltac name_calls :=
  destruct max_bounds as (? & ? & ?);
  repeat match goal with
         | |- context [let '(_, _) := safecpy ?d ?s ?n in _] =>
             let H := fresh "Hrange" in
             assert (H : 0 <= fst (safecpy d s n) <= 1)
               by (apply safecpy_range; assumption);
             destruct (safecpy d s n) as [? ?]; cbn [fst] in H
         | |- context [let '(_, _) := safecat ?d ?s ?n in _] =>
             let H := fresh "Hrange" in
             assert (H : 0 <= fst (safecat d s n) <= 1)
               by (apply safecat_range; assumption);
             destruct (safecat d s n) as [? ?]; cbn [fst] in H
         end;
  cbn [mp_err].

Lemma make_paths_err_range (inpath : image) (outdir : option image)
    (ext pathbuffer tmppath outpath : image) :
  0 <= mp_err (make_paths inpath outdir ext pathbuffer tmppath outpath) <= 7.
Proof.
  unfold make_paths. destruct outdir as [d|].
  - destruct (strrchr inpath slash); name_calls; lia.
  - name_calls. lia.
Qed.

Lemma make_paths_no_outdir_iff (inpath ext pathbuffer tmppath outpath : image) :
  mp_err (make_paths inpath None ext pathbuffer tmppath outpath) = 0
  <-> strlen inpath + strlen ext <= MAXOUTPATH.
Proof.
  split.
  - intros E. pose proof (strlen_nonneg ext).
    destruct (Z_lt_le_dec MAXOUTPATH (strlen inpath + strlen ext)) as [Hb|Hb];
      [exfalso|exact Hb].
    revert E. unfold make_paths. destruct max_bounds as (H1 & H2 & H3).
    destruct (safecpy_cases outpath inpath MAXOUTPATH H2) as [[Hl ->]|[Hl ->]].
    + rewrite safecat_too_long by (try rewrite strlen_strcpy; lia).
      name_calls. lia.
    + name_calls. lia.
  - intros H.
    destruct (make_paths_no_outdir inpath ext pathbuffer tmppath outpath H)
      as (tmp' & out' & -> & _). reflexivity.
Qed.

Lemma make_paths_outdir_iff (inpath dir ext pathbuffer tmppath outpath : image)
    (base : list ascii) :
  basename_of (cstr inpath) base ->
  mp_err (make_paths inpath (Some dir) ext pathbuffer tmppath outpath) = 0
  <-> strlen dir + 1 + Z.of_nat (length base) <= MAXPATH
      /\ strlen dir + 1 + Z.of_nat (length base) + strlen ext <= MAXOUTPATH.
Proof.
  intros Hb. split.
  - intros E. pose proof (strlen_nonneg ext). pose proof (strlen_nonneg dir).
    pose proof (basename_src inpath base Hb) as Hsrc.
    assert (E1 : strlen (lit "/") = 1) by reflexivity.
    revert E. unfold make_paths. destruct max_bounds as (H1 & H2 & H3).
    destruct (strrchr inpath slash) as [k|];
      [set (src := skipn (S k) inpath) in * | set (src := inpath) in * ].
    all: assert (Es : strlen src = Z.of_nat (length base))
      by (unfold strlen; now rewrite Hsrc).
    all: clearbody src.
    all: destruct (safecpy_cases pathbuffer dir MAXPATH H1)
      as [[Hl1 ->]|[Hl1 ->]]; [|name_calls; lia].
    all: destruct (safecat_cases (strcpy pathbuffer dir) (lit "/") MAXPATH H1)
      as [[Hl2 ->]|[Hl2 ->]]; rewrite strlen_strcpy in Hl2;
      [|name_calls; lia].
    all: destruct (safecat_cases (strcat (strcpy pathbuffer dir) (lit "/"))
                     src MAXPATH H1) as [[Hl3 ->]|[Hl3 ->]];
      rewrite strlen_strcat, strlen_strcpy in Hl3; [|name_calls; lia].
    all: set (plain := strcat _ src).
    all: assert (Ep : strlen plain = strlen dir + 1 + Z.of_nat (length base))
      by (subst plain; rewrite !strlen_strcat, strlen_strcpy; lia).
    all: cbv beta iota zeta.
    all: assert (HM : MAXOUTPATH = MAXPATH + 10) by reflexivity.
    all: rewrite (safecpy_fits outpath plain) by lia.
    all: destruct (safecat_cases (strcpy outpath plain) ext MAXOUTPATH H2)
      as [[Hl5 ->]|[Hl5 ->]]; rewrite strlen_strcpy in Hl5;
      [intros _; lia|name_calls; lia].
  - intros [Hp Ho].
    destruct (make_paths_outdir inpath dir ext pathbuffer tmppath outpath
                base Hb Hp Ho) as (tmp' & out' & -> & _). reflexivity.
Qed.

(** X5: [make_paths] returns 0 exactly when the paths stay within the
    bounds, for any content of the arrays: without output directory
    when input path and extension have at most [MAXOUTPATH] characters
    together (so an input path longer than [MAXPATH] can be accepted),
    with one when directory, slash and base name have at most
    [MAXPATH] and, with the extension, at most [MAXOUTPATH].  The
    result is between 0 and 7. *)
Theorem make_paths_succeeds_iff (inpath ext pathbuffer tmppath outpath : image) :
  (mp_err (make_paths inpath None ext pathbuffer tmppath outpath) = 0
   <-> strlen inpath + strlen ext <= MAXOUTPATH)
  /\ (forall (dir : image) (base : list ascii),
        basename_of (cstr inpath) base ->
        mp_err (make_paths inpath (Some dir) ext pathbuffer tmppath outpath)
        = 0
        <-> strlen dir + 1 + Z.of_nat (length base) <= MAXPATH
            /\ strlen dir + 1 + Z.of_nat (length base) + strlen ext
               <= MAXOUTPATH)
  /\ (forall outdir,
        0 <= mp_err (make_paths inpath outdir ext pathbuffer tmppath outpath)
        <= 7).
Proof.
  split; [apply make_paths_no_outdir_iff|].
  split; [intros dir base; apply make_paths_outdir_iff|].
  intros outdir. apply make_paths_err_range.
Qed.

Lemma make_paths_succeeds_iff_witness :
  basename_of (cstr (lit "d/img.x3f")) (lit "img.x3f")
  /\ (mp_err (make_paths (lit "d/img.x3f") (Some (repeat "o"%char 993))
                (lit ".dng") (repeat "x"%char 1001) (repeat "x"%char 1021)
                (repeat "x"%char 1011)) = 0
      <-> strlen (repeat "o"%char 993) + 1 + Z.of_nat (length (lit "img.x3f"))
          <= MAXPATH
          /\ strlen (repeat "o"%char 993) + 1
             + Z.of_nat (length (lit "img.x3f")) + strlen (lit ".dng")
             <= MAXOUTPATH)
  /\ mp_err (make_paths (lit "d/img.x3f") (Some (repeat "o"%char 993))
               (lit ".dng") (repeat "x"%char 1001) (repeat "x"%char 1021)
               (repeat "x"%char 1011)) <> 0.
Proof.
  assert (Hb : basename_of (cstr (lit "d/img.x3f")) (lit "img.x3f")).
  { right. exists (lit "d"). split; [reflexivity|].
    simpl. intros H.
    repeat (destruct H as [H|H]; [discriminate H|]). exact H. }
  pose proof (proj1 (proj2 (make_paths_succeeds_iff (lit "d/img.x3f")
                              (lit ".dng") (repeat "x"%char 1001)
                              (repeat "x"%char 1021) (repeat "x"%char 1011)))
                (repeat "o"%char 993) (lit "img.x3f") Hb) as Hiff.
  split; [exact Hb|]. split; [exact Hiff|].
  intros E. apply Hiff in E. destruct E as [E _].
  vm_compute in E. apply E. reflexivity.
Defined.

(** ** The arrays of [make_paths] *)

Lemma strlen_le_length (a : image) : strlen a <= Z.of_nat (length a).
Proof.
  unfold strlen. apply inj_le.
  induction a as [|c a IH]; simpl; [lia|]. destruct (is_nul c); simpl; lia.
Qed.

(** An array without NUL is one that [cstr] reads to its end. *)
Lemma nul_free_iff (a : image) :
  cstr a = a <-> strlen a = Z.of_nat (length a).
Proof.
  unfold strlen. split; [now intros ->|]. intros H. apply Nat2Z.inj in H.
  induction a as [|c a IH]; [reflexivity|]. simpl in *.
  destruct (is_nul c); simpl in H; [discriminate H|].
  f_equal. apply IH. lia.
Qed.

Lemma reads_within_string (a : image) (m : Z) :
  strlen a < Z.of_nat (length a) -> reads_within a m = true.
Proof.
  intros H. unfold reads_within. apply orb_true_iff. left.
  now apply Z.ltb_lt.
Qed.

Lemma reads_within_array (a : image) (m : Z) :
  m <= Z.of_nat (length a) -> reads_within a m = true.
Proof.
  intros H. unfold reads_within. apply orb_true_iff. right.
  now apply Z.leb_le.
Qed.

Lemma reads_within_behind (a : image) (m : Z) :
  strlen a = Z.of_nat (length a) -> Z.of_nat (length a) < m ->
  reads_within a m = false.
Proof.
  intros H1 H2. unfold reads_within. apply orb_false_iff. split.
  - apply Z.ltb_ge. lia.
  - apply Z.leb_gt. lia.
Qed.

(** What a call leaves in an array of [n + 1] bytes. *)
Lemma safecpy_array (dst src : image) (n : Z) :
  0 <= n < INT_MAX -> Z.of_nat (length dst) = n + 1 ->
  Z.of_nat (length (snd (safecpy dst src n))) = n + 1
  /\ ((fst (safecpy dst src n) = 0 /\ strlen src <= n
       /\ strlen (snd (safecpy dst src n)) = strlen src)
      \/ (fst (safecpy dst src n) = 1 /\ n < strlen src
          /\ snd (safecpy dst src n) = dst)).
Proof.
  intros Hn Hl. split.
  - now rewrite safecpy_keeps_length.
  - destruct (safecpy_cases dst src n Hn) as [[H ->]|[H ->]]; cbn [fst snd].
    + left. now rewrite strlen_strcpy.
    + now right.
Qed.

Lemma safecat_array (dst src : image) (n : Z) :
  0 <= n < INT_MAX -> Z.of_nat (length dst) = n + 1 ->
  Z.of_nat (length (snd (safecat dst src n))) = n + 1
  /\ ((fst (safecat dst src n) = 0 /\ strlen dst + strlen src <= n
       /\ strlen (snd (safecat dst src n)) = strlen dst + strlen src)
      \/ (fst (safecat dst src n) = 1 /\ n < strlen dst + strlen src
          /\ snd (safecat dst src n) = dst)).
Proof.
  intros Hn Hl. split.
  - now rewrite safecat_keeps_length.
  - destruct (safecat_cases dst src n Hn) as [[H ->]|[H ->]]; cbn [fst snd].
    + left. now rewrite strlen_strcat.
    + now right.
Qed.

(** Names the next call on known arrays, with what it leaves. *)
Ltac array_call :=
  match goal with
  | |- context [safecpy ?d ?s ?n] =>
      let L := fresh "L" in
      let D := fresh "D" in
      let e := fresh "e" in
      let r := fresh "r" in
      destruct (safecpy_array d s n) as [L D]; [assumption|assumption|];
      pose proof (strlen_nonneg s);
      destruct (safecpy d s n) as [e r]; cbn [fst snd] in L, D;
      cbv beta iota zeta
  | |- context [safecat ?d ?s ?n] =>
      let L := fresh "L" in
      let D := fresh "D" in
      let e := fresh "e" in
      let r := fresh "r" in
      destruct (safecat_array d s n) as [L D]; [assumption|assumption|];
      pose proof (strlen_nonneg s);
      destruct (safecat d s n) as [e r]; cbn [fst snd] in L, D;
      cbv beta iota zeta
  end.

(** Decides each length test from what is known of the array. *)
Ltac decide_reads :=
  repeat match goal with
         | |- context [reads_within ?a ?m] =>
             first
               [ rewrite (reads_within_string a m)
                   by (unfold MAXTMPPATH, MAXOUTPATH, MAXPATH, EXTMAX in *;
                       lia)
               | rewrite (reads_within_array a m)
                   by (unfold MAXTMPPATH, MAXOUTPATH, MAXPATH, EXTMAX in *;
                       lia)
               | rewrite (reads_within_behind a m)
                   by (unfold MAXTMPPATH, MAXOUTPATH, MAXPATH, EXTMAX in *;
                       lia) ]
         end;
  cbn [andb].

Ltac split_calls :=
  repeat match goal with
         | D : _ \/ _ |- _ => destruct D as [(? & ? & ?)|(? & ? & ?)]
         end;
  subst.

Lemma make_paths_reads_outdir (inpath d ext pathbuffer tmppath outpath : image) :
  Z.of_nat (length pathbuffer) = MAXPATH + 1 ->
  Z.of_nat (length tmppath) = MAXTMPPATH + 1 ->
  Z.of_nat (length outpath) = MAXOUTPATH + 1 ->
  (make_paths_in_bounds inpath (Some d) ext pathbuffer tmppath outpath = false
   <-> MAXPATH < strlen d /\ strlen pathbuffer = Z.of_nat (length pathbuffer))
  /\ (mp_err (make_paths inpath (Some d) ext pathbuffer tmppath outpath) = 0 ->
      strlen d <= MAXPATH).
Proof.
  intros Hp Ht Ho. destruct max_bounds as (H1 & H2 & H3).
  assert (Bp : strlen pathbuffer < Z.of_nat (length pathbuffer)
               \/ strlen pathbuffer = Z.of_nat (length pathbuffer))
    by (pose proof (strlen_le_length pathbuffer); lia).
  unfold make_paths_in_bounds, make_paths.
  destruct (strrchr inpath slash) as [k|]; cbv beta iota zeta;
    do 7 array_call; cbn [mp_err];
    split_calls; destruct Bp as [Bp|Bp]; decide_reads;
    (split; [split; [intros E; try discriminate E|intros [? ?]];
             unfold MAXTMPPATH, MAXOUTPATH, MAXPATH, EXTMAX in *;
             first [lia|reflexivity]
            |unfold MAXTMPPATH, MAXOUTPATH, MAXPATH, EXTMAX in *; lia]).
Qed.

Lemma make_paths_reads_no_outdir (inpath ext pathbuffer tmppath outpath : image) :
  Z.of_nat (length tmppath) = MAXTMPPATH + 1 ->
  Z.of_nat (length outpath) = MAXOUTPATH + 1 ->
  (make_paths_in_bounds inpath None ext pathbuffer tmppath outpath = false
   <-> MAXOUTPATH < strlen inpath
       /\ strlen outpath = Z.of_nat (length outpath))
  /\ (mp_err (make_paths inpath None ext pathbuffer tmppath outpath) = 0 ->
      strlen inpath <= MAXOUTPATH).
Proof.
  intros Ht Ho. destruct max_bounds as (H1 & H2 & H3).
  assert (Bo : strlen outpath < Z.of_nat (length outpath)
               \/ strlen outpath = Z.of_nat (length outpath))
    by (pose proof (strlen_le_length outpath); lia).
  unfold make_paths_in_bounds, make_paths. cbv beta iota zeta.
  do 4 array_call; cbn [mp_err];
    split_calls; destruct Bo as [Bo|Bo]; decide_reads;
    (split; [split; [intros E; try discriminate E|intros [? ?]];
             unfold MAXTMPPATH, MAXOUTPATH, MAXPATH, EXTMAX in *;
             first [lia|reflexivity]
            |unfold MAXTMPPATH, MAXOUTPATH, MAXPATH, EXTMAX in *; lia]).
Qed.

Lemma make_paths_lengths (inpath : image) (outdir : option image)
    (ext pathbuffer tmppath outpath : image) :
  Z.of_nat (length tmppath) = MAXTMPPATH + 1 ->
  Z.of_nat (length outpath) = MAXOUTPATH + 1 ->
  length (mp_tmppath (make_paths inpath outdir ext pathbuffer tmppath outpath))
  = length tmppath
  /\ length (mp_outpath
               (make_paths inpath outdir ext pathbuffer tmppath outpath))
     = length outpath.
Proof.
  intros Ht Ho. destruct max_bounds as (H1 & H2 & H3).
  unfold make_paths.
  match goal with
  | |- context [let '(_, _) := ?h in _] => destruct h as [err0 plain]
  end.
  pose proof (safecpy_keeps_length outpath plain MAXOUTPATH H2 Ho) as L1.
  destruct (safecpy outpath plain MAXOUTPATH) as [e1 o1]. cbn [snd] in L1.
  assert (Ho1 : Z.of_nat (length o1) = MAXOUTPATH + 1) by congruence.
  pose proof (safecat_keeps_length o1 ext MAXOUTPATH H2 Ho1) as L2.
  destruct (safecat o1 ext MAXOUTPATH) as [e2 o2]. cbn [snd] in L2.
  pose proof (safecpy_keeps_length tmppath o2 MAXTMPPATH H3 Ht) as L3.
  destruct (safecpy tmppath o2 MAXTMPPATH) as [e3 t1]. cbn [snd] in L3.
  assert (Ht1 : Z.of_nat (length t1) = MAXTMPPATH + 1) by congruence.
  pose proof (safecat_keeps_length t1 (lit ".tmp") MAXTMPPATH H3 Ht1) as L4.
  destruct (safecat t1 (lit ".tmp") MAXTMPPATH) as [e4 t2]. cbn [snd] in L4.
  cbn [mp_tmppath mp_outpath]. split; congruence.
Qed.

(** X6: the array accesses of [make_paths], for arrays of the declared
    sizes with any content.  A length test reads behind its array in
    exactly two cases: the output directory has more than [MAXPATH]
    characters and [pathbuffer] holds no NUL (the refused copy leaves
    the array as it was, and it is then measured with the bound
    [MAXOUTPATH + 1] of the next copy); or, without output directory,
    the input path has more than [MAXOUTPATH] characters and [outpath]
    holds no NUL (it is then measured with the bound [MAXTMPPATH + 1]).
    A call that returns 0 has made no such read.  When every read
    stays inside its array, no byte is written behind the caller's two
    arrays. *)
Theorem make_paths_keeps_arrays (inpath : image) (outdir : option image)
    (ext pathbuffer tmppath outpath : image) :
  Z.of_nat (length pathbuffer) = MAXPATH + 1 ->
  Z.of_nat (length tmppath) = MAXTMPPATH + 1 ->
  Z.of_nat (length outpath) = MAXOUTPATH + 1 ->
  (make_paths_in_bounds inpath outdir ext pathbuffer tmppath outpath = false
   <-> (exists d, outdir = Some d /\ MAXPATH < strlen d
                  /\ cstr pathbuffer = pathbuffer)
       \/ (outdir = None /\ MAXOUTPATH < strlen inpath
           /\ cstr outpath = outpath))
  /\ (mp_err (make_paths inpath outdir ext pathbuffer tmppath outpath) = 0 ->
      make_paths_in_bounds inpath outdir ext pathbuffer tmppath outpath = true)
  /\ (make_paths_in_bounds inpath outdir ext pathbuffer tmppath outpath = true ->
      length (mp_tmppath
                (make_paths inpath outdir ext pathbuffer tmppath outpath))
      = length tmppath
      /\ length (mp_outpath
                   (make_paths inpath outdir ext pathbuffer tmppath outpath))
         = length outpath).
Proof.
  intros Hp Ht Ho.
  split; [|split; [|intros _; now apply make_paths_lengths]].
  - destruct outdir as [d|].
    + destruct (make_paths_reads_outdir inpath d ext _ _ _ Hp Ht Ho)
        as [Hiff _].
      rewrite Hiff. split.
      * intros [Hd Hn]. left. exists d.
        split; [reflexivity|]. split; [exact Hd|now apply nul_free_iff].
      * intros [(d' & [= <-] & Hd & Hn)|[[=] _]].
        split; [exact Hd|now apply nul_free_iff].
    + destruct (make_paths_reads_no_outdir inpath ext pathbuffer _ _ Ht Ho)
        as [Hiff _].
      rewrite Hiff. split.
      * intros [Hd Hn]. right.
        split; [reflexivity|]. split; [exact Hd|now apply nul_free_iff].
      * intros [(d' & [=] & _)|(_ & Hd & Hn)].
        split; [exact Hd|now apply nul_free_iff].
  - intros E.
    destruct (make_paths_in_bounds inpath outdir ext pathbuffer tmppath
                outpath) eqn:Eb; [reflexivity|exfalso].
    destruct outdir as [d|].
    + destruct (make_paths_reads_outdir inpath d ext _ _ _ Hp Ht Ho)
        as [Hiff Herr].
      apply Hiff in Eb. specialize (Herr E). lia.
    + destruct (make_paths_reads_no_outdir inpath ext pathbuffer _ _ Ht Ho)
        as [Hiff Herr].
      apply Hiff in Eb. specialize (Herr E). lia.
Qed.

Lemma make_paths_keeps_arrays_witness :
  Z.of_nat (length (repeat "x"%char 1001)) = MAXPATH + 1
  /\ Z.of_nat (length (repeat "x"%char 1021)) = MAXTMPPATH + 1
  /\ Z.of_nat (length (repeat "x"%char 1011)) = MAXOUTPATH + 1
  /\ MAXPATH < strlen (repeat "o"%char 1001)
  /\ make_paths_in_bounds (lit "img.x3f") (Some (repeat "o"%char 1001))
       (lit ".dng") (repeat "x"%char 1001) (repeat "x"%char 1021)
       (repeat "x"%char 1011) = false
  /\ (make_paths_in_bounds (lit "img.x3f") (Some (lit "out")) (lit ".dng")
        (repeat "x"%char 1001) (repeat "x"%char 1021) (repeat "x"%char 1011)
      = true ->
      length (mp_outpath
                (make_paths (lit "img.x3f") (Some (lit "out")) (lit ".dng")
                   (repeat "x"%char 1001) (repeat "x"%char 1021)
                   (repeat "x"%char 1011)))
      = length (repeat "x"%char 1011)).
Proof.
  assert (Hp : Z.of_nat (length (repeat "x"%char 1001)) = MAXPATH + 1)
    by reflexivity.
  assert (Ht : Z.of_nat (length (repeat "x"%char 1021)) = MAXTMPPATH + 1)
    by reflexivity.
  assert (Ho : Z.of_nat (length (repeat "x"%char 1011)) = MAXOUTPATH + 1)
    by reflexivity.
  assert (Hd : MAXPATH < strlen (repeat "o"%char 1001)) by reflexivity.
  assert (Hx : cstr (repeat "x"%char 1001) = repeat "x"%char 1001)
    by (vm_compute; reflexivity).
  split; [exact Hp|]. split; [exact Ht|]. split; [exact Ho|].
  split; [exact Hd|]. split.
  - apply (proj1 (make_paths_keeps_arrays (lit "img.x3f")
                    (Some (repeat "o"%char 1001)) (lit ".dng") _ _ _
                    Hp Ht Ho)).
    left. exists (repeat "o"%char 1001).
    split; [reflexivity|]. split; [exact Hd|exact Hx].
  - intros E.
    exact (proj2 (proj2 (proj2 (make_paths_keeps_arrays (lit "img.x3f")
                                  (Some (lit "out")) (lit ".dng") _ _ _
                                  Hp Ht Ho)) E)).
Defined.

(** X7: With an output directory the output path keeps only the base name
    of the input path: two input files get the same output path exactly
    when their base names are equal (files of the same name from
    different directories collide).  Without output directory different
    input paths get different output paths. *)
Theorem output_paths_collide_on_base_name
    (in1 in2 ext pb1 tp1 op1 pb2 tp2 op2 : image) :
  (forall (dir : image) (base1 base2 : list ascii),
      basename_of (cstr in1) base1 -> basename_of (cstr in2) base2 ->
      mp_err (make_paths in1 (Some dir) ext pb1 tp1 op1) = 0 ->
      mp_err (make_paths in2 (Some dir) ext pb2 tp2 op2) = 0 ->
      (cstr (mp_outpath (make_paths in1 (Some dir) ext pb1 tp1 op1))
       = cstr (mp_outpath (make_paths in2 (Some dir) ext pb2 tp2 op2))
       <-> base1 = base2))
  /\ (mp_err (make_paths in1 None ext pb1 tp1 op1) = 0 ->
      mp_err (make_paths in2 None ext pb2 tp2 op2) = 0 ->
      (cstr (mp_outpath (make_paths in1 None ext pb1 tp1 op1))
       = cstr (mp_outpath (make_paths in2 None ext pb2 tp2 op2))
       <-> cstr in1 = cstr in2)).
Proof.
  split.
  - intros dir base1 base2 Hb1 Hb2 E1 E2.
    apply (make_paths_outdir_iff _ _ _ _ _ _ _ Hb1) in E1 as [P1 O1].
    apply (make_paths_outdir_iff _ _ _ _ _ _ _ Hb2) in E2 as [P2 O2].
    destruct (make_paths_outdir in1 dir ext pb1 tp1 op1 base1 Hb1 P1 O1)
      as (t1 & o1 & -> & Eo1 & _).
    destruct (make_paths_outdir in2 dir ext pb2 tp2 op2 base2 Hb2 P2 O2)
      as (t2 & o2 & -> & Eo2 & _).
    cbn [mp_outpath]. rewrite Eo1, Eo2.
    split.
    + intros H. apply app_inv_head in H. injection H as H.
      now apply app_inv_tail in H.
    + now intros ->.
  - intros E1 E2.
    apply make_paths_no_outdir_iff in E1, E2.
    destruct (make_paths_no_outdir in1 ext pb1 tp1 op1 E1)
      as (t1 & o1 & -> & Eo1 & _).
    destruct (make_paths_no_outdir in2 ext pb2 tp2 op2 E2)
      as (t2 & o2 & -> & Eo2 & _).
    cbn [mp_outpath]. rewrite Eo1, Eo2.
    split.
    + intros H. now apply app_inv_tail in H.
    + now intros ->.
Qed.

Lemma output_paths_collide_on_base_name_witness :
  basename_of (cstr (lit "a/x.x3f")) (lit "x.x3f")
  /\ basename_of (cstr (lit "b/x.x3f")) (lit "x.x3f")
  /\ cstr (mp_outpath (make_paths (lit "a/x.x3f") (Some (lit "out"))
                         (lit ".dng") (repeat "x"%char 1001)
                         (repeat "x"%char 1021) (repeat "x"%char 1011)))
     = cstr (mp_outpath (make_paths (lit "b/x.x3f") (Some (lit "out"))
                           (lit ".dng") (repeat "y"%char 1001)
                           (repeat "y"%char 1021) (repeat "y"%char 1011))).
Proof.
  assert (Hn : ~ In slash (lit "x.x3f")).
  { simpl. intros H.
    repeat (destruct H as [H|H]; [discriminate H|]). exact H. }
  assert (Hb1 : basename_of (cstr (lit "a/x.x3f")) (lit "x.x3f"))
    by (right; exists (lit "a"); split; [reflexivity|exact Hn]).
  assert (Hb2 : basename_of (cstr (lit "b/x.x3f")) (lit "x.x3f"))
    by (right; exists (lit "b"); split; [reflexivity|exact Hn]).
  split; [exact Hb1|]. split; [exact Hb2|].
  apply (proj1 (output_paths_collide_on_base_name (lit "a/x.x3f")
                  (lit "b/x.x3f") (lit ".dng") (repeat "x"%char 1001)
                  (repeat "x"%char 1021) (repeat "x"%char 1011)
                  (repeat "y"%char 1001) (repeat "y"%char 1021)
                  (repeat "y"%char 1011))
           (lit "out") (lit "x.x3f") (lit "x.x3f") Hb1 Hb2);
    reflexivity.
Defined.

(** ** The switch loop: errors, file list, overriding *)

(** Evaluates the comparisons of two literals. *)
Ltac eval_literals :=
  repeat match goal with
         | |- context [strcmp0 (lit ?a) (lit ?b)] =>
             let v := eval vm_compute in (strcmp0 (lit a) (lit b)) in
             change (strcmp0 (lit a) (lit b)) with v
         end;
  cbv iota.

(** X8: The usage errors of the switch loop, from any state of the loop: a
    switch that takes a value as last argument; an argument that
    starts with a dash and is no switch; a colour name that [-color]
    does not know. *)
Theorem switch_loop_usage_errors (cfg : config) :
  (forall sw, In sw value_switches -> parse_loop cfg [sw] = Parse_usage)
  /\ (forall a rest,
        strncmp0 a (lit "-") 1 = true ->
        (forall sw, In sw (plain_switches ++ value_switches) ->
                    strcmp0 a sw = false) ->
        parse_loop cfg (a :: rest) = Parse_usage)
  /\ (forall enc rest,
        (forall c, In c color_names -> strcmp0 enc c = false) ->
        parse_loop cfg (lit "-color" :: enc :: rest) = Parse_usage).
Proof.
  split; [|split].
  - intros sw Hin. unfold value_switches in Hin. cbn [In] in Hin.
    repeat (destruct Hin as [<-|Hin]; [reflexivity|]). contradiction.
  - intros a rest Hd Hno.
    assert (E : parse_step cfg a rest = Usage).
    { unfold parse_step.
      rewrite (Hno (lit "-jpg")), (Hno (lit "-meta")), (Hno (lit "-raw")),
        (Hno (lit "-tiff")), (Hno (lit "-dng")), (Hno (lit "-ppm-ascii")),
        (Hno (lit "-ppm")), (Hno (lit "-histogram")), (Hno (lit "-loghist")),
        (Hno (lit "-color")), (Hno (lit "-o")), (Hno (lit "-unprocessed")),
        (Hno (lit "-qtop")), (Hno (lit "-crop")), (Hno (lit "-denoise")),
        (Hno (lit "-wb")), (Hno (lit "-ocl")), (Hno (lit "-offset")),
        (Hno (lit "-matrixmax"))
        by (unfold plain_switches, extraction_switches, value_switches;
            cbn [app In]; tauto).
      cbn [andb]. now rewrite Hd. }
    cbn [parse_loop]. now rewrite E.
  - intros enc rest Hno.
    assert (E : parse_step cfg (lit "-color") (enc :: rest) = Usage).
    { unfold parse_step. eval_literals. cbn [andb has_next next_arg hd].
      cbv zeta.
      rewrite (Hno (lit "sRGB")), (Hno (lit "AdobeRGB")),
        (Hno (lit "ProPhotoRGB")) by (unfold color_names; cbn [In]; tauto).
      reflexivity. }
    cbn [parse_loop]. now rewrite E.
Qed.

Lemma switch_loop_usage_errors_witness :
  strncmp0 (lit "-jpeg") (lit "-") 1 = true
  /\ (forall sw, In sw (plain_switches ++ value_switches) ->
                 strcmp0 (lit "-jpeg") sw = false)
  /\ parse_loop (initial_config Sim.g0) [lit "-jpeg"; lit "a.x3f"]
     = Parse_usage
  /\ (forall c, In c color_names -> strcmp0 (lit "srgb") c = false)
  /\ parse_loop (initial_config Sim.g0)
       [lit "-color"; lit "srgb"; lit "a.x3f"] = Parse_usage.
Proof.
  assert (H1 : forall sw, In sw (plain_switches ++ value_switches) ->
                          strcmp0 (lit "-jpeg") sw = false).
  { intros sw Hin.
    unfold plain_switches, extraction_switches, value_switches in Hin.
    cbn [app In] in Hin.
    repeat (destruct Hin as [<-|Hin]; [reflexivity|]). contradiction. }
  assert (H2 : forall c, In c color_names -> strcmp0 (lit "srgb") c = false).
  { intros c Hin. unfold color_names in Hin. cbn [In] in Hin.
    repeat (destruct Hin as [<-|Hin]; [reflexivity|]). contradiction. }
  destruct (switch_loop_usage_errors (initial_config Sim.g0))
    as (_ & Hu & Hc).
  split; [reflexivity|]. split; [exact H1|].
  split; [exact (Hu (lit "-jpeg") [lit "a.x3f"] eq_refl H1)|].
  split; [exact H2|]. exact (Hc (lit "srgb") [lit "a.x3f"] H2).
Defined.

Lemma parse_step_break_inv (cfg : config) (a : image) (rest : list image) :
  parse_step cfg a rest = Break -> strncmp0 a (lit "-") 1 = false.
Proof.
  intros E. destruct (strncmp0 a (lit "-") 1) eqn:Hd; [|reflexivity].
  now contradiction (parse_step_dash cfg a rest Hd).
Qed.

Lemma parse_loop_suffix (n : nat) :
  forall (args : list image) (cfg cfg' : config) (infiles : list image),
    (length args <= n)%nat ->
    parse_loop cfg args = Parsed cfg' infiles ->
    (exists pre, args = pre ++ infiles)
    /\ match infiles with
       | f :: _ => strncmp0 f (lit "-") 1 = false
       | [] => True
       end.
Proof.
  induction n as [|n IH]; intros args cfg cfg' infiles Hn E.
  - destruct args; [|simpl in Hn; lia]. injection E as _ <-.
    split; [now exists []|exact I].
  - destruct args as [|a rest].
    + injection E as _ <-. split; [now exists []|exact I].
    + simpl in E, Hn.
      destruct (parse_step cfg a rest) as [cfg1 [|]| |] eqn:Es;
        try discriminate E.
      * destruct rest as [|v rest'].
        -- injection E as _ <-. split; [|exact I].
           exists [a]. reflexivity.
        -- destruct (IH rest' cfg1 cfg' infiles) as [[pre ->] Hf];
             [simpl in Hn; lia|exact E|].
           split; [|exact Hf]. now exists (a :: v :: pre).
      * destruct (IH rest cfg1 cfg' infiles) as [[pre ->] Hf];
          [lia|exact E|].
        split; [|exact Hf]. now exists (a :: pre).
      * injection E as _ <-. split; [now exists []|].
        exact (parse_step_break_inv _ _ _ Es).
Qed.

(** X9: The file list is the part of the arguments from the first one that
    is neither a switch nor the value of one: it is a suffix of the
    arguments and, if not empty, starts with an argument without
    leading dash.  From such an argument on nothing is read as a
    switch: the rest of the arguments, dashes or not, are file names
    and the configuration is left alone. *)
Theorem file_list_is_the_rest (cfg : config) (args : list image) :
  (forall cfg' infiles,
      parse_loop cfg args = Parsed cfg' infiles ->
      (exists pre, args = pre ++ infiles)
      /\ match infiles with
         | f :: _ => strncmp0 f (lit "-") 1 = false
         | [] => True
         end)
  /\ (forall f rest,
        args = f :: rest ->
        strncmp0 f (lit "-") 1 = false ->
        parse_loop cfg args = Parsed cfg args).
Proof.
  split.
  - intros cfg' infiles E.
    exact (parse_loop_suffix (length args) args cfg cfg' infiles (le_n _) E).
  - intros f rest -> Hf. cbn [parse_loop]. now rewrite parse_step_break.
Qed.

Lemma file_list_is_the_rest_witness :
  parse_loop (initial_config Sim.g0)
    [lit "-crop"; lit "-o"; lit "-jpg"; lit "a.x3f"; lit "-tiff"]
  = Parsed (set_outdir (lit "-jpg") (set_crop (initial_config Sim.g0)))
      [lit "a.x3f"; lit "-tiff"]
  /\ (exists pre,
         [lit "-crop"; lit "-o"; lit "-jpg"; lit "a.x3f"; lit "-tiff"]
         = pre ++ [lit "a.x3f"; lit "-tiff"])
  /\ strncmp0 (lit "a.x3f") (lit "-") 1 = false.
Proof.
  assert (E : parse_loop (initial_config Sim.g0)
                [lit "-crop"; lit "-o"; lit "-jpg"; lit "a.x3f"; lit "-tiff"]
              = Parsed (set_outdir (lit "-jpg")
                          (set_crop (initial_config Sim.g0)))
                  [lit "a.x3f"; lit "-tiff"]) by reflexivity.
  split; [exact E|].
  exact (proj1 (file_list_is_the_rest (initial_config Sim.g0) _) _ _ E).
Defined.

Lemma parse_step_only_turns_on (cfg : config) (a : image) (rest : list image)
    (cfg' : config) (took : bool) :
  parse_step cfg a rest = Next cfg' took -> only_turns_on cfg cfg'.
Proof.
  unfold parse_step.
  repeat (cbv zeta; head_if);
    intros E; try discriminate E; injection E as <- _;
    unfold only_turns_on; cbn; tauto.
Qed.

Lemma only_turns_on_trans (c1 c2 c3 : config) :
  only_turns_on c1 c2 -> only_turns_on c2 c3 -> only_turns_on c1 c3.
Proof. unfold only_turns_on. tauto. Qed.

Lemma parse_loop_only_turns_on (n : nat) :
  forall (args : list image) (cfg cfg' : config) (infiles : list image),
    (length args <= n)%nat ->
    parse_loop cfg args = Parsed cfg' infiles ->
    only_turns_on cfg cfg'.
Proof.
  induction n as [|n IH]; intros args cfg cfg' infiles Hn E.
  - destruct args; [|simpl in Hn; lia]. injection E as <- _.
    unfold only_turns_on. tauto.
  - destruct args as [|a rest].
    + injection E as <- _. unfold only_turns_on. tauto.
    + simpl in E, Hn.
      destruct (parse_step cfg a rest) as [cfg1 [|]| |] eqn:Es;
        try discriminate E.
      * pose proof (parse_step_only_turns_on _ _ _ _ _ Es) as H1.
        destruct rest as [|v rest'];
          [now injection E as <- _|].
        apply (only_turns_on_trans _ _ _ H1).
        apply (IH rest' cfg1 cfg' infiles); [simpl in Hn; lia|exact E].
      * pose proof (parse_step_only_turns_on _ _ _ _ _ Es) as H1.
        apply (only_turns_on_trans _ _ _ H1).
        apply (IH rest cfg1 cfg' infiles); [lia|exact E].
      * injection E as <- _. unfold only_turns_on. tauto.
Qed.

(** X10: No switch turns a flag off: a preview or metadata output once
    requested, and cropping, denoising, OpenCL and the log histogram
    once switched on, stay so whatever follows (so [-loghist
    -histogram] still gives the log histogram); only the RAW output
    can be switched off again. *)
Theorem switches_only_turn_on (cfg cfg' : config) (args infiles : list image) :
  parse_loop cfg args = Parsed cfg' infiles ->
  only_turns_on cfg cfg'.
Proof.
  intros E.
  exact (parse_loop_only_turns_on (length args) args cfg cfg' infiles
           (le_n _) E).
Qed.

Lemma switches_only_turn_on_witness :
  parse_loop (set_log_hist (set_raw HISTOGRAM (initial_config Sim.g0)))
    [lit "-jpg"; lit "-histogram"; lit "a.x3f"]
  = Parsed (set_raw HISTOGRAM
              (set_jpg (set_log_hist
                          (set_raw HISTOGRAM (initial_config Sim.g0)))))
      [lit "a.x3f"]
  /\ only_turns_on (set_log_hist (set_raw HISTOGRAM (initial_config Sim.g0)))
       (set_raw HISTOGRAM
          (set_jpg (set_log_hist
                      (set_raw HISTOGRAM (initial_config Sim.g0)))))
  /\ log_hist (set_raw HISTOGRAM
                 (set_jpg (set_log_hist
                             (set_raw HISTOGRAM (initial_config Sim.g0)))))
     = true.
Proof.
  assert (E : parse_loop (set_log_hist
                            (set_raw HISTOGRAM (initial_config Sim.g0)))
                [lit "-jpg"; lit "-histogram"; lit "a.x3f"]
              = Parsed (set_raw HISTOGRAM
                          (set_jpg (set_log_hist
                                      (set_raw HISTOGRAM
                                         (initial_config Sim.g0)))))
                  [lit "a.x3f"]) by reflexivity.
  split; [exact E|].
  pose proof (switches_only_turn_on _ _ _ _ E) as H.
  split; [exact H|]. apply H. reflexivity.
Defined.

Ltac step_keeps H :=
  unfold parse_step; rewrite H; cbn [andb]; cbv iota;
  repeat (cbv zeta; head_if);
  intros E; try discriminate E; injection E as <- _; reflexivity.

Lemma parse_step_keeps_outdir (cfg : config) (a : image) (rest : list image)
    (cfg' : config) (took : bool) :
  strcmp0 a (lit "-o") = false ->
  parse_step cfg a rest = Next cfg' took -> outdir cfg' = outdir cfg.
Proof. intros H. step_keeps H. Qed.

Lemma parse_step_keeps_wb (cfg : config) (a : image) (rest : list image)
    (cfg' : config) (took : bool) :
  strcmp0 a (lit "-wb") = false ->
  parse_step cfg a rest = Next cfg' took -> wb cfg' = wb cfg.
Proof. intros H. step_keeps H. Qed.

(** A field that every step keeps, unless the argument is the switch
    [sw], is kept by the loop on arguments without [sw]. *)
Lemma parse_loop_keeps_field {A} (field : config -> A) (sw : image) :
  (forall cfg a rest cfg' took,
      strcmp0 a sw = false ->
      parse_step cfg a rest = Next cfg' took -> field cfg' = field cfg) ->
  forall (n : nat) (args : list image) (cfg cfg' : config)
         (infiles : list image),
    (length args <= n)%nat ->
    (forall a, In a args -> strcmp0 a sw = false) ->
    parse_loop cfg args = Parsed cfg' infiles ->
    field cfg' = field cfg.
Proof.
  intros Hstep. induction n as [|n IH]; intros args cfg cfg' infiles Hn Hno E.
  - destruct args; [|simpl in Hn; lia]. now injection E as <- _.
  - destruct args as [|a rest]; [now injection E as <- _|].
    simpl in E, Hn.
    assert (Ha : strcmp0 a sw = false) by (apply Hno; now left).
    destruct (parse_step cfg a rest) as [cfg1 [|]| |] eqn:Es;
      try discriminate E.
    + rewrite <- (Hstep _ _ _ _ _ Ha Es).
      destruct rest as [|v rest']; [now injection E as <- _|].
      apply (IH rest' cfg1 cfg' infiles); [simpl in Hn; lia| |exact E].
      intros b Hb. apply Hno. right. now right.
    + rewrite <- (Hstep _ _ _ _ _ Ha Es).
      apply (IH rest cfg1 cfg' infiles); [lia| |exact E].
      intros b Hb. apply Hno. now right.
    + now injection E as <- _.
Qed.

(** X11: Among several [-o] (or [-wb]) switches the last one decides, without
    any check; the value is the next argument as it stands, also when
    it starts with a dash.  Without the switch the field keeps what it
    had. *)
Theorem last_value_switch_wins (cfg cfg' : config) (v : image)
    (post infiles : list image) :
  ((forall a, In a post -> strcmp0 a (lit "-o") = false) ->
   (parse_loop cfg (lit "-o" :: v :: post) = Parsed cfg' infiles ->
    outdir cfg' = Some v)
   /\ (parse_loop cfg post = Parsed cfg' infiles ->
       outdir cfg' = outdir cfg))
  /\ ((forall a, In a post -> strcmp0 a (lit "-wb") = false) ->
      (parse_loop cfg (lit "-wb" :: v :: post) = Parsed cfg' infiles ->
       wb cfg' = Some v)
      /\ (parse_loop cfg post = Parsed cfg' infiles -> wb cfg' = wb cfg)).
Proof.
  split; intros Hno; split; intros E.
  - change (parse_loop cfg (lit "-o" :: v :: post))
      with (parse_loop (set_outdir v cfg) post) in E.
    exact (parse_loop_keeps_field outdir (lit "-o") parse_step_keeps_outdir
             (length post) post _ _ _ (le_n _) Hno E).
  - exact (parse_loop_keeps_field outdir (lit "-o") parse_step_keeps_outdir
             (length post) post _ _ _ (le_n _) Hno E).
  - change (parse_loop cfg (lit "-wb" :: v :: post))
      with (parse_loop (set_wb v cfg) post) in E.
    exact (parse_loop_keeps_field wb (lit "-wb") parse_step_keeps_wb
             (length post) post _ _ _ (le_n _) Hno E).
  - exact (parse_loop_keeps_field wb (lit "-wb") parse_step_keeps_wb
             (length post) post _ _ _ (le_n _) Hno E).
Qed.

Lemma last_value_switch_wins_witness :
  (forall a, In a [lit "-crop"; lit "a.x3f"] -> strcmp0 a (lit "-o") = false)
  /\ parse_loop (set_outdir (lit "first") (initial_config Sim.g0))
       (lit "-o" :: lit "-second" :: [lit "-crop"; lit "a.x3f"])
     = Parsed (set_crop (set_outdir (lit "-second")
                           (set_outdir (lit "first")
                              (initial_config Sim.g0))))
         [lit "a.x3f"]
  /\ outdir (set_crop (set_outdir (lit "-second")
                         (set_outdir (lit "first") (initial_config Sim.g0))))
     = Some (lit "-second").
Proof.
  assert (Hno : forall a, In a [lit "-crop"; lit "a.x3f"] ->
                          strcmp0 a (lit "-o") = false).
  { cbn [In]. intros a [<-|[<-|[]]]; reflexivity. }
  assert (E : parse_loop (set_outdir (lit "first") (initial_config Sim.g0))
                (lit "-o" :: lit "-second" :: [lit "-crop"; lit "a.x3f"])
              = Parsed (set_crop (set_outdir (lit "-second")
                                    (set_outdir (lit "first")
                                       (initial_config Sim.g0))))
                  [lit "a.x3f"]) by reflexivity.
  split; [exact Hno|]. split; [exact E|].
  exact (proj1 (proj1 (last_value_switch_wins _ _ _ _ _) Hno) E).
Defined.

(** ** Clean-up and the failures that end a file *)

Section Handles.

Context {W : Type} (C : collab W).

Lemma keeps_ret {A} (a : A) : keeps_handles (ret (W:=W) a).
Proof. intros s o t s' E. injection E as _ _ <-. now split. Qed.

Lemma keeps_bind {A B} (m : M A) (f : A -> M B) :
  keeps_handles m -> (forall a, keeps_handles (f a)) ->
  keeps_handles (W:=W) (bind m f).
Proof.
  intros Hm Hf s o t s' E.
  destruct (bind_elim _ _ _ _ _ _ E)
    as [(a & t1 & s1 & t2 & E1 & E2 & _)|[E1 _]].
  - destruct (Hm _ _ _ _ E1) as [H1 H2].
    destruct (Hf _ _ _ _ _ E2) as [H3 H4]. split; congruence.
  - exact (Hm _ _ _ _ E1).
Qed.

Lemma keeps_if {A} (b : bool) (m m' : M A) :
  keeps_handles m -> keeps_handles m' ->
  keeps_handles (W:=W) (if b then m else m').
Proof. destruct b; auto. Qed.

Lemma keeps_call_goto (op : W -> bool * W) (ev : bool -> event) :
  keeps_handles (call_goto op ev).
Proof.
  intros s o t s' E. unfold call_goto in E.
  destruct (op (world s)) as [r w']. injection E as _ _ <-. now split.
Qed.

Lemma keeps_call_count (op : W -> bool * W) (ev : bool -> event) :
  keeps_handles (call_count op ev).
Proof.
  intros s o t s' E. unfold call_count in E.
  destruct (op (world s)) as [r w']. injection E as _ _ <-. now split.
Qed.

Lemma keeps_call_ignore (op : W -> bool * W) (ev : bool -> event) :
  keeps_handles (call_ignore op ev).
Proof.
  intros s o t s' E. unfold call_ignore in E.
  destruct (op (world s)) as [r w']. injection E as _ _ <-. now split.
Qed.

Lemma keeps_synth_paths (cfg : config) (f ext : image) :
  keeps_handles (synth_paths C cfg f ext).
Proof.
  intros s o t s' E. unfold synth_paths in E.
  destruct (negb _) in E; injection E as _ _ <-; now split.
Qed.

End Handles.

Ltac keeps_tac :=
  repeat first
    [ apply keeps_ret
    | apply keeps_if
    | apply keeps_synth_paths
    | apply keeps_call_goto
    | apply keeps_call_count
    | apply keeps_call_ignore
    | match goal with
      | |- keeps_handles (load_raw _ ?cfg _) =>
          unfold load_raw; destruct (file_type cfg)
      end
    | apply keeps_bind; [|intros] ].

Section CleanUp.

Context {W : Type} (C : collab W).

(** What [process_file] does, by the results of [fopen] and
    [x3f_new_from_file]. *)
Lemma process_file_shape (cfg : config) (f : image) (s : state) :
  exists r x tb,
    fst (process_file C cfg f s)
    = Ev_fopen (cstr f) r
      :: tb ++ Ev_delete (cstr f) x
      :: (if r then [Ev_fclose (cstr f)] else [])
    /\ (r = false -> tb = [] /\ x = false)
    /\ (r = true ->
        exists tw, tb = Ev_new_from_file (cstr f) x :: tw
                   /\ forallb is_work tw = true
                   /\ (x = false -> tw = [])).
Proof.
  unfold process_file.
  set (s0 := mk_state (world s) (files s + 1) (errors s) false false).
  destruct (extract C cfg f s0) as [[o t] s1] eqn:E.
  unfold extract in E.
  apply bind_elim in E as [(a & t1 & s2 & t2 & E1 & E2 & ->)|[E1 ->]].
  - unfold open_infile in E1.
    destruct (c_fopen C (cstr f) (world s0)) as [[|] w1];
      [|discriminate E1].
    injection E1 as _ <- <-.
    apply bind_elim in E2 as [(a2 & t3 & s3 & t4 & E3 & E4 & ->)|[E3 ->]].
    + unfold new_from_file in E3. cbn [world files errors f_in x3f] in E3.
      destruct (c_new_from_file C (cstr f) w1) as [[|] w2];
        [|discriminate E3].
      injection E3 as _ <- <-.
      match type of E4 with
      | ?m _ = _ =>
          assert (Hk : keeps_handles m)
            by (unfold jpg_block, meta_block, raw_block, dump_and_publish,
                  load_data; keeps_tac);
          assert (Hw : emits is_work m)
            by (unfold jpg_block, meta_block, raw_block, dump_and_publish,
                  load_data; emits_tac)
      end.
      destruct (Hk _ _ _ _ E4) as [Hf Hx]. pose proof (Hw _ _ _ _ E4) as Ht.
      cbn [f_in x3f] in Hf, Hx.
      exists true, true, (Ev_new_from_file (cstr f) true :: t4).
      unfold clean_up. destruct o; cbn [f_in x3f world files errors];
        rewrite Hf, Hx; cbn [fst app];
        (split; [reflexivity|]);
        (split; [discriminate|]); intros _; exists t4;
        (split; [reflexivity|]); (split; [exact Ht|discriminate]).
    + unfold new_from_file in E3. cbn [world files errors f_in x3f] in E3.
      destruct (c_new_from_file C (cstr f) w1) as [[|] w2];
        [discriminate E3|].
      injection E3 as <- <-.
      exists true, false, [Ev_new_from_file (cstr f) false].
      unfold clean_up. cbn [f_in x3f world files errors fst app].
      split; [reflexivity|]. split; [discriminate|]. intros _.
      exists []. repeat split.
  - unfold open_infile in E1.
    destruct (c_fopen C (cstr f) (world s0)) as [[|] w1];
      [discriminate E1|].
    injection E1 as <- <-.
    exists false, false, [].
    unfold clean_up. cbn [f_in x3f world files errors fst app].
    split; [reflexivity|]. split; [now split|discriminate].
Qed.

(** X12: Every file gets its clean-up, whatever happens to it: the trace of
    a file starts with the [fopen], ends with one [x3f_delete] and, if
    and only if the file was opened, one [fclose] after it, and has no
    other call of these three.  When the file cannot be opened nothing
    else is called; when its header cannot be read nothing else but
    the clean-up is called. *)
Theorem every_file_is_cleaned_up (cfg : config) (f : image) (s : state) :
  exists r x tb,
    fst (process_file C cfg f s)
    = Ev_fopen (cstr f) r
      :: tb ++ Ev_delete (cstr f) x
      :: (if r then [Ev_fclose (cstr f)] else [])
    /\ forallb (fun e => is_inner e && negb (is_cleanup e)) tb = true
    /\ (r = false -> tb = [] /\ x = false)
    /\ (x = true <-> In (Ev_new_from_file (cstr f) true) tb)
    /\ (x = false -> tb = [] \/ tb = [Ev_new_from_file (cstr f) false]).
Proof.
  destruct (process_file_shape cfg f s) as (r & x & tb & E & Hr & Ht).
  exists r, x, tb. split; [exact E|].
  destruct r.
  - destruct (Ht eq_refl) as (tw & -> & Hw & Hx).
    assert (Hn : forall e, In e tw ->
                           is_inner e && negb (is_cleanup e) = true
                           /\ e <> Ev_new_from_file (cstr f) true).
    { rewrite forallb_forall in Hw. intros e He. specialize (Hw e He).
      destruct e; try discriminate Hw; split; try reflexivity; discriminate. }
    split; [|split; [discriminate|split]].
    + cbn [forallb is_inner is_cleanup andb negb].
      apply forallb_forall. intros e He. apply (Hn e He).
    + split.
      * intros ->. now left.
      * intros [H|H]; [now injection H|]. now destruct (Hn _ H).
    + intros ->. right. now rewrite (Hx eq_refl).
  - destruct (Hr eq_refl) as [-> ->].
    split; [reflexivity|]. split; [now split|]. split.
    + split; [discriminate|intros []].
    + intros _. now left.
Qed.

(** X13: A failure that makes [main] jump to [found_error] (the file cannot
    be opened, its header cannot be read, the RAW entry cannot be
    loaded, or a path is too long) ends the work on the file: it is
    counted as one error and only the clean-up follows. *)
Theorem jump_failure_ends_file (cfg : config) (f : image)
    (s : state) (t : trace) (s' : state) (pre post : trace) (e : event) :
  process_file C cfg f s = (t, s') ->
  t = pre ++ e :: post ->
  is_jump e = true ->
  forallb is_cleanup post = true
  /\ errors s' = errors s + failures pre + 1.
Proof.
  intros E Et Hj.
  assert (Hf : is_failure e = true)
    by (destruct e as [| | | |? [] ?| | | | | |]; try discriminate;
        exact Hj).
  assert (Hc : is_cleanup e = false)
    by (destruct e; try discriminate; reflexivity).
  destruct (process_file_split C _ _ _ _ _ E)
    as (o & tb & sb & tc & Eb & Etb & Hcl & Hfi & Her & Hs).
  rewrite Etb in Et.
  destruct (split_before_cleanup _ _ _ _ _ Et Hcl Hc) as (post1 & -> & ->).
  destruct o as [a|]; simpl in Hs.
  - rewrite (jump_free_no_jump _ e Hs) in Hj; [discriminate|]. apply in_elt.
  - destruct Hs as (pre' & e' & E' & _ & Hp').
    symmetry in E'.
    destruct (jump_is_last _ _ _ _ _ E' Hp' Hj) as [-> ->].
    split; [exact Hcl|].
    rewrite Her, failures_app. unfold failures at 2. simpl.
    rewrite Hf. simpl. lia.
Qed.

End CleanUp.

Lemma jump_failure_ends_file_witness :
  process_file (Sim.collab [lit "gone.x3f"] [] Sim.all_ok)
    (initial_config Sim.g0) (lit "gone.x3f") (mk_state [] 0 0 false false)
  = ([] ++ Ev_fopen (lit "gone.x3f") false
        :: [Ev_delete (lit "gone.x3f") false],
     mk_state [] 1 1 false false)
  /\ is_jump (Ev_fopen (lit "gone.x3f") false) = true
  /\ forallb is_cleanup [Ev_delete (lit "gone.x3f") false] = true
  /\ errors (mk_state ([] : Sim.world) 1 1 false false)
     = 0 + failures [] + 1.
Proof.
  assert (E : process_file (Sim.collab [lit "gone.x3f"] [] Sim.all_ok)
                (initial_config Sim.g0) (lit "gone.x3f")
                (mk_state [] 0 0 false false)
              = ([] ++ Ev_fopen (lit "gone.x3f") false
                    :: [Ev_delete (lit "gone.x3f") false],
                 mk_state [] 1 1 false false)) by reflexivity.
  split; [exact E|]. split; [reflexivity|].
  exact (jump_failure_ends_file (Sim.collab [lit "gone.x3f"] [] Sim.all_ok)
           _ _ _ _ _ _ _ _ E eq_refl eq_refl).
Defined.

(** ** What a run publishes, loads and dumps *)

Lemma safecpy_zero (dst src : image) (n : Z) (b : image) :
  0 <= n < INT_MAX -> safecpy dst src n = (0, b) -> b = strcpy dst src.
Proof.
  intros Hn E. destruct (safecpy_cases dst src n Hn) as [[_ E']|[_ E']];
    rewrite E' in E; now injection E.
Qed.

Lemma safecat_zero (dst src : image) (n : Z) (b : image) :
  0 <= n < INT_MAX -> safecat dst src n = (0, b) -> b = strcat dst src.
Proof.
  intros Hn E. destruct (safecat_cases dst src n Hn) as [[_ E']|[_ E']];
    rewrite E' in E; now injection E.
Qed.

(** When [make_paths] returns 0, the output path ends with the
    extension and the temporary path is the output path followed by
    ".tmp". *)
Lemma make_paths_sound (inpath : image) (outdir : option image)
    (ext pathbuffer tmppath outpath : image) :
  mp_err (make_paths inpath outdir ext pathbuffer tmppath outpath) = 0 ->
  (exists plain,
      cstr (mp_outpath (make_paths inpath outdir ext pathbuffer tmppath
                          outpath)) = plain ++ cstr ext)
  /\ cstr (mp_tmppath (make_paths inpath outdir ext pathbuffer tmppath
                         outpath))
     = cstr (mp_outpath (make_paths inpath outdir ext pathbuffer tmppath
                           outpath)) ++ lit ".tmp".
Proof.
  destruct max_bounds as (H1 & H2 & H3).
  unfold make_paths.
  match goal with
  | |- context [let '(_, _) := ?h in _] =>
      assert (Hh : 0 <= fst h);
      [|destruct h as [err0 plain]; cbn [fst] in Hh]
  end.
  { destruct outdir as [d|]; [|simpl; lia].
    destruct (strrchr inpath slash); name_calls; cbn [fst]; lia. }
  pose proof (safecpy_range outpath plain MAXOUTPATH H2) as R1.
  destruct (safecpy outpath plain MAXOUTPATH) as [e1 o1] eqn:E1.
  pose proof (safecat_range o1 ext MAXOUTPATH H2) as R2.
  destruct (safecat o1 ext MAXOUTPATH) as [e2 o2] eqn:E2.
  pose proof (safecpy_range tmppath o2 MAXTMPPATH H3) as R3.
  destruct (safecpy tmppath o2 MAXTMPPATH) as [e3 t1] eqn:E3.
  pose proof (safecat_range t1 (lit ".tmp") MAXTMPPATH H3) as R4.
  destruct (safecat t1 (lit ".tmp") MAXTMPPATH) as [e4 t2] eqn:E4.
  cbn [fst mp_err mp_tmppath mp_outpath] in *. intros E.
  assert (e1 = 0) by lia. assert (e2 = 0) by lia.
  assert (e3 = 0) by lia. assert (e4 = 0) by lia. subst e1 e2 e3 e4.
  apply safecpy_zero in E1, E3; try assumption.
  apply safecat_zero in E2, E4; try assumption. subst.
  split.
  - exists (cstr plain). now rewrite strcat_cstr, strcpy_cstr.
  - now rewrite strcat_cstr, strcpy_cstr.
Qed.

Lemma pod_nil : publishes_only_dumped [].
Proof. intros pre tmp out r post E. now destruct pre. Qed.

Lemma pod_single (e : event) :
  is_rename e = false -> publishes_only_dumped [e].
Proof.
  intros He pre tmp out r post E.
  destruct pre as [|x pre]; [injection E as ->; discriminate He|].
  injection E as _ E. now destruct pre.
Qed.

Lemma pod_dump_rename (f : list ascii) (d : dump_call) (tmp out : list ascii)
    (r : bool) :
  tmp = out ++ lit ".tmp" ->
  publishes_only_dumped [Ev_dump f d tmp true; Ev_rename tmp out r].
Proof.
  intros Ht pre tmp' out' r' post E.
  destruct pre as [|x pre]; [discriminate E|]. injection E as Ex E.
  destruct pre as [|y pre]; [|injection E as _ E; now destruct pre].
  injection E as E3 E2 _. subst x tmp' out'.
  split; [exact Ht|]. now exists [], f, d.
Qed.

Lemma pod_app (t1 t2 : trace) :
  publishes_only_dumped t1 -> publishes_only_dumped t2 ->
  publishes_only_dumped (t1 ++ t2).
Proof.
  intros P1 P2 pre tmp out r post E.
  apply app_eq_app in E as [l [[E1 E2]|[E1 E2]]].
  - destruct l as [|x l].
    + simpl in E2. destruct (P2 [] tmp out r post (eq_sym E2))
        as (_ & pre' & f & d & E').
      now destruct pre'.
    + injection E2 as <- E2. exact (P1 pre tmp out r l E1).
  - destruct (P2 l tmp out r post E2) as (Ht & pre' & f & d & ->).
    split; [exact Ht|]. exists (t1 ++ pre'), f, d.
    now rewrite E1, app_assoc.
Qed.

Section Traces.

Context {W : Type} (C : collab W).

Variable Q : trace -> Prop.
Hypothesis Q_nil : Q [].
Hypothesis Q_app : forall t1 t2, Q t1 -> Q t2 -> Q (t1 ++ t2).

Lemma traces_ret {A} (a : A) : traces Q (ret (W:=W) a).
Proof. intros s o t s' E. now injection E as _ <- _. Qed.

Lemma traces_bind {A B} (m : M A) (f : A -> M B) :
  traces Q m -> (forall a, traces Q (f a)) -> traces (W:=W) Q (bind m f).
Proof.
  intros Hm Hf s o t s' E.
  destruct (bind_elim _ _ _ _ _ _ E)
    as [(a & t1 & s1 & t2 & E1 & E2 & ->)|[E1 _]].
  - apply Q_app; [exact (Hm _ _ _ _ E1)|exact (Hf _ _ _ _ _ E2)].
  - exact (Hm _ _ _ _ E1).
Qed.

Lemma traces_if {A} (b : bool) (m m' : M A) :
  traces Q m -> traces Q m' -> traces (W:=W) Q (if b then m else m').
Proof. destruct b; auto. Qed.

Lemma traces_call_goto (op : W -> bool * W) (ev : bool -> event) :
  (forall r, Q [ev r]) -> traces Q (call_goto op ev).
Proof.
  intros H s o t s' E. unfold call_goto in E.
  destruct (op (world s)) as [r w']. injection E as _ <- _. apply H.
Qed.

Lemma traces_call_count (op : W -> bool * W) (ev : bool -> event) :
  (forall r, Q [ev r]) -> traces Q (call_count op ev).
Proof.
  intros H s o t s' E. unfold call_count in E.
  destruct (op (world s)) as [r w']. injection E as _ <- _. apply H.
Qed.

Lemma traces_call_ignore (op : W -> bool * W) (ev : bool -> event) :
  (forall r, Q [ev r]) -> traces Q (call_ignore op ev).
Proof.
  intros H s o t s' E. unfold call_ignore in E.
  destruct (op (world s)) as [r w']. injection E as _ <- _. apply H.
Qed.

Lemma traces_open_infile (f : image) :
  (forall r, Q [Ev_fopen (cstr f) r]) -> traces Q (open_infile C f).
Proof.
  intros H s o t s' E. unfold open_infile in E.
  destruct (c_fopen C (cstr f) (world s)) as [r w'].
  injection E as _ <- _. apply H.
Qed.

Lemma traces_new_from_file (f : image) :
  (forall r, Q [Ev_new_from_file (cstr f) r]) ->
  traces Q (new_from_file C f).
Proof.
  intros H s o t s' E. unfold new_from_file in E.
  destruct (c_new_from_file C (cstr f) (world s)) as [r w'].
  injection E as _ <- _. apply H.
Qed.

Lemma traces_synth_paths (cfg : config) (f ext : image) :
  (forall err, Q [Ev_make_paths (cstr f) (cstr ext) err]) ->
  traces Q (synth_paths C cfg f ext).
Proof.
  intros H s o t s' E. unfold synth_paths in E.
  destruct (negb _) in E; injection E as _ <- _; apply H.
Qed.

(** From the loop body to the whole run. *)
Lemma traces_process_file (cfg : config) (f : image) (s : state) :
  traces Q (extract C cfg f) ->
  (forall x, Q [Ev_delete (cstr f) x]) -> Q [Ev_fclose (cstr f)] ->
  Q (fst (process_file C cfg f s)).
Proof.
  intros He Hd Hc. unfold process_file.
  destruct (extract C cfg f _) as [[o t] s1] eqn:E.
  pose proof (He _ _ _ _ E) as Ht.
  match goal with
  | |- Q (fst (let '(_, _) := clean_up C f ?s2 in _)) =>
      unfold clean_up; destruct (f_in s2)
  end; cbn [fst].
  - apply Q_app; [exact Ht|].
    apply (Q_app [_] [_]); [apply Hd|exact Hc].
  - apply Q_app; [exact Ht|apply Hd].
Qed.

Lemma traces_run_files (cfg : config) (infiles : list image) :
  (forall f s, Q (fst (process_file C cfg f s))) ->
  forall s, Q (fst (run_files C cfg infiles s)).
Proof.
  intros Hp. induction infiles as [|f rest IH]; intros s; [exact Q_nil|].
  simpl. pose proof (Hp f s) as H1.
  destruct (process_file C cfg f s) as [t1 s1].
  pose proof (IH s1) as H2.
  destruct (run_files C cfg rest s1) as [t2 s2].
  now apply Q_app.
Qed.

Lemma traces_main (argv : list image) (g : globals) (w : W) :
  (forall cfg f s, Q (fst (process_file C cfg f s))) ->
  (forall d r, Q [Ev_check_dir d r]) ->
  (forall b, Q [Ev_set_use_opencl b]) ->
  Q (trace_of (main C argv g w)).
Proof.
  intros Hp Hd Ho. unfold main.
  destruct (parse_args g argv) as [|cfg infiles]; [exact Q_nil|].
  assert (Hr : forall s, Q (fst (run_files C cfg infiles s)))
    by (apply traces_run_files; apply Hp).
  destruct (outdir cfg) as [d|].
  - destruct (check_dir C d w) as [r w1].
    destruct (negb (r =? 0)); [apply Hd|].
    match goal with
    | |- context [run_files C cfg infiles ?s] =>
        specialize (Hr s); destruct (run_files C cfg infiles s) as [t s1]
    end.
    destruct (files s1 =? 0); cbn [trace_of fst] in *;
      (apply Q_app; [apply Hd|]); (apply Q_app; [apply Ho|exact Hr]).
  - match goal with
    | |- context [run_files C cfg infiles ?s] =>
        specialize (Hr s); destruct (run_files C cfg infiles s) as [t s1]
    end.
    destruct (files s1 =? 0); cbn [trace_of fst app] in *;
      (apply (Q_app [_]); [apply Ho|exact Hr]).
Qed.

End Traces.

Section Published.

Context {W : Type} (C : collab W).

Lemma pod_synth_dump_publish (cfg : config) (f ext : image) (d : dump_call) :
  traces publishes_only_dumped
    (bind (synth_paths C cfg f ext) (fun p => dump_and_publish C f d p)).
Proof.
  intros s o t s' E.
  apply bind_elim in E as [(p & t1 & s1 & t2 & E1 & E2 & ->)|[E1 _]].
  - unfold synth_paths in E1.
    destruct (negb (mp_err (fresh_paths C cfg f ext (world s)) =? 0)) eqn:Hn;
      [discriminate E1|].
    injection E1 as Ep Et Es. subst p t1 s1.
    apply negb_false_iff, Z.eqb_eq in Hn.
    destruct (make_paths_sound _ _ _ _ _ _ Hn) as [_ Htmp].
    fold (fresh_paths C cfg f ext (world s)) in Htmp.
    apply (pod_app [_]); [now apply pod_single|].
    unfold dump_and_publish, bind, call_count, ret in E2. cbn [world] in E2.
    destruct (c_dump C _ _ _ _) as [[|] w1].
    + cbn [world] in E2. destruct (c_rename C _ _ _) as [r2 w2].
      injection E2 as _ <- _. now apply pod_dump_rename.
    + injection E2 as _ <- _. now apply pod_single.
  - unfold synth_paths in E1.
    destruct (negb _) in E1; [injection E1 as <- _|discriminate E1].
    now apply pod_single.
Qed.

Lemma pod_extract (cfg : config) (f : image) :
  traces publishes_only_dumped (extract C cfg f).
Proof.
  pose proof pod_nil as Hn. pose proof pod_app as Ha.
  unfold extract, jpg_block, meta_block, raw_block, load_data.
  repeat first
    [ apply traces_ret; exact Hn
    | apply traces_if
    | apply pod_synth_dump_publish
    | apply traces_open_infile; intros r; now apply pod_single
    | apply traces_new_from_file; intros r; now apply pod_single
    | apply traces_call_ignore; intros r; now apply pod_single
    | match goal with
      | |- traces _ (load_raw _ ?cfg _) =>
          unfold load_raw; destruct (file_type cfg);
          apply traces_call_goto; intros r; now apply pod_single
      end
    | apply traces_bind; [exact Ha| |intros] ].
Qed.

(** X14: in every run, whatever the collaborators answer, a file is
    renamed only right after a dump that succeeded, the renamed file
    is the one that dump wrote, and its name is the final name
    followed by ".tmp".  No output is published that was not
    completely written. *)
Theorem rename_follows_successful_dump (argv : list image) (g : globals)
    (w : W) :
  publishes_only_dumped (trace_of (main C argv g w)).
Proof.
  apply (traces_main C publishes_only_dumped pod_nil pod_app).
  - intros cfg f s.
    apply (traces_process_file C publishes_only_dumped pod_app).
    + apply pod_extract.
    + intros x. now apply pod_single.
    + now apply pod_single.
  - intros d r. now apply pod_single.
  - intros b. now apply pod_single.
Qed.

Lemma cstr_raw_ext (t : raw_file_type_t) : cstr (raw_ext t) = raw_ext t.
Proof. now destruct t. Qed.

Lemma wanted_extract (cfg : config) (f : image) :
  traces (Forall (wanted cfg)) (extract C cfg f).
Proof.
  assert (Hn : Forall (wanted cfg) []) by constructor.
  assert (Ha : forall t1 t2, Forall (wanted cfg) t1 ->
                 Forall (wanted cfg) t2 -> Forall (wanted cfg) (t1 ++ t2))
    by (intros t1 t2 H1 H2; apply Forall_app; now split).
  unfold extract, jpg_block, meta_block, raw_block, load_data.
  destruct (extract_jpg cfg) eqn:Ej, (extract_meta cfg) eqn:Em,
    (extract_raw cfg) eqn:Er; cbn [orb];
  repeat first
    [ apply traces_ret; exact Hn
    | apply traces_open_infile; intros r; repeat constructor
    | apply traces_new_from_file; intros r; repeat constructor
    | apply traces_call_ignore; intros r; constructor; [|constructor];
      cbn [wanted]; auto
    | apply traces_synth_paths; intros err; constructor; [|constructor];
      cbn [wanted]; rewrite ?cstr_raw_ext; auto
    | apply traces_call_count; intros r; constructor; [|constructor];
      cbn [wanted]; auto
    | match goal with
      | |- traces _ (dump_and_publish _ _ _ _) => unfold dump_and_publish
      | |- traces _ (load_raw _ ?cfg _) =>
          unfold load_raw; destruct (file_type cfg) eqn:Et;
          apply traces_call_goto; intros r; (constructor; [|constructor]);
          cbn [wanted]; rewrite ?Et; (split; [assumption|congruence])
      end
    | apply traces_if
    | apply traces_bind; [exact Ha| |intros] ].
Qed.

(** X15: the file loop does nothing that was not asked for.  The
    thumbnail is loaded only for [-jpg]; PROP and CAMF only when meta
    data or RAW output is asked for; the RAW entry is loaded undecoded
    only for [-raw] and decoded only for the other RAW outputs; and
    every path synthesis and dump is the one of a requested output,
    with that output's extension and dump function. *)
Theorem only_requested_work (cfg : config) (infiles : list image)
    (s : state) :
  Forall (wanted cfg) (fst (run_files C cfg infiles s)).
Proof.
  assert (Ha : forall t1 t2, Forall (wanted cfg) t1 ->
                 Forall (wanted cfg) t2 -> Forall (wanted cfg) (t1 ++ t2))
    by (intros t1 t2 H1 H2; apply Forall_app; now split).
  apply (traces_run_files C (Forall (wanted cfg))); [constructor|exact Ha|].
  intros f s0.
  apply (traces_process_file C (Forall (wanted cfg)) Ha).
  - apply wanted_extract.
  - intros x. now repeat constructor.
  - now repeat constructor.
Qed.

End Published.

(** ** How many errors a file can add *)

Section Costs.

Context {W : Type} (C : collab W).

Lemma costs_ret {A} (a : A) (b : Z) : costs 0 b (ret (W:=W) a).
Proof. intros s o t s' E. injection E as <- _ <-. lia. Qed.

Lemma costs_weaken {A} (a b a' b' : Z) (m : M A) :
  a <= a' -> b <= b' -> costs a b m -> costs (W:=W) a' b' m.
Proof.
  intros Ha Hb H s o t s' E. destruct (H _ _ _ _ E) as [H1 H2].
  split; [exact H1|]. destruct o; lia.
Qed.

Lemma costs_bind {A B} (a1 b1 a2 b2 : Z) (m : M A) (f : A -> M B) :
  costs a1 b1 m -> (forall x, costs a2 b2 (f x)) ->
  costs (W:=W) (a1 + a2) (Z.max b1 (a1 + b2)) (bind m f).
Proof.
  intros Hm Hf s o t s' E.
  destruct (bind_elim _ _ _ _ _ _ E)
    as [(x & t1 & s1 & t2 & E1 & E2 & _)|[E1 ->]].
  - destruct (Hm _ _ _ _ E1) as [M1 M2], (Hf _ _ _ _ _ E2) as [F1 F2].
    split; [lia|]. destruct o; lia.
  - destruct (Hm _ _ _ _ E1) as [M1 M2]. lia.
Qed.

Lemma costs_call_goto (op : W -> bool * W) (ev : bool -> event) :
  costs 0 1 (call_goto op ev).
Proof.
  intros s o t s' E. unfold call_goto in E.
  destruct (op (world s)) as [[|] w']; injection E as <- _ <-; simpl; lia.
Qed.

Lemma costs_call_ignore (op : W -> bool * W) (ev : bool -> event) :
  costs 0 1 (call_ignore op ev).
Proof.
  intros s o t s' E. unfold call_ignore in E.
  destruct (op (world s)) as [r w']; injection E as <- _ <-; simpl; lia.
Qed.

Lemma costs_open_infile (f : image) : costs 0 1 (open_infile C f).
Proof.
  intros s o t s' E. unfold open_infile in E.
  destruct (c_fopen C (cstr f) (world s)) as [[|] w'];
    injection E as <- _ <-; simpl; lia.
Qed.

Lemma costs_new_from_file (f : image) : costs 0 1 (new_from_file C f).
Proof.
  intros s o t s' E. unfold new_from_file in E.
  destruct (c_new_from_file C (cstr f) (world s)) as [[|] w'];
    injection E as <- _ <-; simpl; lia.
Qed.

Lemma costs_synth_paths (cfg : config) (f ext : image) :
  costs 0 1 (synth_paths C cfg f ext).
Proof.
  intros s o t s' E. unfold synth_paths in E.
  destruct (negb _) in E; injection E as <- _ <-; lia.
Qed.

Lemma costs_load_raw (cfg : config) (f : image) : costs 0 1 (load_raw C cfg f).
Proof. unfold load_raw. destruct (file_type cfg); apply costs_call_goto. Qed.

(** A failed dump is not renamed, so the dump and the rename together
    count at most one error. *)
Lemma costs_dump_and_publish (f : image) (d : dump_call) (p : paths) :
  costs 1 1 (dump_and_publish C f d p).
Proof.
  intros s o t s' E.
  unfold dump_and_publish, bind, call_count, ret in E. cbn [world] in E.
  destruct (c_dump C _ _ _ _) as [[|] w1].
  - cbn [world errors] in E. destruct (c_rename C _ _ _) as [[|] w2];
      injection E as <- _ <-; simpl; lia.
  - injection E as <- _ <-; simpl; lia.
Qed.

Lemma costs_output (cfg : config) (f ext : image) (d : dump_call) :
  costs 1 1 (bind (synth_paths C cfg f ext)
                  (fun p => dump_and_publish C f d p)).
Proof.
  apply (costs_weaken (0 + 1) (Z.max 1 (0 + 1))); [lia|lia|].
  apply costs_bind; [apply costs_synth_paths|].
  intros p. apply costs_dump_and_publish.
Qed.

Lemma costs_block {A} (b : bool) (m : M A) (a : A) :
  costs 1 1 m ->
  costs (W:=W) (Z.b2z b) (Z.b2z b) (if b then m else ret a).
Proof. destruct b; [auto|]. intros _. apply costs_ret. Qed.

Lemma costs_extract (cfg : config) (f : image) :
  costs (requested cfg) (Z.max 1 (requested cfg)) (extract C cfg f).
Proof.
  assert (Hj : costs 1 1 (jpg_block C cfg f)).
  { unfold jpg_block.
    apply (costs_weaken (0 + 1) (Z.max 1 (0 + 1))); [lia|lia|].
    apply costs_bind; [apply costs_call_ignore|].
    intros _. apply costs_output. }
  assert (Hm : costs 1 1 (meta_block C cfg f)) by apply costs_output.
  assert (Hr : costs 1 1 (raw_block C cfg f)).
  { unfold raw_block.
    apply (costs_weaken (0 + 1) (Z.max 1 (0 + 1))); [lia|lia|].
    apply costs_bind; [apply costs_load_raw|].
    intros _. apply costs_output. }
  assert (Hl : costs 0 0
                 (if (extract_meta cfg || extract_raw cfg)%bool
                  then bind (load_data C f prop) (fun _ => load_data C f camf)
                  else ret tt)).
  { assert (Hi : forall e, costs 0 0 (load_data C f e)).
    { intros e s o t s' E. unfold load_data, call_ignore in E.
      destruct (c_load_data C _ _ _) as [r w'].
      injection E as <- _ <-. simpl. lia. }
    destruct (_ || _)%bool; [|apply costs_ret].
    apply (costs_weaken (0 + 0) (Z.max 0 (0 + 0))); [lia|lia|].
    apply costs_bind; [apply Hi|intros _; apply Hi]. }
  pose proof (costs_block (extract_jpg cfg) _ tt Hj) as Bj.
  pose proof (costs_block (extract_meta cfg) _ tt Hm) as Bm.
  pose proof (costs_block (extract_raw cfg) _ tt Hr) as Br.
  unfold extract, requested.
  pose proof (Zle_bool_imp_le 0 (Z.b2z (extract_jpg cfg))) as Pj.
  pose proof (Zle_bool_imp_le 0 (Z.b2z (extract_meta cfg))) as Pm.
  pose proof (Zle_bool_imp_le 0 (Z.b2z (extract_raw cfg))) as Pr.
  assert (0 <= Z.b2z (extract_jpg cfg)) by (destruct (extract_jpg cfg);
                                            simpl; lia).
  assert (0 <= Z.b2z (extract_meta cfg)) by (destruct (extract_meta cfg);
                                             simpl; lia).
  assert (0 <= Z.b2z (extract_raw cfg)) by (destruct (extract_raw cfg);
                                            simpl; lia).
  clear Pj Pm Pr.
  eapply costs_weaken;
    [| |apply costs_bind;
         [apply costs_open_infile|intros _;
          apply costs_bind;
            [apply costs_new_from_file|intros _;
             apply costs_bind;
               [exact Bj|intros _;
                apply costs_bind;
                  [exact Hl|intros _;
                   apply costs_bind; [exact Bm|intros _; exact Br]]]]]];
    lia.
Qed.

Lemma process_file_errors (cfg : config) (f : image) (s : state) :
  errors s <= errors (snd (process_file C cfg f s))
              <= errors s + Z.max 1 (requested cfg).
Proof.
  unfold process_file.
  destruct (extract C cfg f _) as [[o t] s1] eqn:E.
  destruct (costs_extract _ _ _ _ _ _ E) as [H1 H2]. cbn [errors] in H1, H2.
  unfold clean_up. destruct o; cbn [f_in errors];
    match goal with |- context [if ?b then _ else _] => destruct b end;
    cbn [snd errors]; lia.
Qed.

(** X16: a file adds at most one error for each kind of output asked
    for, and at most one when it cannot be opened or parsed; so a run
    over a list of files counts at most [max 1 requested] errors per
    file, three at the most, and the counter never goes down. *)
Theorem errors_bounded_by_requests (cfg : config) (infiles : list image)
    (s : state) :
  errors s <= errors (snd (run_files C cfg infiles s))
  /\ errors (snd (run_files C cfg infiles s))
     <= errors s + Z.max 1 (requested cfg) * Z.of_nat (length infiles)
  /\ Z.max 1 (requested cfg) <= 3.
Proof.
  assert (H3 : Z.max 1 (requested cfg) <= 3)
    by (unfold requested;
        destruct (extract_jpg cfg), (extract_meta cfg), (extract_raw cfg);
        simpl; lia).
  revert s. induction infiles as [|f rest IH]; intros s.
  - simpl. lia.
  - cbn [run_files]. pose proof (process_file_errors cfg f s) as Hp.
    destruct (process_file C cfg f s) as [t1 s1]. cbn [snd] in Hp.
    destruct (IH s1) as (I1 & I2 & _).
    destruct (run_files C cfg rest s1) as [t2 s2]. cbn [snd] in *.
    rewrite length_cons, Nat2Z.inj_succ. nia.
Qed.

(** X17: [main] returns (rather than leaving through [usage]) exactly
    when the switch loop accepts the arguments, at least one file name
    is left, and the output directory, if one is given, passes
    [check_dir].  No failure while extracting turns a run into a
    usage exit. *)
Theorem main_returns_iff (argv : list image) (g : globals) (w : W) :
  (exists status nfiles nerrors t w',
      main C argv g w = Exit_return status nfiles nerrors t w')
  <-> (exists cfg infiles,
          parse_args g argv = Parsed cfg infiles
          /\ infiles <> []
          /\ forall d, outdir cfg = Some d -> fst (check_dir C d w) = 0).
Proof.
  unfold main. split.
  - intros (st & n & e & t & w' & E).
    destruct (parse_args g argv) as [|cfg infiles]; [discriminate E|].
    exists cfg, infiles. split; [reflexivity|].
    destruct (outdir cfg) as [d|].
    + destruct (check_dir C d w) as [r w1] eqn:Ec.
      destruct (r =? 0) eqn:Hr; [|discriminate E]. cbn [negb] in E.
      destruct (run_files C cfg infiles _) as [tr s1] eqn:Er.
      destruct (files s1 =? 0) eqn:Hf; [discriminate E|].
      destruct (run_files_facts C _ _ _ _ _ Er) as (F & _).
      split.
      * intros ->. simpl in F. rewrite F in Hf. discriminate Hf.
      * intros d' [= <-]. rewrite Ec. now apply Z.eqb_eq.
    + destruct (run_files C cfg infiles _) as [tr s1] eqn:Er.
      destruct (files s1 =? 0) eqn:Hf; [discriminate E|].
      destruct (run_files_facts C _ _ _ _ _ Er) as (F & _).
      split; [|intros d' [=]].
      intros ->. simpl in F. rewrite F in Hf. discriminate Hf.
  - intros (cfg & infiles & -> & Hne & Hd).
    assert (Hfiles : forall s tr s1,
               files s = 0 -> run_files C cfg infiles s = (tr, s1) ->
               (files s1 =? 0) = false).
    { intros s tr s1 H0 Er.
      destruct (run_files_facts C _ _ _ _ _ Er) as (F & _).
      apply Z.eqb_neq. destruct infiles; [congruence|].
      rewrite F, H0, length_cons. lia. }
    destruct (outdir cfg) as [d|].
    + specialize (Hd d eq_refl).
      destruct (check_dir C d w) as [r w1]. cbn [fst] in Hd. subst r.
      cbn [Z.eqb negb].
      destruct (run_files C cfg infiles _) as [tr s1] eqn:Er.
      rewrite (Hfiles (mk_state _ 0 0 false false) _ _ eq_refl Er). eauto 6.
    + destruct (run_files C cfg infiles _) as [tr s1] eqn:Er.
      rewrite (Hfiles (mk_state _ 0 0 false false) _ _ eq_refl Er). eauto 6.
Qed.

End Costs.

(** ** The numbers of [-offset] and [-matrixmax] *)

(** [atoi] gives an [int]. *)
Lemma atoi_range (s : image) : - 2 ^ 31 <= atoi s < 2 ^ 31.
Proof.
  unfold atoi, int_of_long.
  pose proof (Z.mod_pos_bound (strtol s + 2 ^ 31) (2 ^ 32)). lia.
Qed.

(** Inside the range of [int] it is the number written. *)
Lemma atoi_exact (s : image) :
  - 2 ^ 31 <= decimal_value (cstr s) < 2 ^ 31 ->
  atoi s = decimal_value (cstr s).
Proof.
  intros H. unfold atoi, int_of_long, strtol.
  rewrite Z.min_r, Z.max_r by lia.
  rewrite Z.mod_small by lia. lia.
Qed.

Example atoi_wraps :
  atoi (lit "99999999999") = 1215752191 /\ atoi (lit " -42x") = -42.
Proof. split; reflexivity. Qed.
